(** * spotgen: entry resolution and web scraping

    A shallow embedding of [src/album.js], [src/artist.js] and the web
    scraper, with the properties of the specification proved about it.

    JavaScript values are modelled by the inductive type [JS.value];
    promises by [outcome] (resolved or rejected); the remote catalog and
    the document fetcher by history-indexed oracles, so that the number
    and the order of the network calls are part of the model. *)

From Stdlib Require Import List String Ascii ZArith Bool Lia Arith.
From Stdlib Require Import DecimalString.
From Stdlib Require DecimalPos.
Import ListNotations.

Set Warnings "-register-all".

Local Open Scope string_scope.
Local Open Scope list_scope.
Local Open Scope Z_scope.

(* ================================================================== *)
(** ** JavaScript values *)

Module JS.

(** A JSON-shaped JavaScript value.  Numbers are restricted to integers. *)
Inductive value : Type :=
| VUndefined
| VNull
| VBool (b : bool)
| VNum (n : Z)
| VStr (s : string)
| VArr (items : list value)
| VObj (fields : list (string * value)).

(** ToBoolean. *)
Definition truthy (v : value) : bool :=
  match v with
  | VUndefined | VNull => false
  | VBool b => b
  | VNum n => negb (n =? 0)
  | VStr s => negb (s =? "")%string
  | VArr _ | VObj _ => true
  end.

Fixpoint lookup (k : string) (fs : list (string * value)) : value :=
  match fs with
  | [] => VUndefined
  | (k', v) :: rest => if (k =? k')%string then v else lookup k rest
  end.

(** One step of a member expression: [.name] or [[0]]. *)
Inductive step : Type :=
| P (name : string)
| Idx0.

(** [v.name]; [None] is the TypeError raised on [null] and [undefined].
    The names read by the source ([albums], [artists], [items], [id],
    [name], [tracks]) are not built-in properties of arrays, strings,
    numbers or booleans, on which they evaluate to [undefined]. *)
Definition get (v : value) (name : string) : option value :=
  match v with
  | VUndefined | VNull => None
  | VObj fs => Some (lookup name fs)
  | _ => Some VUndefined
  end.

(** [v[0]]. *)
Definition index0 (v : value) : option value :=
  match v with
  | VUndefined | VNull => None
  | VArr items => Some (nth 0 items VUndefined)
  | VObj fs => Some (lookup "0" fs)
  | VStr (String c _) => Some (VStr (String c EmptyString))
  | _ => Some VUndefined
  end.

Definition access (v : value) (s : step) : option value :=
  match s with
  | P name => get v name
  | Idx0 => index0 v
  end.

(** A member expression [v.a.b[0].c], evaluated left to right. *)
Fixpoint path (v : value) (p : list step) : option value :=
  match p with
  | [] => Some v
  | s :: rest =>
      match access v s with
      | Some v' => path v' rest
      | None => None
      end
  end.

(** The test [e1 && e2 && ... && en] of an [if], every [ei] a member
    expression over the same root: [Some b] is its truth value, [None] a
    TypeError raised while evaluating it.  Evaluation stops at the first
    falsy operand. *)
Fixpoint all_truthy (root : value) (ps : list (list step)) : option bool :=
  match ps with
  | [] => Some true
  | p :: rest =>
      match path root p with
      | None => None
      | Some x => if truthy x then all_truthy root rest else Some false
      end
  end.

(** [String.prototype.trim], for the white space characters of ASCII:
    tab, line feed, vertical tab, form feed, carriage return and
    space. *)
Definition is_space (c : ascii) : bool :=
  let n := nat_of_ascii c in
  ((9 <=? n) && (n <=? 13) || (n =? 32))%nat.

Fixpoint trim_left (s : string) : string :=
  match s with
  | String c rest => if is_space c then trim_left rest else s
  | EmptyString => EmptyString
  end.

Fixpoint trim_right (s : string) : string :=
  match s with
  | EmptyString => EmptyString
  | String c rest =>
      match trim_right rest with
      | EmptyString => if is_space c then EmptyString else String c EmptyString
      | rest' => String c rest'
      end
  end.

Definition trim (s : string) : string := trim_right (trim_left s).

(** Every character of [s] is an ASCII character.  The white space of
    JavaScript outside ASCII (U+00A0, U+FEFF and others) takes more than
    one byte of a [string]; [trim] and [trim_left] leave it in place, so
    that they are [String.prototype.trim] and the white space skipping
    of [parseInt] on the strings that are [ascii_only]. *)
Fixpoint ascii_only (s : string) : bool :=
  match s with
  | EmptyString => true
  | String c rest => (nat_of_ascii c <? 128)%nat && ascii_only rest
  end.

(** [s.split(sep)] for a separator of one character. *)
Fixpoint split (sep : ascii) (s : string) : list string :=
  match s with
  | EmptyString => [EmptyString]
  | String c rest =>
      if Ascii.eqb c sep then EmptyString :: split sep rest
      else match split sep rest with
           | first :: others => String c first :: others
           | [] => [String c EmptyString]
           end
  end.

(** [Array.prototype.slice(start, end)]. *)
Definition slice {A : Type} (start end_ : Z) (l : list A) : list A :=
  let len := Z.of_nat (List.length l) in
  let from := if start <? 0 then Z.max (len + start) 0 else Z.min start len in
  let to := if end_ <? 0 then Z.max (len + end_) 0 else Z.min end_ len in
  firstn (Z.to_nat (to - from)) (skipn (Z.to_nat from) l).

(** [l.map(f)] for a callback that may raise: [None] is its TypeError. *)
Fixpoint map_throwing {A B : Type} (f : A -> option B) (l : list A)
  : option (list B) :=
  match l with
  | [] => Some []
  | x :: rest =>
      match f x with
      | None => None
      | Some y =>
          match map_throwing f rest with
          | None => None
          | Some ys => Some (y :: ys)
          end
      end
  end.

(** [t.includes(s)]. *)
Fixpoint includes (s t : string) : bool :=
  String.prefix s t ||
  match t with
  | EmptyString => false
  | String _ rest => includes s rest
  end.

(** Some string inside [v] includes [s]. *)
Fixpoint mentions (s : string) (v : value) : bool :=
  match v with
  | VStr t => includes s t
  | VArr items => existsb (mentions s) items
  | VObj fields => existsb (fun kv => let '(_, x) := kv in mentions s x) fields
  | _ => false
  end.

(** The operands of a test [r && r.a && r.a.b && ...] in which every
    operand extends the one before by one step: [acc], then [acc] with
    the first step, and so on. *)
Fixpoint prefixes (acc steps : list step) : list (list step) :=
  acc ::
  match steps with
  | [] => []
  | s :: rest => prefixes (acc ++ [s]) rest
  end.

(** ToString, as [+] applies it to an operand that is not a string.  An
    integer is printed in decimal, which is what JavaScript prints for
    an integer below 10^21 in magnitude; it prints the others with an
    exponent, and what is proved of the decimal form of a number is
    stated of a string or of a number in that range. *)
Fixpoint to_string (v : value) : string :=
  match v with
  | VUndefined => "undefined"
  | VNull => "null"
  | VBool true => "true"
  | VBool false => "false"
  | VNum n => NilZero.string_of_int (Z.to_int n)
  | VStr s => s
  | VArr items =>
      (fix join (l : list value) : string :=
         let element x :=
           match x with
           | VUndefined | VNull => ""
           | _ => to_string x
           end in
         match l with
         | [] => ""
         | [x] => element x
         | x :: rest => (element x ++ "," ++ join rest)%string
         end) items
  | VObj _ => "[object Object]"
  end.

End JS.
Export JS.

(* ================================================================== *)
(** ** Regular expressions of the source *)

Module Regex.

Definition is_alnum (c : ascii) : bool :=
  let n := nat_of_ascii c in
  ((48 <=? n) && (n <=? 57) || (65 <=? n) && (n <=? 90)
   || (97 <=? n) && (n <=? 122))%nat.

(** [[0-9a-z]+$] with the [i] flag, anchored at the start of [s]: [s] is
    a non-empty run of ASCII letters and digits. *)
Fixpoint alnum_to_end (s : string) : bool :=
  match s with
  | EmptyString => false
  | String c EmptyString => is_alnum c
  | String c rest => is_alnum c && alnum_to_end rest
  end.

(** [s.match(/[0-9a-z]+$/i)] is not null: the pattern is tried at every
    start position of [s]. *)
Fixpoint matches_id (s : string) : bool :=
  alnum_to_end s ||
  match s with
  | EmptyString => false
  | String _ rest => matches_id rest
  end.


Definition lower (c : ascii) : ascii :=
  let n := nat_of_ascii c in
  if ((65 <=? n) && (n <=? 90))%nat then ascii_of_nat (n + 32) else c.

(** [pat] matches at the start of [s], ignoring ASCII case. *)
Fixpoint prefix_ci (pat s : string) : bool :=
  match pat, s with
  | EmptyString, _ => true
  | String p pat', String c s' =>
      Ascii.eqb (lower p) (lower c) && prefix_ci pat' s'
  | String _ _, EmptyString => false
  end.

(** [s.match(/pat/gi)] is not null, for a pattern [pat] of literal
    characters. *)
Fixpoint contains_ci (pat s : string) : bool :=
  prefix_ci pat s ||
  match s with
  | EmptyString => false
  | String _ rest => contains_ci pat rest
  end.

(** [s.replace(pat, by)] for a string pattern: the first occurrence
    only, compared case-sensitively. *)
Fixpoint replace_first (pat by_ s : string) : string :=
  if String.prefix pat s
  then (by_ ++ substring (String.length pat) (String.length s) s)%string
  else match s with
       | EmptyString => EmptyString
       | String c rest => String c (replace_first pat by_ rest)
       end.

End Regex.

(* ================================================================== *)
(** ** Promises and the catalog client *)

(** What a promise is rejected with: a value, or the TypeError raised by
    a handler. *)
Inductive reason : Type :=
| Reason (v : value)
| TypeError.

Inductive outcome (A : Type) : Type :=
| Resolved (a : A)
| Rejected (r : reason).
Arguments Resolved {A} a.
Arguments Rejected {A} r.

Definition is_resolved {A : Type} (o : outcome A) : bool :=
  match o with Resolved _ => true | Rejected _ => false end.

(** The calls of [SpotifyRequestHandler] made by the entries. *)
Inductive request : Type :=
| SearchForAlbum (q : string)
| SearchForArtist (q : string)
| GetAlbum (id : value)
| GetAlbumsByArtist (id : value).

(** The requests issued so far, oldest first. *)
Definition world : Type := list request.

(** The catalog client is not part of the sources: its answer to a
    request may depend on the request and on everything asked before. *)
Class SpotifyRequestHandler : Type :=
  { respond : world -> request -> outcome value }.

Definition call `{SpotifyRequestHandler} (r : request) (w : world)
  : outcome value * world :=
  (respond w r, w ++ [r]).

Definition is_search (r : request) : bool :=
  match r with
  | SearchForAlbum _ | SearchForArtist _ => true
  | _ => false
  end.

(** Number of catalog searches in a history. *)
Definition searches (w : world) : nat := List.length (filter is_search w).

(** What the promise of [searchForAlbum]/[searchForArtist] resolves to:
    a cached value, or the entry itself. *)
Inductive resolution : Type :=
| Cached (v : value)
| Self.

Definition is_get (r : request) : bool :=
  match r with
  | GetAlbum _ => true
  | _ => false
  end.

(** Number of album fetches in a history. *)
Definition gets (w : world) : nat := List.length (filter is_get w).

(** The rejection value carries the string [s]. *)
Definition carries (r : reason) (s : string) : bool :=
  match r with
  | Reason v => mentions s v
  | TypeError => false
  end.

(* ================================================================== *)
(** ** Tracks and queues *)

(** The Track entry ([src/track.js]) is not part of the sources; the
    album and artist entries use it through these four operations. *)
Class TrackEntry : Type :=
  { track : Type;
    Track_new : string -> track;
    Track_setResponse : value -> track -> track;
    Track_setAlbum : value -> track -> track;
    Track_hasArtist : track -> string -> bool }.

Module Queue.

(** Modelled from the spec: the Queue ([src/queue.js]) is missing; it is
    "an ordered sequence of Entry or Track values" supporting "bounded
    slicing, sequential asynchronous transformation, flattening one
    level of nested queues, filtering by predicate, stable sorting by a
    supplied comparator".  A queue is a list. *)
Definition slice {A : Type} (start end_ : Z) (q : list A) : list A :=
  JS.slice start end_ q.

(** Modelled from the spec: "flattening one level of nested queues". *)
Definition flatten {A : Type} (q : list (list A)) : list A := List.concat q.

(** Modelled from the spec: "filtering by predicate". *)
Definition filter {A : Type} (f : A -> bool) (q : list A) : list A :=
  List.filter f q.

(** Modelled from the spec: the insertion step of the "stable sorting by
    a supplied comparator". *)
Fixpoint insert {A : Type} (cmp : A -> A -> Z) (x : A) (q : list A) : list A :=
  match q with
  | [] => [x]
  | y :: rest => if cmp x y <=? 0 then x :: q else y :: insert cmp x rest
  end.

(** Modelled from the spec: "stable sorting by a supplied comparator";
    an element stays before the later elements it compares equal to. *)
Definition sort {A : Type} (cmp : A -> A -> Z) (q : list A) : list A :=
  fold_right (insert cmp) [] q.

(** Modelled from the spec: "sequential asynchronous transformation
    (apply an async operation to each element in order, collecting
    results in the same order)"; the history of requests is threaded
    through, and a failure is not swallowed: the first one fails the
    whole transformation. *)
Fixpoint forEachPromise {A B : Type}
  (f : A -> world -> outcome B * world) (q : list A) (w : world)
  : outcome (list B) * world :=
  match q with
  | [] => (Resolved [], w)
  | x :: rest =>
      match f x w with
      | (Resolved y, w1) =>
          match forEachPromise f rest w1 with
          | (Resolved ys, w2) => (Resolved (y :: ys), w2)
          | (Rejected r, w2) => (Rejected r, w2)
          end
      | (Rejected r, w1) => (Rejected r, w1)
      end
  end.

End Queue.

(* ================================================================== *)
(** ** Album entry ([src/album.js]) *)

Module Album.

Record t : Type := mk
  { albumResponse : value;
    entry : string;
    limit : option Z;          (* [null], or an integer *)
    searchResponse : value;
    fetchTracks : bool;
    id : value }.

Definition set_albumResponse (v : value) (a : t) : t :=
  mk v (entry a) (limit a) (searchResponse a) (fetchTracks a) (id a).
Definition set_limit (l : option Z) (a : t) : t :=
  mk (albumResponse a) (entry a) l (searchResponse a) (fetchTracks a) (id a).
Definition set_searchResponse (v : value) (a : t) : t :=
  mk (albumResponse a) (entry a) (limit a) v (fetchTracks a) (id a).
Definition set_id (v : value) (a : t) : t :=
  mk (albumResponse a) (entry a) (limit a) (searchResponse a) (fetchTracks a) v.

(** [Number.isInteger(limit)] guards the assignment. *)
Definition setLimit (l : value) (a : t) : t :=
  match l with
  | VNum n => set_limit (Some n) a
  | _ => a
  end.

(** [new Album(spotify, entry, id, limit)]. *)
Definition new (entry0 : string) (id0 limit0 : value) : t :=
  setLimit limit0 (mk VNull (trim entry0) None VNull true id0).

(** An id or a response is held: [searchForAlbum] has nothing to ask. *)
Definition cached (a : t) : bool :=
  truthy (searchResponse a) || truthy (albumResponse a) || truthy (id a).

(** [if (self.limit)]: [null] and [0] are falsy. *)
Definition limit_truthy (a : t) : bool :=
  match limit a with
  | Some n => negb (n =? 0)
  | None => false
  end.

(** The shape of [title]: the field of the full response, else of the
    first search hit, else [fallback].  [None] is a TypeError. *)
Definition field_of (name : string) (fallback : value) (a : t) : option value :=
  match all_truthy (albumResponse a) [[]; [P name]] with
  | None => None
  | Some true => path (albumResponse a) [P name]
  | Some false =>
      match all_truthy (searchResponse a)
              [[]; [P "albums"]; [P "albums"; P "items"; Idx0];
               [P "albums"; P "items"; Idx0; P name]] with
      | None => None
      | Some true => path (searchResponse a) [P "albums"; P "items"; Idx0; P name]
      | Some false => Some fallback
      end
  end.

Definition title (a : t) : option value := field_of "name" (VStr "") a.

Definition popularity (a : t) : option value :=
  field_of "popularity" (VStr "") a.

Definition type (a : t) : option value := field_of "album_type" (VStr "") a.

(** [uri]: as [title], with the URI made from the id before the empty
    string. *)
Definition uri (a : t) : option value :=
  match all_truthy (albumResponse a) [[]; [P "uri"]] with
  | None => None
  | Some true => path (albumResponse a) [P "uri"]
  | Some false =>
      match all_truthy (searchResponse a)
              [[]; [P "albums"]; [P "albums"; P "items"; Idx0];
               [P "albums"; P "items"; Idx0; P "uri"]] with
      | None => None
      | Some true => path (searchResponse a) [P "albums"; P "items"; Idx0; P "uri"]
      | Some false =>
          if truthy (id a)
          then Some (VStr ("spotify:album:" ++ to_string (id a)))
          else Some (VStr "")
      end
  end.

(** The full response has no truthy field [name]. *)
Definition lacks (name : string) (a : t) : bool :=
  negb match path (albumResponse a) [P name] with
       | Some i => truthy i
       | None => false
       end.

(** The search response has a truthy [albums] whose [items] is
    [undefined] or [null]. *)
Definition hits_without_items (a : t) : bool :=
  truthy (searchResponse a) &&
  match get (searchResponse a) "albums" with
  | Some x =>
      truthy x &&
      match get x "items" with
      | Some VUndefined | Some VNull => true
      | _ => false
      end
  | None => false
  end.

Section WithTrack.
Context `{TrackEntry}.

(** The callback of [items.map] in [createQueue]. *)
Definition track_of_item (a : t) (item : value) : option track :=
  match title a with
  | None => None
  | Some ttl =>
      Some (Track_setAlbum ttl (Track_setResponse item (Track_new (entry a))))
  end.

(** [createQueue]: [None] is a TypeError. *)
Definition createQueue (a : t) : option (list track) :=
  match path (albumResponse a) [P "tracks"; P "items"] with
  | Some (VArr items) =>
      match map_throwing (track_of_item a) items with
      | None => None
      | Some tracks =>
          if limit_truthy a
          then match limit a with
               | Some n => Some (Queue.slice 0 n tracks)
               | None => Some tracks
               end
          else Some tracks
      end
  | _ => None
  end.

End WithTrack.

Section WithCatalog.
Context `{SpotifyRequestHandler}.

(** The handler of [.catch] in [searchForAlbum]. *)
Definition search_failed (a : t) : outcome resolution * t :=
  if Regex.matches_id (entry a)
  then (Resolved (Cached (VStr (entry a))), set_id (VStr (entry a)) a)
  else (Rejected (Reason VNull), a).

(** The handler of [.then] in [searchForAlbum]; [None] is a TypeError,
    which the [.catch] that follows handles. *)
Definition search_answered (result : value) (a : t) : option t :=
  let a1 := set_searchResponse result a in
  match all_truthy (searchResponse a1)
          [[]; [P "albums"]; [P "albums"; P "items"];
           [P "albums"; P "items"; Idx0];
           [P "albums"; P "items"; Idx0; P "id"]] with
  | None => None
  | Some true =>
      match path (searchResponse a1) [P "albums"; P "items"; Idx0; P "id"] with
      | Some i => Some (set_id i a1)
      | None => None
      end
  | Some false => Some a1
  end.

Definition searchForAlbum (a : t) (w : world) : outcome resolution * t * world :=
  if truthy (searchResponse a) then (Resolved (Cached (searchResponse a)), a, w)
  else if truthy (albumResponse a) then (Resolved (Cached (albumResponse a)), a, w)
  else if truthy (id a) then (Resolved (Cached (id a)), a, w)
  else
    match call (SearchForAlbum (entry a)) w with
    | (Resolved result, w1) =>
        match search_answered result a with
        | Some a1 => (Resolved Self, a1, w1)
        | None => (search_failed (set_searchResponse result a), w1)
        end
    | (Rejected _, w1) => (search_failed a, w1)
    end.

Definition fetchAlbum (a : t) (w : world) : outcome resolution * t * world :=
  match call (GetAlbum (id a)) w with
  | (Resolved response, w1) => (Resolved Self, set_albumResponse response a, w1)
  | (Rejected r, w1) => (Rejected r, a, w1)
  end.

(** [setResponse]; evaluating its tests may raise a TypeError, in which
    case nothing has been assigned. *)
Definition setResponse (response : value) (a : t) : option t :=
  match all_truthy response
          [[]; [P "albums"]; [P "albums"; P "items"; Idx0];
           [P "albums"; P "items"; Idx0; P "id"]] with
  | None => None
  | Some true =>
      match path response [P "id"] with
      | Some i => Some (set_id i (set_searchResponse response a))
      | None => None
      end
  | Some false =>
      match all_truthy response [[]; [P "id"]] with
      | None => None
      | Some true =>
          match path response [P "id"] with
          | Some i => Some (set_id i (set_albumResponse response a))
          | None => None
          end
      | Some false => Some a
      end
  end.

End WithCatalog.

Section Dispatch.
Context `{SpotifyRequestHandler} `{TrackEntry}.

(** What [dispatch] resolves to: a queue of tracks, or, when the tracks
    are not fetched, what [searchForAlbum] resolves to. *)
Inductive dispatched : Type :=
| Tracks (q : list track)
| Identity (r : resolution).

Definition dispatch (a : t) (w : world) : outcome dispatched * t * world :=
  if fetchTracks a then
    match searchForAlbum a w with
    | (Resolved _, a1, w1) =>
        match fetchAlbum a1 w1 with
        | (Resolved _, a2, w2) =>
            match createQueue a2 with
            | Some q => (Resolved (Tracks q), a2, w2)
            | None => (Rejected TypeError, a2, w2)
            end
        | (Rejected r, a2, w2) => (Rejected r, a2, w2)
        end
    | (Rejected r, a1, w1) => (Rejected r, a1, w1)
    end
  else
    match searchForAlbum a w with
    | (Resolved r, a1, w1) => (Resolved (Identity r), a1, w1)
    | (Rejected r, a1, w1) => (Rejected r, a1, w1)
    end.

End Dispatch.

End Album.

(* ================================================================== *)
(** ** Artist entry ([src/artist.js]) *)

(** The comparator [sort.album] ([src/sort.js]) is not part of the
    sources. *)
Class AlbumOrder : Type :=
  { sort_album : Album.t -> Album.t -> Z }.

Module Artist.

Record t : Type := mk
  { artistResponse : value;
    albumsResponse : value;
    entry : string;
    limit : option Z;
    searchResponse : value;
    id : value }.

Definition set_artistResponse (v : value) (a : t) : t :=
  mk v (albumsResponse a) (entry a) (limit a) (searchResponse a) (id a).
Definition set_albumsResponse (v : value) (a : t) : t :=
  mk (artistResponse a) v (entry a) (limit a) (searchResponse a) (id a).
Definition set_limit (l : option Z) (a : t) : t :=
  mk (artistResponse a) (albumsResponse a) (entry a) l (searchResponse a) (id a).
Definition set_searchResponse (v : value) (a : t) : t :=
  mk (artistResponse a) (albumsResponse a) (entry a) (limit a) v (id a).
Definition set_id (v : value) (a : t) : t :=
  mk (artistResponse a) (albumsResponse a) (entry a) (limit a) (searchResponse a) v.

Definition setLimit (l : value) (a : t) : t :=
  match l with
  | VNum n => set_limit (Some n) a
  | _ => a
  end.

(** [new Artist(spotify, entry, id, limit)]. *)
Definition new (entry0 : string) (id0 limit0 : value) : t :=
  setLimit limit0 (mk VNull VNull (trim entry0) None VNull id0).

(** An id or a response is held: [searchForArtist] has nothing to ask. *)
Definition cached (a : t) : bool :=
  truthy (searchResponse a) || truthy (artistResponse a) || truthy (id a).

Definition setResponse (response : value) (a : t) : option t :=
  match all_truthy response
          [[]; [P "artists"]; [P "artists"; P "items"; Idx0];
           [P "artists"; P "items"; Idx0; P "id"]] with
  | None => None
  | Some true =>
      match path response [P "artists"; P "items"; Idx0; P "id"] with
      | Some i => Some (set_id i (set_searchResponse response a))
      | None => None
      end
  | Some false =>
      match all_truthy response [[]; [P "id"]] with
      | None => None
      | Some true =>
          match path response [P "id"] with
          | Some i => Some (set_id i (set_artistResponse response a))
          | None => None
          end
      | Some false =>
          match all_truthy response [[]; [P "items"]] with
          | None => None
          | Some true => Some (set_albumsResponse response a)
          | Some false => Some a
          end
      end
  end.

Section WithCatalog.
Context `{SpotifyRequestHandler}.

(** The handler of [.catch] in [searchForArtist]. *)
Definition search_failed (a : t) : outcome resolution * t :=
  if Regex.matches_id (entry a)
  then (Resolved (Cached (VStr (entry a))), set_id (VStr (entry a)) a)
  else (Rejected (Reason VNull), a).

(** The handler of [.then] in [searchForArtist]; [None] is a TypeError,
    raised after the response has been stored. *)
Definition search_answered (result : value) (a : t) : option t :=
  let a1 := set_searchResponse result a in
  match all_truthy (searchResponse a1)
          [[]; [P "artists"]; [P "artists"; P "items"; Idx0];
           [P "artists"; P "items"; Idx0; P "id"]] with
  | None => None
  | Some true =>
      match path (searchResponse a1) [P "artists"; P "items"; Idx0; P "id"] with
      | Some i => Some (set_id i a1)
      | None => None
      end
  | Some false => Some a1
  end.

Definition searchForArtist (a : t) (w : world) : outcome resolution * t * world :=
  if truthy (searchResponse a) then (Resolved (Cached (searchResponse a)), a, w)
  else if truthy (artistResponse a) then (Resolved (Cached (artistResponse a)), a, w)
  else if truthy (id a) then (Resolved (Cached (id a)), a, w)
  else
    match call (SearchForArtist (entry a)) w with
    | (Resolved result, w1) =>
        match search_answered result a with
        | Some a1 => (Resolved Self, a1, w1)
        | None => (search_failed (set_searchResponse result a), w1)
        end
    | (Rejected _, w1) => (search_failed a, w1)
    end.

Definition fetchAlbums (a : t) (w : world) : outcome resolution * t * world :=
  match call (GetAlbumsByArtist (id a)) w with
  | (Resolved result, w1) => (Resolved Self, set_albumsResponse result a, w1)
  | (Rejected r, w1) => (Rejected r, a, w1)
  end.

End WithCatalog.

Section Expansion.
Context `{SpotifyRequestHandler} `{TrackEntry} `{AlbumOrder}.

(** The callback of [items.map] in [createQueue]. *)
Definition album_of_item (a : t) (item : value) : option Album.t :=
  Album.setResponse item (Album.new (entry a) VUndefined VUndefined).

(** The callback of the first [forEachPromise]: [fetchAlbum] resolves to
    the album itself. *)
Definition fetch_one (album : Album.t) (w : world) : outcome Album.t * world :=
  match Album.fetchAlbum album w with
  | (Resolved _, album', w1) => (Resolved album', w1)
  | (Rejected r, _, w1) => (Rejected r, w1)
  end.

(** Modelled from the spec: [Queue.prototype.dispatch] is missing; the
    artist must "dispatch each album (expanding into tracks)", one after
    the other. *)
Definition dispatch_one (album : Album.t) (w : world)
  : outcome Album.dispatched * world :=
  match Album.dispatch album w with
  | (Resolved d, _, w1) => (Resolved d, w1)
  | (Rejected r, _, w1) => (Rejected r, w1)
  end.

(** The queue an album dispatched to; an album built by [createQueue]
    fetches its tracks, so that [Identity] does not occur there. *)
Definition queue_of (d : Album.dispatched) : list track :=
  match d with
  | Album.Tracks q => q
  | Album.Identity _ => []
  end.

(** [createQueue]; a TypeError raised before the first request is
    reported as a rejection. *)
Definition createQueue (a : t) (w : world) : outcome (list track) * world :=
  match path (albumsResponse a) [P "items"] with
  | Some (VArr items) =>
      match map_throwing (album_of_item a) items with
      | None => (Rejected TypeError, w)
      | Some albums =>
          match Queue.forEachPromise fetch_one albums w with
          | (Resolved albumQueue, w1) =>
              let albumQueue := Queue.sort sort_album albumQueue in
              match Queue.forEachPromise dispatch_one albumQueue w1 with
              | (Resolved queue, w2) =>
                  (Resolved
                     (Queue.filter (fun track => Track_hasArtist track (entry a))
                        (Queue.flatten (map queue_of queue))), w2)
              | (Rejected r, w2) => (Rejected r, w2)
              end
          | (Rejected r, w1) => (Rejected r, w1)
          end
      end
  | _ => (Rejected TypeError, w)
  end.

Definition dispatch (a : t) (w : world) : outcome (list track) * t * world :=
  match searchForArtist a w with
  | (Resolved _, a1, w1) =>
      match fetchAlbums a1 w1 with
      | (Resolved _, a2, w2) =>
          match createQueue a2 w2 with
          | (o, w3) => (o, a2, w3)
          end
      | (Rejected r, a2, w2) => (Rejected r, a2, w2)
      end
  | (Rejected r, a1, w1) => (Rejected r, a1, w1)
  end.

End Expansion.

End Artist.

(* ================================================================== *)
(** ** Web scraper *)

Module WebScraper.

Definition tab : string := String (ascii_of_nat 9) EmptyString.
Definition nl : string := String (ascii_of_nat 10) EmptyString.

(** [ARTIST\t-\tTITLE]. *)
Definition dash (artist title : string) : string :=
  (artist ++ tab ++ "-" ++ tab ++ title)%string.

(** What the strategies select from a parsed page, in document order.
    A link that is present is taken to carry its [href]. *)
(** An element [div.entry div.md] of a Reddit comments thread: the text
    of every link in it, and its own text. *)
Record comment : Type :=
  { comment_links : list string;
    comment_body : string }.

Record document : Type :=
  { header_new_title : string;                  (* h1.header-new-title, first *)
    chartlist_name : list (string * string);    (* td.chartlist-name: text, link *)
    similar_artists_item_name : list (string * string);
                                  (* h3.similar-artists-item-name: text, link *)
    track_similar_tracks_item : list (string * string);
                                  (* .track-similar-tracks-item: artist, title *)
    artist_work : list (string * string);       (* pitchfork: artist, album *)
    pagination_next : option string;  (* link after the active pagination item *)
    chart_details : list (string * string);     (* rateyourmusic: artist, album *)
    navlinknext : option string;                (* a.navlinknext *)
    a_title : list string;                      (* reddit: a.title *)
    next_button : option string;                (* .next-button a *)
    anchors : list string;                      (* a *)
    video_titles : list string;                 (* youtube titles *)
    entry_md : list comment }.        (* reddit: div.entry div.md, comments *)

(** The collaborators of the scraper that are not part of the sources:
    the document fetcher (its answer may depend on the pages fetched
    before), the HTML parser, [urijs], the WHATWG [URL] and [util]. *)
Class Platform : Type :=
  { http : list string -> string -> outcome string;
    parseHTML : string -> document;
    (** [URI(next).absoluteTo(base).toString()] *)
    absoluteTo : string -> string -> string;
    (** [URI(uri).domain()] *)
    domain : string -> string;
    normalize : string -> string;
    stripNoise : string -> string;
    (** [new URLSearchParams(new URL(u).search)]; [None] when [new URL]
        raises a TypeError *)
    searchParams : string -> option (list (string * string));
    (** [u = new URL(s); u.search = params.toString(); u.toString()] *)
    withSearch : string -> list (string * string) -> option string }.

(** *** [parseInt] and [URLSearchParams] *)

Definition digit_of (radix : Z) (c : ascii) : option Z :=
  let n := Z.of_nat (nat_of_ascii c) in
  let d := if (48 <=? n) && (n <=? 57) then n - 48
           else if (97 <=? n) && (n <=? 122) then n - 87
           else if (65 <=? n) && (n <=? 90) then n - 55
           else 36 in
  if d <? radix then Some d else None.

Fixpoint digits (radix : Z) (s : string) (acc : option Z) : option Z :=
  match s with
  | EmptyString => acc
  | String c rest =>
      match digit_of radix c with
      | Some d =>
          digits radix rest
            (Some (radix * match acc with Some a => a | None => 0 end + d))
      | None => acc
      end
  end.

(** [parseInt(s)]; [None] is [NaN]. *)
Definition parseInt (s : string) : option Z :=
  let s := trim_left s in
  let '(sign, s) :=
    match s with
    | String "-"%char r => (-1, r)
    | String "+"%char r => (1, r)
    | _ => (1, s)
    end in
  let '(radix, s) :=
    match s with
    | String "0"%char (String "x"%char r) => (16, r)
    | String "0"%char (String "X"%char r) => (16, r)
    | _ => (10, s)
    end in
  match digits radix s None with
  | Some n => Some (sign * n)
  | None => None
  end.

Fixpoint params_get (name : string) (ps : list (string * string)) : option string :=
  match ps with
  | [] => None
  | (k, v) :: rest => if (k =? name)%string then Some v else params_get name rest
  end.

Definition params_delete (name : string) (ps : list (string * string))
  : list (string * string) :=
  filter (fun kv => negb (fst kv =? name)%string) ps.

(** [set]: the first pair of that name takes the value and the others
    go; a new pair is appended when there is none. *)
Fixpoint params_set (name v : string) (ps : list (string * string))
  : list (string * string) :=
  match ps with
  | [] => [(name, v)]
  | (k, v') :: rest =>
      if (k =? name)%string then (name, v) :: params_delete name rest
      else (k, v') :: params_set name v rest
  end.

(** [parseInt(urlParams.get(name))]; [get] is [null] for a missing
    name, which [parseInt] reads as the string [null]. *)
Definition int_param (name : string) (ps : list (string * string)) : option Z :=
  match params_get name ps with
  | Some v => parseInt v
  | None => parseInt "null"
  end.

(** The numbers that [parseInt] returns exactly and that JavaScript
    prints in decimal: [NaN] and the safe integers, of magnitude at
    most 2^53 - 1. *)
Definition safe_integer (n : option Z) : bool :=
  match n with
  | Some z => Z.abs z <=? 9007199254740991
  | None => true
  end.

(** The parameter [name] is missing, or its value is [ascii_only]. *)
Definition plain_param (name : string) (ps : list (string * string)) : bool :=
  match params_get name ps with
  | Some v => ascii_only v
  | None => true
  end.

(** Number to string, for [NaN] and the integers that JavaScript prints
    in decimal ([safe_integer] ones among them). *)
Definition show (n : option Z) : string :=
  match n with
  | Some z => NilZero.string_of_int (Z.to_int z)
  | None => "NaN"
  end.

(** [if (i === cap) return false] *)
Definition reached (cap : option Z) (i : Z) : bool :=
  match cap with
  | Some n => i =? n
  | None => false
  end.


(** The parameters that the follow-up of a similar artist is given. *)
Definition similar_params (urlParams : list (string * string))
  (nbSimilarArtistsTracks : option Z) : list (string * string) :=
  params_delete "nb_similar_artists_tracks"
    (params_delete "nb_similar_artists"
       (params_set "nb_tracks" (show nbSimilarArtistsTracks) urlParams)).

(** Every line followed by a line feed. *)
Fixpoint unlines (lines : list string) : string :=
  match lines with
  | [] => ""
  | line :: rest => (line ++ nl ++ unlines rest)%string
  end.

Definition first_char (s : string) : option ascii :=
  match s with
  | EmptyString => None
  | String c _ => Some c
  end.

Fixpoint last_char (s : string) : option ascii :=
  match s with
  | EmptyString => None
  | String c EmptyString => Some c
  | String _ rest => last_char rest
  end.

Section WithPlatform.
Context `{Platform}.

(** *** Last.fm *)

(** The [each] loop over the rows of an artist's track list. *)
Fixpoint each_track (artist : string) (nbTracks nbSimilarTracks : option Z)
  (rows : list (string * string)) (i : Z) (lines : string)
  (nextUrls : list string) : string * list string :=
  match rows with
  | [] => (lines, nextUrls)
  | (text, href) :: rest =>
      if reached nbTracks i then (lines, nextUrls)
      else
        let song := dash artist (normalize text) in
        each_track artist nbTracks nbSimilarTracks rest (i + 1)
          (lines ++ song ++ nl)%string
          (nextUrls ++
             [("https://www.last.fm" ++ normalize href ++
               match nbSimilarTracks with
               | Some _ => "?nb_similar_tracks=" ++ show nbSimilarTracks
               | None => ""
               end)%string])
  end.

(** The [each] loop over the similar artists; [None] is the TypeError of
    [new URL]. *)
Fixpoint each_similar (urlParams : list (string * string))
  (nbSimilarArtists nbSimilarArtistsTracks : option Z)
  (rows : list (string * string)) (i : Z) (nextUrls : list string)
  : option (list string) :=
  match rows with
  | [] => Some nextUrls
  | (text, href) :: rest =>
      if reached nbSimilarArtists i then Some nextUrls
      else
        let nextUrlParams :=
          params_delete "nb_similar_artists_tracks"
            (params_delete "nb_similar_artists"
               (params_set "nb_tracks" (show nbSimilarArtistsTracks) urlParams)) in
        match withSearch ("https://www.last.fm" ++ normalize href ++ "/+tracks")
                nextUrlParams with
        | None => None
        | Some nextUrl =>
            each_similar urlParams nbSimilarArtists nbSimilarArtistsTracks rest
              (i + 1) (nextUrls ++ [nextUrl])
        end
  end.

Fixpoint each_line (prefix : string) (texts : list string) (lines : string)
  : string :=
  match texts with
  | [] => lines
  | text :: rest => each_line prefix rest (lines ++ prefix ++ normalize text ++ nl)%string
  end.

Fixpoint each_similar_track (nbSimilarTracks : option Z)
  (rows : list (string * string)) (i : Z) (lines : string) : string :=
  match rows with
  | [] => lines
  | (artist, title) :: rest =>
      if reached nbSimilarTracks i then lines
      else
        each_similar_track nbSimilarTracks rest (i + 1)
          (lines ++ dash (normalize artist) (normalize title) ++ nl)%string
  end.

(** The body of the [then] handler of [getPages] up to [result += lines]:
    the lines of the page and the work queue after it. *)
Definition lastfm_page (nextUri : string) (urlParams : list (string * string))
  (html : document) (nextUrls : list string) : option (string * list string) :=
  let nbTracks := int_param "nb_tracks" urlParams in
  let nbSimilarTracks := int_param "nb_similar_tracks" urlParams in
  let nbSimilarArtists := int_param "nb_similar_artists" urlParams in
  let nbSimilarArtistsTracks := int_param "nb_similar_artists_tracks" urlParams in
  if Regex.contains_ci "/+tracks" nextUri then
    let artist := normalize (header_new_title html) in
    let '(lines, nextUrls) :=
      each_track artist nbTracks nbSimilarTracks (chartlist_name html) 0 ""
        nextUrls in
    match nbSimilarArtists with
    | Some _ =>
        Some (lines, nextUrls ++ [Regex.replace_first "+tracks" "+similar" nextUri])
    | None => Some (lines, nextUrls)
    end
  else if Regex.contains_ci "/+similar" nextUri then
    match each_similar urlParams nbSimilarArtists nbSimilarArtistsTracks
            (similar_artists_item_name html) 0 nextUrls with
    | Some nextUrls => Some ("", nextUrls)
    | None => None
    end
  else if Regex.contains_ci "/artists" nextUri then
    Some (each_line "#top " (map fst (chartlist_name html)) "", nextUrls)
  else if Regex.contains_ci "/albums" nextUri then
    Some (each_line "#album " (map fst (chartlist_name html)) "", nextUrls)
  else
    Some (each_similar_track nbSimilarTracks (track_similar_tracks_item html) 0 "",
          nextUrls).

(** [getPages] of [lastfm].  [log] lists the pages fetched so far;
    [None] means that [fuel] pages did not exhaust the work queue.  The
    TypeError that [new URL] raises before the fetch ends the crawl and
    is reported as [Rejected TypeError]: for a follow-up it rejects the
    promise, for the start page the source raises it before there is a
    promise, and the model does not tell the two apart. *)
Fixpoint lastfm_getPages (fuel : nat) (uri nextUri result : string) (count : Z)
  (urls : list string) (log : list string)
  : option (outcome string * list string) :=
  match fuel with
  | O => None
  | S fuel' =>
      let nextUri := absoluteTo nextUri uri in
      let nextUrls := urls in
      match searchParams nextUri with
      | None => Some (Rejected TypeError, log)
      | Some urlParams =>
          match http log nextUri with
          | Rejected r => Some (Rejected r, log ++ [nextUri])
          | Resolved data =>
              match lastfm_page nextUri urlParams (parseHTML data) nextUrls with
              | None => Some (Rejected TypeError, log ++ [nextUri])
              | Some (lines, nextUrls) =>
                  let result := (result ++ lines)%string in
                  if (count =? 1) && (Nat.eqb (List.length nextUrls) 0)
                  then Some (Resolved result, log ++ [nextUri])
                  else
                    match nextUrls with
                    | first :: rest =>
                        lastfm_getPages fuel' uri first result 1 rest
                          (log ++ [nextUri])
                    | [] => Some (Resolved result, log ++ [nextUri])
                    end
              end
          end
      end
  end.

(** [count || d] for an optional integer. *)
Definition or_default (count : option Z) (d : Z) : Z :=
  match count with
  | Some c => if c =? 0 then d else c
  | None => d
  end.

Definition lastfm (fuel : nat) (uri : string) (count : option Z)
  (log : list string) : option (outcome string * list string) :=
  lastfm_getPages fuel uri uri ("#shuffle" ++ nl) (or_default count 1) [] log.

(** *** Pitchfork *)

Fixpoint each_album (rows : list (string * string)) (lines : string) : string :=
  match rows with
  | [] => lines
  | (artist, album) :: rest =>
      each_album rest
        (lines ++ "#album " ++ dash (normalize artist) (normalize album) ++ nl)%string
  end.

Fixpoint pitchfork_getPages (fuel : nat) (uri nextUri result : string)
  (count : Z) (log : list string) : option (outcome string * list string) :=
  match fuel with
  | O => None
  | S fuel' =>
      let nextUri := absoluteTo nextUri uri in
      match http log nextUri with
      | Rejected r => Some (Rejected r, log ++ [nextUri])
      | Resolved data =>
          let html := parseHTML data in
          let lines := each_album (artist_work html) "" in
          let result := (result ++ lines)%string in
          if count =? 1 then Some (Resolved result, log ++ [nextUri])
          else
            match pagination_next html with
            | Some href =>
                pitchfork_getPages fuel' uri href result (count - 1)
                  (log ++ [nextUri])
            | None => Some (Resolved result, log ++ [nextUri])
            end
      end
  end.

Definition pitchfork (fuel : nat) (uri : string) (count : option Z)
  (log : list string) : option (outcome string * list string) :=
  pitchfork_getPages fuel uri uri "" (or_default count 0) log.

(** *** Rate Your Music *)

Fixpoint rateyourmusic_getPages (fuel : nat) (uri nextUri result : string)
  (count : Z) (log : list string) : option (outcome string * list string) :=
  match fuel with
  | O => None
  | S fuel' =>
      let nextUri := absoluteTo nextUri uri in
      match http log nextUri with
      | Rejected r => Some (Rejected r, log ++ [nextUri])
      | Resolved data =>
          let html := parseHTML data in
          let lines := each_album (chart_details html) "" in
          let result := (result ++ lines)%string in
          if count =? 1 then Some (Resolved result, log ++ [nextUri])
          else
            match navlinknext html with
            | Some href =>
                rateyourmusic_getPages fuel' uri href result (count - 1)
                  (log ++ [nextUri])
            | None => Some (Resolved result, log ++ [nextUri])
            end
      end
  end.

Definition rateyourmusic (fuel : nat) (uri : string) (count : option Z)
  (log : list string) : option (outcome string * list string) :=
  rateyourmusic_getPages fuel uri uri "" (or_default count 0) log.

(** *** Reddit *)

Fixpoint each_title (texts : list string) (lines : string) : string :=
  match texts with
  | [] => lines
  | text :: rest => each_title rest (lines ++ stripNoise text ++ nl)%string
  end.

(** The two variables named [lines] while the callback of a comment
    runs: the [lines] of the page, declared by the handler of the
    fetch, and the [lines] that the callback declares itself, further
    down, by [var lines = body.split(...)].  A [var] belongs to the
    whole function that declares it: every [lines] written in the
    callback, and in the callback of [links.each] inside it, is the
    variable of the callback, which is [undefined] when the callback
    starts. *)
Record scopes : Type :=
  { page_lines : string;
    callback_lines : value }.

(** [lines += s] in the callback of a comment. *)
Definition add_line (s : string) (sc : scopes) : scopes :=
  {| page_lines := page_lines sc;
     callback_lines := VStr (to_string (callback_lines sc) ++ s) |}.

(** The callback of [links.each]: a link whose text is not an address
    is taken for a song. *)
Fixpoint each_link (texts : list string) (sc : scopes) : scopes :=
  match texts with
  | [] => sc
  | txt :: rest =>
      if Regex.contains_ci "http:" txt || Regex.contains_ci "https:" txt
      then each_link rest sc
      else each_link rest (add_line (stripNoise txt ++ nl) sc)
  end.

(** The callback of [each] over the comments of a thread. *)
Definition comment_callback (c : comment) (sc : scopes) : scopes :=
  let sc := {| page_lines := page_lines sc; callback_lines := VUndefined |} in
  match comment_links c with
  | _ :: _ => each_link (comment_links c) sc
  | [] =>
      let body := comment_body c in
      let sentences := split "." body in
      if (1 <? List.length sentences)%nat
      then add_line (stripNoise (nth 0 sentences "") ++ nl) sc
      else
        let lines := split (ascii_of_nat 10) body in
        let sc := {| page_lines := page_lines sc;
                     callback_lines := VArr (map VStr lines) |} in
        if (1 <? List.length lines)%nat
        then add_line (stripNoise (nth 0 lines "") ++ nl) sc
        else add_line (stripNoise body ++ nl) sc
  end.

Fixpoint each_comment (comments : list comment) (sc : scopes) : scopes :=
  match comments with
  | [] => sc
  | c :: rest => each_comment rest (comment_callback c sc)
  end.

(** The lines of a Reddit page: of a comments thread, or of a listing
    of posts. *)
Definition reddit_lines (uri : string) (html : document) : string :=
  let lines := "" in
  if Regex.contains_ci "/comments/" uri
  then page_lines (each_comment (entry_md html)
                     {| page_lines := lines; callback_lines := VUndefined |})
  else each_title (a_title html) lines.

Fixpoint reddit_getPages (fuel : nat) (uri nextUri result : string)
  (count : Z) (log : list string) : option (outcome string * list string) :=
  match fuel with
  | O => None
  | S fuel' =>
      let nextUri := absoluteTo nextUri uri in
      match http log nextUri with
      | Rejected r => Some (Rejected r, log ++ [nextUri])
      | Resolved data =>
          let html := parseHTML data in
          let lines := reddit_lines uri html in
          let result := (result ++ lines)%string in
          if count =? 1 then Some (Resolved result, log ++ [nextUri])
          else
            match next_button html with
            | Some href =>
                reddit_getPages fuel' uri href result (count - 1)
                  (log ++ [nextUri])
            | None => Some (Resolved result, log ++ [nextUri])
            end
      end
  end.

Definition reddit (fuel : nat) (uri : string) (count : option Z)
  (log : list string) : option (outcome string * list string) :=
  reddit_getPages fuel uri uri "" (or_default count 1) log.

(** *** Generic web page and YouTube *)

Fixpoint each_anchor (texts : list string) (result : string) : string :=
  match texts with
  | [] => result
  | text :: rest =>
      let track := stripNoise text in
      if negb (track =? "")%string
      then each_anchor rest (result ++ track ++ nl)%string
      else each_anchor rest result
  end.

Definition webpage (uri : string) (log : list string)
  : outcome string * list string :=
  match http log uri with
  | Rejected r => (Rejected r, log ++ [uri])
  | Resolved data =>
      (Resolved (trim (each_anchor (anchors (parseHTML data)) "")), log ++ [uri])
  end.

Definition youtube (uri : string) (log : list string)
  : outcome string * list string :=
  match http log uri with
  | Rejected r => (Rejected r, log ++ [uri])
  | Resolved data =>
      (Resolved (trim (each_title (video_titles (parseHTML data)) "")), log ++ [uri])
  end.

(** *** Strategy selection *)

Definition scrape (fuel : nat) (uri : string) (count : option Z)
  (log : list string) : option (outcome string * list string) :=
  let domain := domain uri in
  if (domain =? "last.fm")%string then lastfm fuel uri count log
  else if (domain =? "pitchfork.com")%string then pitchfork fuel uri count log
  else if (domain =? "rateyourmusic.com")%string
  then rateyourmusic fuel uri count log
  else if (domain =? "reddit.com")%string then reddit fuel uri count log
  else if (domain =? "youtube.com")%string then Some (youtube uri log)
  else Some (webpage uri log).

(** The registry in the words of the specification: a fixed table of
    known hosts, and the generic strategy when no host matches. *)
Inductive strategy : Type :=
| Lastfm | Pitchfork | Rateyourmusic | Reddit | Youtube | Webpage.

Definition known_hosts : list (string * strategy) :=
  [("last.fm", Lastfm); ("pitchfork.com", Pitchfork);
   ("rateyourmusic.com", Rateyourmusic); ("reddit.com", Reddit);
   ("youtube.com", Youtube)].

Definition selectStrategy (uri : string) : strategy :=
  match find (fun entry => (domain uri =? fst entry)%string) known_hosts with
  | Some (_, s) => s
  | None => Webpage
  end.

Definition crawl (s : strategy) (fuel : nat) (uri : string) (count : option Z)
  (log : list string) : option (outcome string * list string) :=
  match s with
  | Lastfm => lastfm fuel uri count log
  | Pitchfork => pitchfork fuel uri count log
  | Rateyourmusic => rateyourmusic fuel uri count log
  | Reddit => reddit fuel uri count log
  | Youtube => Some (youtube uri log)
  | Webpage => Some (webpage uri log)
  end.

(** The shared shape of the three linear crawls, for the proofs: the
    lines and the next link of a page are parameters. *)
Fixpoint linear_getPages (lines : document -> string)
  (next : document -> option string) (fuel : nat) (uri nextUri result : string)
  (count : Z) (log : list string) : option (outcome string * list string) :=
  match fuel with
  | O => None
  | S fuel' =>
      let nextUri := absoluteTo nextUri uri in
      match http log nextUri with
      | Rejected r => Some (Rejected r, log ++ [nextUri])
      | Resolved data =>
          let html := parseHTML data in
          let result := (result ++ lines html)%string in
          if count =? 1 then Some (Resolved result, log ++ [nextUri])
          else
            match next html with
            | Some href =>
                linear_getPages lines next fuel' uri href result (count - 1)
                  (log ++ [nextUri])
            | None => Some (Resolved result, log ++ [nextUri])
            end
      end
  end.

(** The lines and the next link a linear strategy reads from a page. *)
Definition linear (s : strategy) : bool :=
  match s with
  | Pitchfork | Rateyourmusic | Reddit => true
  | _ => false
  end.

(** The budget a strategy starts from: [count || 1] for lastfm and
    reddit, [count || 0] for pitchfork and rateyourmusic. *)
Definition budget_of (s : strategy) (count : option Z) : Z :=
  match s with
  | Lastfm | Reddit => or_default count 1
  | _ => or_default count 0
  end.

Definition lines_of (s : strategy) (uri : string) (html : document) : string :=
  match s with
  | Pitchfork => each_album (artist_work html) ""
  | Rateyourmusic => each_album (chart_details html) ""
  | Reddit => reddit_lines uri html
  | _ => ""
  end.

Definition next_of (s : strategy) (html : document) : option string :=
  match s with
  | Pitchfork => pagination_next html
  | Rateyourmusic => navlinknext html
  | Reddit => next_button html
  | _ => None
  end.

(** Linear pagination in the words of the specification: fetch a page,
    then continue to the next page only while the page budget is above 1
    and a next-page link exists, decrementing the budget each hop.  The
    budget is a natural number, and the recursion is on it. *)
Fixpoint paginate (lines : document -> string)
  (next : document -> option string) (pageBudget : nat)
  (uri nextUri result : string) (log : list string)
  : outcome string * list string :=
  let page := absoluteTo nextUri uri in
  match http log page with
  | Rejected r => (Rejected r, log ++ [page])
  | Resolved data =>
      let html := parseHTML data in
      let result := (result ++ lines html)%string in
      match pageBudget with
      | S (S _ as remaining) =>
          match next html with
          | Some href => paginate lines next remaining uri href result (log ++ [page])
          | None => (Resolved result, log ++ [page])
          end
      | _ => (Resolved result, log ++ [page])
      end
  end.

(** [follows next uri log nextUri visited last]: from [nextUri], after
    the history [log], the pages [visited] are fetched one after the
    other, each of them but the last linking to the one after it;
    [last] is the next-page link of the last of them. *)
Inductive follows (next : document -> option string) (uri : string)
  : list string -> string -> list string -> option string -> Prop :=
| follows_last (log : list string) (nextUri data : string) :
    http log (absoluteTo nextUri uri) = Resolved data ->
    follows next uri log nextUri [absoluteTo nextUri uri] (next (parseHTML data))
| follows_next (log : list string) (nextUri data href : string)
    (visited : list string) (last : option string) :
    http log (absoluteTo nextUri uri) = Resolved data ->
    next (parseHTML data) = Some href ->
    follows next uri (log ++ [absoluteTo nextUri uri]) href visited last ->
    follows next uri log nextUri (absoluteTo nextUri uri :: visited) last.

(** The branching crawl in the words of the specification: the work
    queue of follow-up URIs is served first in, first out, until it is
    empty; there is no page budget.  [drain uri queue result log buf log']:
    serving [queue] from the buffer [result] and the history [log] ends
    with the buffer [buf] and the history [log']. *)
Inductive drain (uri : string)
  : list string -> string -> list string -> string -> list string -> Prop :=
| drain_done (result : string) (log : list string) :
    drain uri [] result log result log
| drain_step (u : string) (rest : list string) (result : string)
    (log : list string) (urlParams : list (string * string)) (data lines : string)
    (nextUrls : list string) (buf : string) (log' : list string) :
    searchParams (absoluteTo u uri) = Some urlParams ->
    http log (absoluteTo u uri) = Resolved data ->
    lastfm_page (absoluteTo u uri) urlParams (parseHTML data) rest
      = Some (lines, nextUrls) ->
    drain uri nextUrls (result ++ lines)%string (log ++ [absoluteTo u uri]) buf log' ->
    drain uri (u :: rest) result log buf log'.

End WithPlatform.

End WebScraper.

(* ================================================================== *)
(** ** Concrete collaborators for the examples *)

Module Demo.

Import WebScraper.

(** Modelled from the spec: the Track entry ([src/track.js]) is missing;
    it is "{ reference: string, albumTitle?: string, resolvedMetadata?:
    CatalogTrack }", and a track passes the artist filter when its
    "metadata credits the original artist reference". *)
Record simple_track : Type :=
  { reference : string;
    albumTitle : value;
    resolvedMetadata : value }.

(** Modelled from the spec: a track whose "metadata credits the original
    artist reference" lists an artist of that name. *)
Definition credited (artist : string) (meta : value) : bool :=
  match path meta [P "artists"] with
  | Some (VArr artists) =>
      existsb (fun x => match path x [P "name"] with
                        | Some (VStr n) => (n =? artist)%string
                        | _ => false
                        end) artists
  | _ => false
  end.

(** Modelled from the spec: the operations of the Track entry on
    [simple_track]. *)
Definition SimpleTrack : TrackEntry :=
  {| track := simple_track;
     Track_new := fun e => {| reference := e; albumTitle := VUndefined;
                              resolvedMetadata := VUndefined |};
     Track_setResponse := fun r t => {| reference := reference t;
                                        albumTitle := albumTitle t;
                                        resolvedMetadata := r |};
     Track_setAlbum := fun ttl t => {| reference := reference t;
                                       albumTitle := ttl;
                                       resolvedMetadata := resolvedMetadata t |};
     Track_hasArtist := fun t artist => credited artist (resolvedMetadata t) |}.

(** A catalog that cannot be reached. *)
Definition offline : SpotifyRequestHandler :=
  {| respond := fun _ _ => Rejected (Reason (VStr "ECONNREFUSED")) |}.

Definition song (name artist : string) : value :=
  VObj [("name", VStr name); ("artists", VArr [VObj [("name", VStr artist)]])].

Definition long_division : value :=
  VObj [("id", VStr "album1"); ("name", VStr "Long Division");
        ("tracks", VObj [("items", VArr [song "Violence" "Low";
                                         song "Below & Above" "Other";
                                         song "Shame" "Low"])])].

(** A catalog with one artist, who has one album of three tracks, the
    second credited to somebody else. *)
Definition catalog : SpotifyRequestHandler :=
  {| respond := fun _ r =>
       match r with
       | SearchForArtist _ =>
           Resolved (VObj [("artists",
                            VObj [("items", VArr [VObj [("id", VStr "artist1")]])])])
       | GetAlbumsByArtist _ =>
           Resolved (VObj [("items", VArr [VObj [("id", VStr "album1")]])])
       | GetAlbum _ => Resolved long_division
       | SearchForAlbum _ => Rejected (Reason (VStr "no match"))
       end |}.

(** Entries as the parser builds them: a reference and nothing else. *)
Definition album_by_id : Album.t :=
  Album.new "4aawyAB9vmqN3uQ7FjRGTy" VUndefined VUndefined.
Definition album_rem : Album.t := Album.new "R.E.M." VUndefined VUndefined.
Definition artist_by_id : Artist.t :=
  Artist.new "0oSGxfWSnnOXhD2fKuz2Gy" VUndefined VUndefined.
Definition artist_rem : Artist.t := Artist.new "R.E.M." VUndefined VUndefined.
Definition artist_low : Artist.t := Artist.new " Low " VUndefined VUndefined.


(** Entries whose id is known. *)
Definition album_known : Album.t := Album.new "Long Division" (VStr "album1") VUndefined.
Definition artist_known : Artist.t := Artist.new "Low" (VStr "artist1") VUndefined.

(** An album with its three tracks fetched, and a limit of no tracks. *)
Definition album_limit_0 : Album.t :=
  Album.set_albumResponse long_division (Album.new "Long Division" VNull (VNum 0)).
Definition album_limit_2 : Album.t :=
  Album.set_albumResponse long_division (Album.new "Long Division" VNull (VNum 2)).

(** An album of known id, not fetched yet, with a limit of no tracks. *)
Definition album_known_limit_0 : Album.t :=
  Album.new "Long Division" (VStr "album1") (VNum 0).

(** A catalog whose search answers are sparse: an album search answers
    with one hit, an artist search with an [artists] object that has no
    [items]. *)
Definition catalog_sparse : SpotifyRequestHandler :=
  {| respond := fun _ r =>
       match r with
       | SearchForArtist _ => Resolved (VObj [("artists", VObj [])])
       | SearchForAlbum _ =>
           Resolved (VObj [("albums",
                            VObj [("items", VArr [VObj [("id", VStr "album1")]])])])
       | GetAlbumsByArtist _ => Resolved (VObj [("items", VArr [])])
       | GetAlbum _ => Resolved long_division
       end |}.

(** A catalog that answers nothing but album fetches. *)
Definition catalog_fetch_only : SpotifyRequestHandler :=
  {| respond := fun _ r =>
       match r with
       | GetAlbum _ => Resolved long_division
       | _ => Rejected (Reason (VStr "no match"))
       end |}.

(** The answer of an album search, with one hit. *)
Definition album_hits : value :=
  VObj [("albums", VObj [("items", VArr [VObj [("id", VStr "album1")]])])].

Definition popularity (a : Album.t) : Z :=
  match path (Album.albumResponse a) [P "popularity"] with
  | Some (VNum n) => n
  | _ => 0
  end.

(** Most popular first. *)
Definition by_popularity : AlbumOrder :=
  {| sort_album := fun a b => popularity b - popularity a |}.

(** *** A small web *)

Fixpoint before (sep : ascii) (s : string) : string :=
  match s with
  | EmptyString => EmptyString
  | String c rest => if Ascii.eqb c sep then EmptyString else String c (before sep rest)
  end.

Fixpoint after (sep : ascii) (s : string) : string :=
  match s with
  | EmptyString => EmptyString
  | String c rest => if Ascii.eqb c sep then rest else after sep rest
  end.

Fixpoint split (sep : ascii) (s : string) : list string :=
  match s with
  | EmptyString => [EmptyString]
  | String c rest =>
      if Ascii.eqb c sep then EmptyString :: split sep rest
      else match split sep rest with
           | x :: xs => String c x :: xs
           | [] => [String c EmptyString]
           end
  end.

Definition query (u : string) : list (string * string) :=
  match after "?" u with
  | EmptyString => []
  | q => map (fun kv => (before "=" kv, after "=" kv)) (split "&" q)
  end.

Fixpoint unquery (ps : list (string * string)) : string :=
  match ps with
  | [] => ""
  | [(k, v)] => (k ++ "=" ++ v)%string
  | (k, v) :: rest => (k ++ "=" ++ v ++ "&" ++ unquery rest)%string
  end.

(** The last two labels of the host. *)
Definition host_domain (u : string) : string :=
  let host := before "/" (after "/" (after "/" u)) in
  match rev (split "." host) with
  | tld :: name :: _ => (name ++ "." ++ tld)%string
  | _ => host
  end.

Definition lastfm_doc (header : string) (rows similar : list (string * string))
  : document :=
  {| header_new_title := header; chartlist_name := rows;
     similar_artists_item_name := []; track_similar_tracks_item := similar;
     artist_work := []; pagination_next := None; chart_details := [];
     navlinknext := None; a_title := []; next_button := None; anchors := [];
     video_titles := []; entry_md := [] |}.

Definition similar_doc (artists : list (string * string)) : document :=
  {| header_new_title := ""; chartlist_name := [];
     similar_artists_item_name := artists; track_similar_tracks_item := [];
     artist_work := []; pagination_next := None; chart_details := [];
     navlinknext := None; a_title := []; next_button := None; anchors := [];
     video_titles := []; entry_md := [] |}.

(** A page of links, some of them without text. *)
Definition links_doc (texts : list string) : document :=
  {| header_new_title := ""; chartlist_name := [];
     similar_artists_item_name := []; track_similar_tracks_item := [];
     artist_work := []; pagination_next := None; chart_details := [];
     navlinknext := None; a_title := texts; next_button := None;
     anchors := texts; video_titles := texts; entry_md := [] |}.

Definition chart_doc (works : list (string * string)) (next : option string)
  : document :=
  {| header_new_title := ""; chartlist_name := [];
     similar_artists_item_name := []; track_similar_tracks_item := [];
     artist_work := works; pagination_next := next; chart_details := works;
     navlinknext := next; a_title := map snd works; next_button := next;
     anchors := map snd works; video_titles := []; entry_md := [] |}.

(** A thread of comments: one with a link, one of two sentences, one
    of two lines and one of a few words. *)
Definition thread_doc : document :=
  {| header_new_title := ""; chartlist_name := [];
     similar_artists_item_name := []; track_similar_tracks_item := [];
     artist_work := []; pagination_next := None; chart_details := [];
     navlinknext := None; a_title := []; next_button := None; anchors := [];
     video_titles := [];
     entry_md := [ {| comment_links := ["Low - Words"; "https://low.example"];
                      comment_body := "Low - Words https://low.example" |};
                   {| comment_links := []; comment_body := "Low - Lullaby. A classic" |};
                   {| comment_links := [];
                      comment_body := ("Codeine - Loss Leader" ++ nl ++ "so good")%string |};
                   {| comment_links := []; comment_body := "Bedhead - Bedside Table" |} ] |}.

(** An artist's track list of two rows with the two pages of similar
    tracks they lead to, and a chart of four pages, every one but the
    last with a link to the next. *)
Definition pages : list (string * document) :=
  [("https://www.last.fm/music/Low/+tracks",
    lastfm_doc "Low" [("Words", "/music/Low/_/Words");
                      ("Lullaby", "/music/Low/_/Lullaby")] []);
   ("https://www.last.fm/music/Low/_/Words",
    lastfm_doc "" [] [("Codeine", "Loss Leader")]);
   ("https://www.last.fm/music/Low/_/Lullaby",
    lastfm_doc "" [] [("Bedhead", "Bedside Table")]);
   ("https://pitchfork.com/best/?page=1",
    chart_doc [("Low", "Things We Lost in the Fire")]
      (Some "https://pitchfork.com/best/?page=2"));
   ("https://pitchfork.com/best/?page=2",
    chart_doc [("Low", "Secret Name")] (Some "https://pitchfork.com/best/?page=3"));
   ("https://pitchfork.com/best/?page=3",
    chart_doc [("Low", "Trust")] (Some "https://pitchfork.com/best/?page=4"));
   ("https://pitchfork.com/best/?page=4", chart_doc [("Low", "Ones and Sixes")] None)].

(** More pages: a chart of artists, a list of links, a thread of
    comments and a listing of posts with a link to a next page. *)
Definition more_pages : list (string * document) :=
  [("https://www.last.fm/tag/slowcore/artists",
    lastfm_doc "" [("Low", "/music/Low"); ("Codeine", "/music/Codeine")] []);
   ("https://example.org/playlist", links_doc ["  Low - Words "; "   "; "Home"]);
   ("https://www.reddit.com/r/slowcore/comments/1/", thread_doc);
   ("https://www.reddit.com/r/slowcore/",
    chart_doc [("Low", "Words")] (Some "https://www.reddit.com/r/slowcore/?after=1"));
   ("https://www.reddit.com/r/slowcore/?after=1",
    chart_doc [("Low", "Lullaby")] None)].

(** A chart whose first page links to a page that is not there. *)
Definition broken_pages : list (string * document) :=
  [("https://pitchfork.com/best/?page=1",
    chart_doc [("Low", "Things We Lost in the Fire")]
      (Some "https://pitchfork.com/best/?page=2"))].

Fixpoint page (u : string) (ps : list (string * document)) : option document :=
  match ps with
  | [] => None
  | (k, d) :: rest => if (k =? u)%string then Some d else page u rest
  end.

(** Links are absolute; a page is served under its address and parsed
    by looking it up. *)
Definition web (table : list (string * document)) : Platform :=
  {| http := fun _ u => match page u table with
                        | Some _ => Resolved u
                        | None => Rejected (Reason (VStr "404"))
                        end;
     parseHTML := fun data => match page data table with
                              | Some d => d
                              | None => chart_doc [] None
                              end;
     absoluteTo := fun next _ => next;
     domain := host_domain;
     normalize := trim;
     stripNoise := trim;
     searchParams := fun u => Some (query u);
     withSearch := fun u ps => Some (u ++ "?" ++ unquery ps)%string |}.

End Demo.

(* ================================================================== *)
(** * Properties *)

(** ** The identifier shape *)

Lemma alnum_to_end_last (s : string) :
  Regex.alnum_to_end s = true ->
  exists p c, s = (p ++ String c EmptyString)%string /\ Regex.is_alnum c = true.
Proof.
  induction s as [|c s IH]; simpl; [discriminate|].
  destruct s as [|d s'].
  - intros Hc. exists EmptyString, c. split; [reflexivity | exact Hc].
  - intros Hrun. apply andb_prop in Hrun as [_ Hrest].
    destruct (IH Hrest) as (p & e & Heq & He).
    exists (String c p), e. split; [simpl; now rewrite <- Heq | exact He].
Qed.

(** The pattern has no anchor on its left: it matches exactly the
    strings that end with an ASCII letter or digit. *)
Lemma matches_id_iff (s : string) :
  Regex.matches_id s = true <->
  exists p c, s = (p ++ String c EmptyString)%string /\ Regex.is_alnum c = true.
Proof.
  split.
  - induction s as [|c s IH]; simpl; [discriminate|].
    intros Hm. apply orb_prop in Hm as [Hrun | Hrest].
    + apply (alnum_to_end_last (String c s)). exact Hrun.
    + destruct (IH Hrest) as (p & e & Heq & He).
      exists (String c p), e. split; [simpl; now rewrite <- Heq | exact He].
  - intros (p & e & Heq & He). subst s.
    induction p as [|c p IH]; simpl.
    + now rewrite He.
    + rewrite IH. apply orb_true_r.
Qed.

Lemma matches_id_nonempty (s : string) :
  Regex.matches_id s = true -> truthy (VStr s) = true.
Proof. destruct s; [discriminate | reflexivity]. Qed.

(** ** Resolution of an identity *)

Section Resolution.
Context `{SpotifyRequestHandler}.

Lemma searches_app (w w' : world) :
  searches (w ++ w') = (searches w + searches w')%nat.
Proof. unfold searches. now rewrite filter_app, length_app. Qed.

Lemma album_cached_resolves (a : Album.t) (w : world) :
  Album.cached a = true ->
  exists v, Album.searchForAlbum a w = (Resolved (Cached v), a, w).
Proof.
  unfold Album.cached, Album.searchForAlbum. intros Hc.
  destruct (truthy (Album.searchResponse a)); [eauto|].
  destruct (truthy (Album.albumResponse a)); [eauto|].
  destruct (truthy (Album.id a)); [eauto | discriminate].
Qed.

Lemma album_unresolved_searches (a : Album.t) (w : world) :
  Album.cached a = false ->
  Album.searchForAlbum a w =
    match respond w (SearchForAlbum (Album.entry a)) with
    | Resolved result =>
        match Album.search_answered result a with
        | Some a1 => (Resolved Self, a1, w ++ [SearchForAlbum (Album.entry a)])
        | None => (Album.search_failed (Album.set_searchResponse result a),
                   w ++ [SearchForAlbum (Album.entry a)])
        end
    | Rejected _ => (Album.search_failed a, w ++ [SearchForAlbum (Album.entry a)])
    end.
Proof.
  unfold Album.cached, Album.searchForAlbum, call. intros Hc.
  apply orb_false_elim in Hc as [Hc Hid].
  apply orb_false_elim in Hc as [Hs Ha].
  now rewrite Hs, Ha, Hid.
Qed.

Lemma artist_cached_resolves (a : Artist.t) (w : world) :
  Artist.cached a = true ->
  exists v, Artist.searchForArtist a w = (Resolved (Cached v), a, w).
Proof.
  unfold Artist.cached, Artist.searchForArtist. intros Hc.
  destruct (truthy (Artist.searchResponse a)); [eauto|].
  destruct (truthy (Artist.artistResponse a)); [eauto|].
  destruct (truthy (Artist.id a)); [eauto | discriminate].
Qed.

Lemma artist_unresolved_searches (a : Artist.t) (w : world) :
  Artist.cached a = false ->
  Artist.searchForArtist a w =
    match respond w (SearchForArtist (Artist.entry a)) with
    | Resolved result =>
        match Artist.search_answered result a with
        | Some a1 => (Resolved Self, a1, w ++ [SearchForArtist (Artist.entry a)])
        | None => (Artist.search_failed (Artist.set_searchResponse result a),
                   w ++ [SearchForArtist (Artist.entry a)])
        end
    | Rejected _ => (Artist.search_failed a, w ++ [SearchForArtist (Artist.entry a)])
    end.
Proof.
  unfold Artist.cached, Artist.searchForArtist, call. intros Hc.
  apply orb_false_elim in Hc as [Hc Hid].
  apply orb_false_elim in Hc as [Hs Ha].
  now rewrite Hs, Ha, Hid.
Qed.


End Resolution.



(** ** Memoization *)

Section Memoization.
Context `{SpotifyRequestHandler}.

Lemma album_answer_stored (result : value) (a a1 : Album.t) :
  Album.search_answered result a = Some a1 -> Album.searchResponse a1 = result.
Proof.
  unfold Album.search_answered. intros Hans.
  destruct (all_truthy _ _) as [[|]|]; try discriminate.
  - destruct (path _ _); [|discriminate]. now inversion Hans.
  - now inversion Hans.
Qed.

Lemma artist_answer_stored (result : value) (a a1 : Artist.t) :
  Artist.search_answered result a = Some a1 -> Artist.searchResponse a1 = result.
Proof.
  unfold Artist.search_answered. intros Hans.
  destruct (all_truthy _ _) as [[|]|]; try discriminate.
  - destruct (path _ _); [|discriminate]. now inversion Hans.
  - now inversion Hans.
Qed.

(** A search that resolves leaves a response or an id behind. *)
Lemma album_resolved_cached (a a1 : Album.t) (w w1 : world) (r1 : outcome resolution) :
  Album.cached a = false ->
  (forall x, respond w (SearchForAlbum (Album.entry a)) = Resolved x ->
             truthy x = true) ->
  Album.searchForAlbum a w = (r1, a1, w1) ->
  is_resolved r1 = true ->
  Album.cached a1 = true /\ w1 = w ++ [SearchForAlbum (Album.entry a)].
Proof.
  intros Hc Hans Hrun Hres.
  rewrite (album_unresolved_searches _ _ Hc) in Hrun.
  destruct (respond w _) as [result|e] eqn:Hr.
  - specialize (Hans result eq_refl).
    destruct (Album.search_answered result a) as [a'|] eqn:Ha.
    + inversion Hrun; subst. split; [|reflexivity].
      unfold Album.cached. now rewrite (album_answer_stored _ _ _ Ha), Hans.
    + unfold Album.search_failed in Hrun.
      destruct (Regex.matches_id _); inversion Hrun; subst; [|discriminate].
      split; [|reflexivity]. unfold Album.cached. simpl. now rewrite Hans.
  - unfold Album.search_failed in Hrun.
    destruct (Regex.matches_id _) eqn:Hm; inversion Hrun; subst; [|discriminate].
    split; [|reflexivity]. unfold Album.cached.
    replace (truthy (Album.id _)) with true; [apply orb_true_r|].
    symmetry. exact (matches_id_nonempty _ Hm).
Qed.

Lemma artist_resolved_cached (a a1 : Artist.t) (w w1 : world) (r1 : outcome resolution) :
  Artist.cached a = false ->
  (forall x, respond w (SearchForArtist (Artist.entry a)) = Resolved x ->
             truthy x = true) ->
  Artist.searchForArtist a w = (r1, a1, w1) ->
  is_resolved r1 = true ->
  Artist.cached a1 = true /\ w1 = w ++ [SearchForArtist (Artist.entry a)].
Proof.
  intros Hc Hans Hrun Hres.
  rewrite (artist_unresolved_searches _ _ Hc) in Hrun.
  destruct (respond w _) as [result|e] eqn:Hr.
  - specialize (Hans result eq_refl).
    destruct (Artist.search_answered result a) as [a'|] eqn:Ha.
    + inversion Hrun; subst. split; [|reflexivity].
      unfold Artist.cached. now rewrite (artist_answer_stored _ _ _ Ha), Hans.
    + unfold Artist.search_failed in Hrun.
      destruct (Regex.matches_id _); inversion Hrun; subst; [|discriminate].
      split; [|reflexivity]. unfold Artist.cached. simpl. now rewrite Hans.
  - unfold Artist.search_failed in Hrun.
    destruct (Regex.matches_id _) eqn:Hm; inversion Hrun; subst; [|discriminate].
    split; [|reflexivity]. unfold Artist.cached.
    replace (truthy (Artist.id _)) with true; [apply orb_true_r|].
    symmetry. exact (matches_id_nonempty _ Hm).
Qed.

Lemma album_twice (a a1 a2 : Album.t) (w w1 w2 : world)
  (r1 r2 : outcome resolution) :
  (forall x, respond w (SearchForAlbum (Album.entry a)) = Resolved x ->
             truthy x = true) ->
  Album.searchForAlbum a w = (r1, a1, w1) ->
  Album.searchForAlbum a1 w1 = (r2, a2, w2) ->
  is_resolved r1 = true ->
  (searches w2 <= searches w + 1)%nat /\ w2 = w1 /\ a2 = a1 /\
  is_resolved r2 = true /\ (Album.cached a = true -> w2 = w /\ a2 = a).
Proof.
  intros Hans H1 H2 Hres.
  destruct (Album.cached a) eqn:Hc.
  - destruct (album_cached_resolves a w Hc) as [v Hv].
    rewrite Hv in H1. inversion H1; subst.
    rewrite Hv in H2. inversion H2; subst.
    repeat split; auto. lia.
  - destruct (album_resolved_cached _ _ _ _ _ Hc Hans H1 Hres) as [Hc1 Hw1].
    destruct (album_cached_resolves a1 w1 Hc1) as [v Hv].
    rewrite Hv in H2. inversion H2; subst.
    repeat split; try discriminate.
    rewrite searches_app. unfold searches at 2. simpl. lia.
Qed.

Lemma artist_twice (a a1 a2 : Artist.t) (w w1 w2 : world)
  (r1 r2 : outcome resolution) :
  (forall x, respond w (SearchForArtist (Artist.entry a)) = Resolved x ->
             truthy x = true) ->
  Artist.searchForArtist a w = (r1, a1, w1) ->
  Artist.searchForArtist a1 w1 = (r2, a2, w2) ->
  is_resolved r1 = true ->
  (searches w2 <= searches w + 1)%nat /\ w2 = w1 /\ a2 = a1 /\
  is_resolved r2 = true /\ (Artist.cached a = true -> w2 = w /\ a2 = a).
Proof.
  intros Hans H1 H2 Hres.
  destruct (Artist.cached a) eqn:Hc.
  - destruct (artist_cached_resolves a w Hc) as [v Hv].
    rewrite Hv in H1. inversion H1; subst.
    rewrite Hv in H2. inversion H2; subst.
    repeat split; auto. lia.
  - destruct (artist_resolved_cached _ _ _ _ _ Hc Hans H1 Hres) as [Hc1 Hw1].
    destruct (artist_cached_resolves a1 w1 Hc1) as [v Hv].
    rewrite Hv in H2. inversion H2; subst.
    repeat split; try discriminate.
    rewrite searches_app. unfold searches at 2. simpl. lia.
Qed.

(** Without an id or a response a call issues one search, whatever
    becomes of it. *)
Lemma album_unresolved_log (a : Album.t) (w : world) :
  Album.cached a = false ->
  snd (Album.searchForAlbum a w) = w ++ [SearchForAlbum (Album.entry a)].
Proof.
  intros Hc. rewrite (album_unresolved_searches _ _ Hc).
  destruct (respond w _); [|reflexivity].
  now destruct (Album.search_answered _ _).
Qed.

Lemma artist_unresolved_log (a : Artist.t) (w : world) :
  Artist.cached a = false ->
  snd (Artist.searchForArtist a w) = w ++ [SearchForArtist (Artist.entry a)].
Proof.
  intros Hc. rewrite (artist_unresolved_searches _ _ Hc).
  destruct (respond w _); [|reflexivity].
  now destruct (Artist.search_answered _ _).
Qed.

(** C2, as amended: when the first of two calls of [searchForAlbum] or
    [searchForArtist] on an entry resolves (the catalog answering a
    search, if it does, with a response that is not empty), the two
    calls issue at most one catalog search: the second call issues none,
    resolves, and leaves the entry, hence its id, as the first call left
    it; an entry that holds an id or a response is resolved without any
    search.  When the search of an entry without id or response is
    itself rejected and the reference does not match the fallback
    pattern, the first call is rejected with [null] and leaves the entry
    as it was, and the second call issues a second search. *)
Theorem C2_resolved_identity_is_memoized :
  (forall (album : Album.t) (w : world),
     (forall x, respond w (SearchForAlbum (Album.entry album)) = Resolved x ->
                truthy x = true) ->
     is_resolved (fst (fst (Album.searchForAlbum album w))) = true ->
     let '(r1, a1, w1) := Album.searchForAlbum album w in
     let '(r2, a2, w2) := Album.searchForAlbum a1 w1 in
     (searches w2 <= searches w + 1)%nat /\ w2 = w1 /\
     Album.id a2 = Album.id a1 /\ a2 = a1 /\ is_resolved r2 = true /\
     (Album.cached album = true -> w2 = w /\ a2 = album))
  /\
  (forall (artist : Artist.t) (w : world),
     (forall x, respond w (SearchForArtist (Artist.entry artist)) = Resolved x ->
                truthy x = true) ->
     is_resolved (fst (fst (Artist.searchForArtist artist w))) = true ->
     let '(s1, b1, v1) := Artist.searchForArtist artist w in
     let '(s2, b2, v2) := Artist.searchForArtist b1 v1 in
     (searches v2 <= searches w + 1)%nat /\ v2 = v1 /\
     Artist.id b2 = Artist.id b1 /\ b2 = b1 /\ is_resolved s2 = true /\
     (Artist.cached artist = true -> v2 = w /\ b2 = artist))
  /\
  (forall (album : Album.t) (w : world) (r : reason),
     Album.cached album = false ->
     respond w (SearchForAlbum (Album.entry album)) = Rejected r ->
     Regex.matches_id (Album.entry album) = false ->
     let '(r1, a1, w1) := Album.searchForAlbum album w in
     let '(r2, a2, w2) := Album.searchForAlbum a1 w1 in
     r1 = Rejected (Reason VNull) /\ a1 = album /\
     w2 = w ++ [SearchForAlbum (Album.entry album);
                SearchForAlbum (Album.entry album)] /\
     searches w2 = (searches w + 2)%nat)
  /\
  (forall (artist : Artist.t) (w : world) (r : reason),
     Artist.cached artist = false ->
     respond w (SearchForArtist (Artist.entry artist)) = Rejected r ->
     Regex.matches_id (Artist.entry artist) = false ->
     let '(s1, b1, v1) := Artist.searchForArtist artist w in
     let '(s2, b2, v2) := Artist.searchForArtist b1 v1 in
     s1 = Rejected (Reason VNull) /\ b1 = artist /\
     v2 = w ++ [SearchForArtist (Artist.entry artist);
                SearchForArtist (Artist.entry artist)] /\
     searches v2 = (searches w + 2)%nat).
Proof.
  split; [|split; [|split]].
  - intros album w Hans.
    destruct (Album.searchForAlbum album w) as [[r1 a1] w1] eqn:E1.
    simpl. intros Hr.
    destruct (Album.searchForAlbum a1 w1) as [[r2 a2] w2] eqn:E2.
    destruct (album_twice _ _ _ _ _ _ _ _ Hans E1 E2 Hr) as (? & ? & ? & ? & ?).
    subst a2. repeat split; tauto.
  - intros artist w Hans.
    destruct (Artist.searchForArtist artist w) as [[s1 b1] v1] eqn:F1.
    simpl. intros Hs.
    destruct (Artist.searchForArtist b1 v1) as [[s2 b2] v2] eqn:F2.
    destruct (artist_twice _ _ _ _ _ _ _ _ Hans F1 F2 Hs) as (? & ? & ? & ? & ?).
    subst b2. repeat split; tauto.
  - intros album w r Hc Hr Hm.
    rewrite (album_unresolved_searches _ _ Hc), Hr.
    unfold Album.search_failed. rewrite Hm.
    pose proof (album_unresolved_log album
                  (w ++ [SearchForAlbum (Album.entry album)]) Hc) as Hlog.
    destruct (Album.searchForAlbum album _) as [[r2 a2] w2].
    simpl in Hlog. subst w2. rewrite <- app_assoc. simpl.
    repeat split. rewrite searches_app. reflexivity.
  - intros artist w r Hc Hr Hm.
    rewrite (artist_unresolved_searches _ _ Hc), Hr.
    unfold Artist.search_failed. rewrite Hm.
    pose proof (artist_unresolved_log artist
                  (w ++ [SearchForArtist (Artist.entry artist)]) Hc) as Hlog.
    destruct (Artist.searchForArtist artist _) as [[s2 b2] v2].
    simpl in Hlog. subst v2. rewrite <- app_assoc. simpl.
    repeat split. rewrite searches_app. reflexivity.
Qed.

End Memoization.

Lemma C2_resolved_identity_is_memoized_witness :
  (let '(r1, a1, w1) := Album.searchForAlbum (H := Demo.catalog) Demo.album_by_id [] in
   let '(r2, a2, w2) := Album.searchForAlbum (H := Demo.catalog) a1 w1 in
   (searches w2 <= searches [] + 1)%nat /\ w2 = w1 /\
   Album.id a2 = Album.id a1 /\ a2 = a1 /\ is_resolved r2 = true /\
   (Album.cached Demo.album_by_id = true -> w2 = [] /\ a2 = Demo.album_by_id))
  /\
  (let '(s1, b1, v1) := Artist.searchForArtist (H := Demo.catalog) Demo.artist_low [] in
   let '(s2, b2, v2) := Artist.searchForArtist (H := Demo.catalog) b1 v1 in
   (searches v2 <= searches [] + 1)%nat /\ v2 = v1 /\
   Artist.id b2 = Artist.id b1 /\ b2 = b1 /\ is_resolved s2 = true /\
   (Artist.cached Demo.artist_low = true -> v2 = [] /\ b2 = Demo.artist_low))
  /\
  (let '(s1, b1, v1) := Artist.searchForArtist (H := Demo.offline) Demo.artist_rem [] in
   let '(s2, b2, v2) := Artist.searchForArtist (H := Demo.offline) b1 v1 in
   s1 = Rejected (Reason VNull) /\ b1 = Demo.artist_rem /\
   v2 = [] ++ [SearchForArtist "R.E.M."; SearchForArtist "R.E.M."] /\
   searches v2 = (searches [] + 2)%nat).
Proof.
  split; [|split].
  - refine (proj1 (C2_resolved_identity_is_memoized (H := Demo.catalog))
              Demo.album_by_id [] _ eq_refl).
    intros x Hx. simpl in Hx. discriminate Hx.
  - refine (proj1 (proj2 (C2_resolved_identity_is_memoized (H := Demo.catalog)))
              Demo.artist_low [] _ eq_refl).
    intros x Hx. simpl in Hx. now inversion Hx.
  - exact (proj2 (proj2 (proj2
             (C2_resolved_identity_is_memoized (H := Demo.offline))))
             Demo.artist_rem [] _ eq_refl eq_refl eq_refl).
Defined.

(** The claim as it stands fails: a first call that is rejected caches
    nothing, and the second call searches again. *)
Lemma C2_counterexample :
  let '(r1, a1, w1) := Album.searchForAlbum (H := Demo.offline) Demo.album_rem [] in
  let '(r2, a2, w2) := Album.searchForAlbum (H := Demo.offline) a1 w1 in
  w2 = [SearchForAlbum "R.E.M."; SearchForAlbum "R.E.M."] /\
  searches w2 = 2%nat /\ ~ (searches w2 <= 1)%nat.
Proof.
  vm_compute. repeat split. intros Hle. inversion Hle. inversion H0.
Qed.

(** ** The id of an entry *)

Section Identity.
Context `{SpotifyRequestHandler} `{TrackEntry} `{AlbumOrder}.

Lemma album_id_cached (a : Album.t) :
  truthy (Album.id a) = true -> Album.cached a = true.
Proof. unfold Album.cached. intros ->. apply orb_true_r. Qed.

Lemma artist_id_cached (a : Artist.t) :
  truthy (Artist.id a) = true -> Artist.cached a = true.
Proof. unfold Artist.cached. intros ->. apply orb_true_r. Qed.

Lemma album_fetch_keeps_id (a : Album.t) (w : world) :
  Album.id (snd (fst (Album.fetchAlbum a w))) = Album.id a.
Proof.
  unfold Album.fetchAlbum, call. now destruct (respond w _).
Qed.

Lemma artist_fetch_keeps_id (a : Artist.t) (w : world) :
  Artist.id (snd (fst (Artist.fetchAlbums a w))) = Artist.id a.
Proof.
  unfold Artist.fetchAlbums, call. now destruct (respond w _).
Qed.

Lemma album_dispatch_keeps_id (a : Album.t) (w : world) :
  Album.cached a = true ->
  Album.id (snd (fst (Album.dispatch a w))) = Album.id a.
Proof.
  intros Hc. unfold Album.dispatch.
  destruct (album_cached_resolves a w Hc) as [v ->].
  destruct (Album.fetchTracks a); [|reflexivity].
  pose proof (album_fetch_keeps_id a w) as Hf.
  destruct (Album.fetchAlbum a w) as [[[x|e] a2] w2]; simpl in Hf; [|exact Hf].
  now destruct (Album.createQueue a2).
Qed.

Lemma artist_dispatch_keeps_id (a : Artist.t) (w : world) :
  Artist.cached a = true ->
  Artist.id (snd (fst (Artist.dispatch a w))) = Artist.id a.
Proof.
  intros Hc. unfold Artist.dispatch.
  destruct (artist_cached_resolves a w Hc) as [v ->].
  pose proof (artist_fetch_keeps_id a w) as Hf.
  destruct (Artist.fetchAlbums a w) as [[[x|e] a2] w2]; simpl in Hf; [|exact Hf].
  now destruct (Artist.createQueue a2 w2).
Qed.

(** Where [Artist.setResponse] takes the id from. *)
Lemma artist_setResponse_id (response : value) (a a' : Artist.t) :
  Artist.setResponse response a = Some a' ->
  Artist.id a' = Artist.id a
  \/ Some (Artist.id a') = path response [P "artists"; P "items"; Idx0; P "id"]
  \/ Some (Artist.id a') = path response [P "id"].
Proof.
  unfold Artist.setResponse. intros Hset.
  destruct (all_truthy response [_; _; _; _]) as [[|]|]; try discriminate.
  - destruct (path response [P "artists"; _; _; _]) eqn:Hp; [|discriminate].
    inversion Hset; subst. right; left. reflexivity.
  - destruct (all_truthy response [_; _]) as [[|]|]; try discriminate.
    + destruct (path response [P "id"]) eqn:Hp; [|discriminate].
      inversion Hset; subst. right; right. reflexivity.
    + destruct (all_truthy response [_; _]) as [[|]|]; try discriminate;
        inversion Hset; subst; left; reflexivity.
Qed.

(** C3, as amended: the id of an album or artist entry, once set to a
    value that is not empty, is left as it is by [searchForAlbum] and
    [searchForArtist], by [fetchAlbum] and [fetchAlbums] and by
    [dispatch]; [Artist.setResponse] is the operation that assigns it
    anew, from the first hit or the id of the response it is given. *)
Theorem C3_known_id_is_kept
  (album : Album.t) (artist : Artist.t) (w : world) :
  truthy (Album.id album) = true ->
  truthy (Artist.id artist) = true ->
  Album.id (snd (fst (Album.searchForAlbum album w))) = Album.id album
  /\ snd (Album.searchForAlbum album w) = w
  /\ Album.id (snd (fst (Album.fetchAlbum album w))) = Album.id album
  /\ Album.id (snd (fst (Album.dispatch album w))) = Album.id album
  /\ Artist.id (snd (fst (Artist.searchForArtist artist w))) = Artist.id artist
  /\ snd (Artist.searchForArtist artist w) = w
  /\ Artist.id (snd (fst (Artist.fetchAlbums artist w))) = Artist.id artist
  /\ Artist.id (snd (fst (Artist.dispatch artist w))) = Artist.id artist
  /\ (forall response artist',
        Artist.setResponse response artist = Some artist' ->
        Artist.id artist' = Artist.id artist
        \/ Some (Artist.id artist')
           = path response [P "artists"; P "items"; Idx0; P "id"]
        \/ Some (Artist.id artist') = path response [P "id"]).
Proof.
  intros Halbum Hartist.
  pose proof (album_id_cached _ Halbum) as Hca.
  pose proof (artist_id_cached _ Hartist) as Hcb.
  destruct (album_cached_resolves album w Hca) as [v Hv].
  destruct (artist_cached_resolves artist w Hcb) as [v' Hv'].
  repeat split.
  - now rewrite Hv.
  - now rewrite Hv.
  - apply album_fetch_keeps_id.
  - now apply album_dispatch_keeps_id.
  - now rewrite Hv'.
  - now rewrite Hv'.
  - apply artist_fetch_keeps_id.
  - now apply artist_dispatch_keeps_id.
  - intros response artist'. apply artist_setResponse_id.
Qed.

End Identity.

Lemma C3_known_id_is_kept_witness :
  Album.id (snd (fst (Album.dispatch (H := Demo.catalog) (H0 := Demo.SimpleTrack)
                        Demo.album_known []))) = VStr "album1"
  /\ Artist.id (snd (fst (Artist.dispatch (H := Demo.catalog)
                            (H0 := Demo.SimpleTrack) (H1 := Demo.by_popularity)
                            Demo.artist_known []))) = VStr "artist1".
Proof.
  pose proof (C3_known_id_is_kept (H := Demo.catalog) (H0 := Demo.SimpleTrack)
                (H1 := Demo.by_popularity) Demo.album_known Demo.artist_known []
                eq_refl eq_refl)
    as (_ & _ & _ & Halbum & _ & _ & _ & Hartist & _).
  exact (conj Halbum Hartist).
Defined.

(** The claim as it stands fails: [setResponse] assigns the id of the
    response it is given, whatever the id of the entry was. *)
Lemma C3_counterexample :
  truthy (Artist.id Demo.artist_known) = true
  /\ exists artist',
       Artist.setResponse (VObj [("id", VStr "artist2")]) Demo.artist_known
         = Some artist'
       /\ Artist.id artist' = VStr "artist2"
       /\ Artist.id artist' <> Artist.id Demo.artist_known.
Proof.
  split; [reflexivity|]. eexists. split; [reflexivity|].
  split; [reflexivity | discriminate].
Qed.

(** ** Failures *)

Section Failures.
Context `{SpotifyRequestHandler} `{TrackEntry} `{AlbumOrder}.

Lemma album_search_rejected (a : Album.t) (w : world) (r : reason) :
  Album.cached a = false ->
  respond w (SearchForAlbum (Album.entry a)) = Rejected r ->
  Regex.matches_id (Album.entry a) = false ->
  Album.searchForAlbum a w =
    (Rejected (Reason VNull), a, w ++ [SearchForAlbum (Album.entry a)]).
Proof.
  intros Hc Hr Hm. rewrite (album_unresolved_searches _ _ Hc), Hr.
  unfold Album.search_failed. now rewrite Hm.
Qed.

Lemma artist_search_rejected (a : Artist.t) (w : world) (r : reason) :
  Artist.cached a = false ->
  respond w (SearchForArtist (Artist.entry a)) = Rejected r ->
  Regex.matches_id (Artist.entry a) = false ->
  Artist.searchForArtist a w =
    (Rejected (Reason VNull), a, w ++ [SearchForArtist (Artist.entry a)]).
Proof.
  intros Hc Hr Hm. rewrite (artist_unresolved_searches _ _ Hc), Hr.
  unfold Artist.search_failed. now rewrite Hm.
Qed.

(** C4, as amended: a catalog search that fails on an entry whose
    reference does not match the identifier pattern is not swallowed:
    [searchForAlbum], [searchForArtist] and [dispatch] are rejected and
    the entry is left as it was; the rejection value is [null], which
    carries no string.  A fetch that fails, on any entry, is rejected
    with the value the catalog client rejected it with and leaves the
    entry as it was, and [dispatch] of an entry that holds an id or a
    response passes that rejection on. *)
Theorem C4_failures_are_rejections :
  (forall (album : Album.t) (w : world) (r : reason),
     Album.cached album = false ->
     respond w (SearchForAlbum (Album.entry album)) = Rejected r ->
     Regex.matches_id (Album.entry album) = false ->
     Album.searchForAlbum album w =
       (Rejected (Reason VNull), album, w ++ [SearchForAlbum (Album.entry album)])
     /\ Album.dispatch album w =
       (Rejected (Reason VNull), album, w ++ [SearchForAlbum (Album.entry album)]))
  /\
  (forall (artist : Artist.t) (w : world) (r : reason),
     Artist.cached artist = false ->
     respond w (SearchForArtist (Artist.entry artist)) = Rejected r ->
     Regex.matches_id (Artist.entry artist) = false ->
     Artist.searchForArtist artist w =
       (Rejected (Reason VNull), artist, w ++ [SearchForArtist (Artist.entry artist)])
     /\ Artist.dispatch artist w =
       (Rejected (Reason VNull), artist, w ++ [SearchForArtist (Artist.entry artist)]))
  /\
  (forall s : string, carries (Reason VNull) s = false)
  /\
  (forall (album : Album.t) (w : world) (e : reason),
     respond w (GetAlbum (Album.id album)) = Rejected e ->
     Album.fetchAlbum album w =
       (Rejected e, album, w ++ [GetAlbum (Album.id album)]))
  /\
  (forall (artist : Artist.t) (w : world) (e : reason),
     respond w (GetAlbumsByArtist (Artist.id artist)) = Rejected e ->
     Artist.fetchAlbums artist w =
       (Rejected e, artist, w ++ [GetAlbumsByArtist (Artist.id artist)]))
  /\
  (forall (album : Album.t) (w : world) (e : reason),
     Album.cached album = true ->
     Album.fetchTracks album = true ->
     respond w (GetAlbum (Album.id album)) = Rejected e ->
     Album.dispatch album w =
       (Rejected e, album, w ++ [GetAlbum (Album.id album)]))
  /\
  (forall (artist : Artist.t) (w : world) (e : reason),
     Artist.cached artist = true ->
     respond w (GetAlbumsByArtist (Artist.id artist)) = Rejected e ->
     Artist.dispatch artist w =
       (Rejected e, artist, w ++ [GetAlbumsByArtist (Artist.id artist)])).
Proof.
  repeat apply conj.
  - intros album w r Hc Hr Hm.
    pose proof (album_search_rejected _ _ _ Hc Hr Hm) as Ha.
    split; [exact Ha|].
    unfold Album.dispatch. rewrite Ha. now destruct (Album.fetchTracks album).
  - intros artist w r Hc Hr Hm.
    pose proof (artist_search_rejected _ _ _ Hc Hr Hm) as Hb.
    split; [exact Hb|].
    unfold Artist.dispatch. now rewrite Hb.
  - reflexivity.
  - intros album w e He. unfold Album.fetchAlbum, call. now rewrite He.
  - intros artist w e He. unfold Artist.fetchAlbums, call. now rewrite He.
  - intros album w e Hc Hf He.
    destruct (album_cached_resolves album w Hc) as [v Hv].
    unfold Album.dispatch. rewrite Hf, Hv.
    unfold Album.fetchAlbum, call. now rewrite He.
  - intros artist w e Hc He.
    destruct (artist_cached_resolves artist w Hc) as [v Hv].
    unfold Artist.dispatch. rewrite Hv.
    unfold Artist.fetchAlbums, call. now rewrite He.
Qed.

End Failures.

Lemma C4_failures_are_rejections_witness :
  Album.dispatch (H := Demo.offline) (H0 := Demo.SimpleTrack) Demo.album_rem [] =
    (Rejected (Reason VNull), Demo.album_rem, [SearchForAlbum "R.E.M."])
  /\ Artist.dispatch (H := Demo.offline) (H0 := Demo.SimpleTrack)
       (H1 := Demo.by_popularity) Demo.artist_rem [] =
    (Rejected (Reason VNull), Demo.artist_rem, [SearchForArtist "R.E.M."])
  /\ Album.dispatch (H := Demo.offline) (H0 := Demo.SimpleTrack) Demo.album_known [] =
    (Rejected (Reason (VStr "ECONNREFUSED")), Demo.album_known,
     [GetAlbum (VStr "album1")])
  /\ Artist.dispatch (H := Demo.offline) (H0 := Demo.SimpleTrack)
       (H1 := Demo.by_popularity) Demo.artist_known [] =
    (Rejected (Reason (VStr "ECONNREFUSED")), Demo.artist_known,
     [GetAlbumsByArtist (VStr "artist1")]).
Proof.
  pose proof (C4_failures_are_rejections (H := Demo.offline)
                (H0 := Demo.SimpleTrack) (H1 := Demo.by_popularity))
    as (Halbum & Hartist & _ & _ & _ & Hfetch & Hfetches).
  repeat apply conj.
  - exact (proj2 (Halbum Demo.album_rem [] _ eq_refl eq_refl eq_refl)).
  - exact (proj2 (Hartist Demo.artist_rem [] _ eq_refl eq_refl eq_refl)).
  - exact (Hfetch Demo.album_known [] _ eq_refl eq_refl eq_refl).
  - exact (Hfetches Demo.artist_known [] _ eq_refl eq_refl).
Defined.

(** The claim as it stands fails: the rejection of a failed search does
    not carry the reference of the entry. *)
Lemma C4_counterexample :
  exists r a w,
    Album.searchForAlbum (H := Demo.offline) Demo.album_rem [] = (Rejected r, a, w)
    /\ carries r (Album.entry Demo.album_rem) = false.
Proof.
  exists (Reason VNull), Demo.album_rem, [SearchForAlbum "R.E.M."].
  split; reflexivity.
Qed.

(** ** The limit of an album *)

Lemma slice_from_0 {A : Type} (k : Z) (l : list A) :
  0 <= k -> JS.slice 0 k l = firstn (Z.to_nat k) l.
Proof.
  intros Hk. unfold JS.slice.
  replace (0 <? 0) with false by reflexivity.
  replace (k <? 0) with false by (symmetry; apply Z.ltb_ge; exact Hk).
  rewrite (Z.min_l 0) by lia. rewrite Z.sub_0_r. simpl skipn.
  destruct (Z.le_gt_cases k (Z.of_nat (List.length l))) as [Hle | Hgt].
  - now rewrite Z.min_l by lia.
  - rewrite Z.min_r by lia. rewrite Nat2Z.id.
    rewrite firstn_all. symmetry. apply firstn_all2. lia.
Qed.

Lemma map_throwing_Forall2 {A B : Type} (f : A -> option B) (l : list A) :
  forall l', map_throwing f l = Some l' ->
             Forall2 (fun x y => f x = Some y) l l'.
Proof.
  induction l as [|x l IH]; simpl; intros l' Hmap.
  - inversion Hmap. constructor.
  - destruct (f x) as [y|] eqn:Hx; [|discriminate].
    destruct (map_throwing f l) as [ys|]; [|discriminate].
    inversion Hmap. constructor; [exact Hx | now apply IH].
Qed.

Section Limit.
Context `{SpotifyRequestHandler} `{TrackEntry}.

(** A limit that is set and not zero keeps the first tracks of the
    listing, in their order. *)
Lemma createQueue_limit (a : Album.t) (k : Z) (q : list track) :
  Album.limit a = Some k ->
  0 < k ->
  Album.createQueue a = Some q ->
  Z.of_nat (List.length q) <= k
  /\ exists items listing,
       path (Album.albumResponse a) [P "tracks"; P "items"] = Some (VArr items)
       /\ Forall2 (fun item t => Album.track_of_item a item = Some t) items listing
       /\ q = firstn (Z.to_nat k) listing.
Proof.
  intros Hl Hk. unfold Album.createQueue, Album.limit_truthy. rewrite Hl.
  destruct (path (Album.albumResponse a) [P "tracks"; P "items"])
    as [[| | | | |items|]|]; try discriminate.
  destruct (map_throwing _ items) as [tracks|] eqn:Hmap; [|discriminate].
  replace (k =? 0) with false by (symmetry; apply Z.eqb_neq; lia).
  cbn [negb]. intros Hq. inversion Hq; subst q.
  unfold Queue.slice. rewrite slice_from_0 by lia. split.
  - rewrite length_firstn. lia.
  - exists items, tracks. split; [reflexivity|].
    split; [exact (map_throwing_Forall2 _ _ _ Hmap) | reflexivity].
Qed.

(** A limit of zero is read as no limit. *)
Lemma createQueue_limit_0 (a : Album.t) :
  Album.limit a = Some 0 ->
  Album.createQueue a = Album.createQueue (Album.set_limit None a).
Proof.
  destruct a as [ar e l sr ft i]. simpl Album.limit. intros ->.
  unfold Album.createQueue, Album.limit_truthy, Album.set_limit.
  cbn [Album.albumResponse Album.limit Album.entry Album.searchResponse
       Album.fetchTracks Album.id].
  destruct (path ar [P "tracks"; P "items"]) as [[| | | | |items|]|];
    reflexivity.
Qed.

Lemma album_answer_keeps_limit (result : value) (a a1 : Album.t) :
  Album.search_answered result a = Some a1 -> Album.limit a1 = Album.limit a.
Proof.
  unfold Album.search_answered. intros Hans.
  destruct (all_truthy _ _) as [[|]|]; try discriminate.
  - destruct (path _ _); [|discriminate]. now inversion Hans.
  - now inversion Hans.
Qed.

Lemma album_search_keeps_limit (a : Album.t) (w : world) :
  Album.limit (snd (fst (Album.searchForAlbum a w))) = Album.limit a.
Proof.
  unfold Album.searchForAlbum, call.
  destruct (truthy (Album.searchResponse a)); [reflexivity|].
  destruct (truthy (Album.albumResponse a)); [reflexivity|].
  destruct (truthy (Album.id a)); [reflexivity|].
  destruct (respond w _) as [result|e].
  - destruct (Album.search_answered result a) as [a1|] eqn:Ha.
    + exact (album_answer_keeps_limit _ _ _ Ha).
    + unfold Album.search_failed. now destruct (Regex.matches_id _).
  - unfold Album.search_failed. now destruct (Regex.matches_id _).
Qed.

Lemma album_fetch_keeps_limit (a : Album.t) (w : world) :
  Album.limit (snd (fst (Album.fetchAlbum a w))) = Album.limit a.
Proof.
  unfold Album.fetchAlbum, call. now destruct (respond w _).
Qed.

(** A limit set to an integer [k >= 1] is enforced: the queue of tracks
    that [createQueue], hence [dispatch], produces has at most [k]
    elements: they are the first tracks of the listing of the album, in
    the order of the listing. *)
Lemma album_positive_limit_truncates
  (a a' : Album.t) (w w' : world) (k : Z) (q : list track) :
  Album.limit a = Some k ->
  0 < k ->
  Album.createQueue a = Some q /\ a' = a
  \/ Album.dispatch a w = (Resolved (Album.Tracks q), a', w') ->
  Z.of_nat (List.length q) <= k
  /\ exists items listing,
       path (Album.albumResponse a') [P "tracks"; P "items"] = Some (VArr items)
       /\ Forall2 (fun item t => Album.track_of_item a' item = Some t) items listing
       /\ q = firstn (Z.to_nat k) listing.
Proof.
  intros Hl Hk [[Hq ->] | Hrun].
  - exact (createQueue_limit _ _ _ Hl Hk Hq).
  - unfold Album.dispatch in Hrun.
    pose proof (album_search_keeps_limit a w) as Hl1.
    destruct (Album.fetchTracks a).
    + destruct (Album.searchForAlbum a w) as [[[x|e] a1] w1]; [|discriminate].
      pose proof (album_fetch_keeps_limit a1 w1) as Hl2.
      destruct (Album.fetchAlbum a1 w1) as [[[y|e] a2] w2]; [|discriminate].
      destruct (Album.createQueue a2) as [q2|] eqn:Hq; [|discriminate].
      inversion Hrun; subst. simpl in Hl1, Hl2.
      apply (createQueue_limit _ _ _ (eq_trans Hl2 (eq_trans Hl1 Hl)) Hk Hq).
    + destruct (Album.searchForAlbum a w) as [[[x|e] a1] w1]; discriminate.
Qed.

End Limit.

Lemma album_positive_limit_truncates_example :
  exists q a' w',
    Album.dispatch (H := Demo.catalog) (H0 := Demo.SimpleTrack)
      (Album.set_id (VStr "album1") Demo.album_limit_2) []
    = (Resolved (Album.Tracks q), a', w')
    /\ map (fun t => path (Demo.resolvedMetadata t) [P "name"]) q
       = [Some (VStr "Violence"); Some (VStr "Below & Above")]
    /\ Z.of_nat (List.length q) <= 2.
Proof.
  eexists. eexists. eexists. split; [vm_compute; reflexivity|].
  split; [reflexivity|].
  exact (proj1 (album_positive_limit_truncates (H := Demo.catalog)
                  (H0 := Demo.SimpleTrack)
                  (Album.set_id (VStr "album1") Demo.album_limit_2) _ [] _ 2 _
                  eq_refl eq_refl (or_intror eq_refl))).
Defined.

(** C5: a limit of 0 is not enforced.  [setLimit] stores 0 like any
    other integer, as the maximum amount of tracks, but [createQueue]
    cuts the listing under the test [if (self.limit)] only, which 0
    does not pass.  An album of three tracks whose limit is set to 0
    produces, through [dispatch] and through [createQueue], a queue of
    its three tracks, where the claim allows none; [createQueue] with
    the limit set to 0 is [createQueue] without a limit. *)
Theorem C5_limit_zero_is_not_enforced :
  Album.limit Demo.album_known_limit_0 = Some 0
  /\ Album.fetchTracks Demo.album_known_limit_0 = true
  /\ (exists q a' w',
        Album.dispatch (H := Demo.catalog) (H0 := Demo.SimpleTrack)
          Demo.album_known_limit_0 []
        = (Resolved (Album.Tracks q), a', w')
        /\ map (fun t => path (Demo.resolvedMetadata t) [P "name"]) q
           = [Some (VStr "Violence"); Some (VStr "Below & Above");
              Some (VStr "Shame")]
        /\ ~ (Z.of_nat (List.length q) <= 0))
  /\ (exists q,
        Album.createQueue (H := Demo.SimpleTrack) Demo.album_limit_0 = Some q
        /\ List.length q = 3%nat
        /\ ~ (Z.of_nat (List.length q) <= 0))
  /\ Album.createQueue (H := Demo.SimpleTrack) Demo.album_limit_0
     = Album.createQueue (H := Demo.SimpleTrack)
         (Album.set_limit None Demo.album_limit_0).
Proof.
  split; [reflexivity|]. split; [reflexivity|]. split; [|split].
  - eexists. eexists. eexists. split; [vm_compute; reflexivity|].
    split; [reflexivity|]. simpl. lia.
  - eexists. split; [reflexivity|]. split; [reflexivity|]. simpl. lia.
  - exact (createQueue_limit_0 (H0 := Demo.SimpleTrack) Demo.album_limit_0 eq_refl).
Qed.

(** ** The artist filter *)

Section Filter.
Context `{SpotifyRequestHandler} `{TrackEntry} `{AlbumOrder}.

Lemma artist_answer_keeps_entry (result : value) (a a1 : Artist.t) :
  Artist.search_answered result a = Some a1 -> Artist.entry a1 = Artist.entry a.
Proof.
  unfold Artist.search_answered. intros Hans.
  destruct (all_truthy _ _) as [[|]|]; try discriminate.
  - destruct (path _ _); [|discriminate]. now inversion Hans.
  - now inversion Hans.
Qed.

Lemma artist_search_keeps_entry (a : Artist.t) (w : world) :
  Artist.entry (snd (fst (Artist.searchForArtist a w))) = Artist.entry a.
Proof.
  unfold Artist.searchForArtist, call.
  destruct (truthy (Artist.searchResponse a)); [reflexivity|].
  destruct (truthy (Artist.artistResponse a)); [reflexivity|].
  destruct (truthy (Artist.id a)); [reflexivity|].
  destruct (respond w _) as [result|e].
  - destruct (Artist.search_answered result a) as [a1|] eqn:Ha.
    + exact (artist_answer_keeps_entry _ _ _ Ha).
    + unfold Artist.search_failed. now destruct (Regex.matches_id _).
  - unfold Artist.search_failed. now destruct (Regex.matches_id _).
Qed.

Lemma artist_fetch_keeps_entry (a : Artist.t) (w : world) :
  Artist.entry (snd (fst (Artist.fetchAlbums a w))) = Artist.entry a.
Proof.
  unfold Artist.fetchAlbums, call. now destruct (respond w _).
Qed.

Lemma createQueue_filtered (a : Artist.t) (w w' : world) (q : list track) :
  Artist.createQueue a w = (Resolved q, w') ->
  forall t, In t q -> Track_hasArtist t (Artist.entry a) = true.
Proof.
  unfold Artist.createQueue. intros Hrun t Ht.
  destruct (path _ _) as [[| | | | |items|]|]; try discriminate.
  destruct (map_throwing _ items) as [albums|]; [|discriminate].
  destruct (Queue.forEachPromise _ albums w) as [[fetched|e] w1]; [|discriminate].
  destruct (Queue.forEachPromise _ _ w1) as [[queue|e] w2]; [|discriminate].
  inversion Hrun; subst q. unfold Queue.filter in Ht.
  apply filter_In in Ht. exact (proj2 Ht).
Qed.

(** C8: every track of the queue that [Artist.createQueue], hence
    [Artist.dispatch], resolves to passes [hasArtist] for the reference
    of the artist entry; a track that does not is not in the queue. *)
Theorem C8_artist_queue_is_filtered
  (a a' : Artist.t) (w w' : world) (q : list track) :
  Artist.createQueue a w = (Resolved q, w')
  \/ Artist.dispatch a w = (Resolved q, a', w') ->
  (forall t, In t q -> Track_hasArtist t (Artist.entry a) = true)
  /\ (forall t, Track_hasArtist t (Artist.entry a) = false -> ~ In t q).
Proof.
  intros Hrun.
  assert (Hall : forall t, In t q -> Track_hasArtist t (Artist.entry a) = true).
  { destruct Hrun as [Hrun | Hrun].
    - exact (createQueue_filtered _ _ _ _ Hrun).
    - unfold Artist.dispatch in Hrun.
      pose proof (artist_search_keeps_entry a w) as He1.
      destruct (Artist.searchForArtist a w) as [[[x|e] a1] w1]; [|discriminate].
      pose proof (artist_fetch_keeps_entry a1 w1) as He2.
      destruct (Artist.fetchAlbums a1 w1) as [[[y|e] a2] w2]; [|discriminate].
      destruct (Artist.createQueue a2 w2) as [o w3] eqn:Hq.
      inversion Hrun; subst. simpl in He1, He2. rewrite <- He1, <- He2.
      exact (createQueue_filtered _ _ _ _ Hq). }
  split; [exact Hall|].
  intros t Hno Hin. rewrite (Hall t Hin) in Hno. discriminate.
Qed.

End Filter.

Lemma C8_artist_queue_is_filtered_witness :
  exists q a' w',
    Artist.dispatch (H := Demo.catalog) (H0 := Demo.SimpleTrack)
      (H1 := Demo.by_popularity) Demo.artist_low [] = (Resolved q, a', w')
    /\ map (fun t => path (Demo.resolvedMetadata t) [P "name"]) q
       = [Some (VStr "Violence"); Some (VStr "Shame")]
    /\ (forall t, In t q ->
          Track_hasArtist (TrackEntry := Demo.SimpleTrack) t "Low" = true).
Proof.
  eexists. eexists. eexists. split; [vm_compute; reflexivity|].
  split; [reflexivity|].
  exact (proj1 (C8_artist_queue_is_filtered (H := Demo.catalog)
                  (H0 := Demo.SimpleTrack) (H1 := Demo.by_popularity)
                  Demo.artist_low _ [] _ _ (or_intror eq_refl))).
Defined.

(** ** The crawls *)

Lemma append_assoc (s t u : string) : ((s ++ t) ++ u = s ++ (t ++ u))%string.
Proof. induction s as [|c s IH]; simpl; [reflexivity | now rewrite IH]. Qed.

Lemma prefix_append (s t : string) : String.prefix s (s ++ t) = true.
Proof.
  induction s as [|c s IH]; simpl; [now destruct t|].
  destruct (ascii_dec c c) as [_|Hne]; [exact IH | now elim Hne].
Qed.

Section Crawls.
Context `{WebScraper.Platform}.
Import WebScraper.

(** *** Last.fm: the work queue *)

(** One turn of [getPages]. *)
Lemma lastfm_getPages_step (fuel : nat) (uri nextUri result : string) (count : Z)
  (urls log : list string) (urlParams : list (string * string))
  (data lines : string) (nextUrls : list string) :
  searchParams (absoluteTo nextUri uri) = Some urlParams ->
  http log (absoluteTo nextUri uri) = Resolved data ->
  lastfm_page (absoluteTo nextUri uri) urlParams (parseHTML data) urls
    = Some (lines, nextUrls) ->
  lastfm_getPages (S fuel) uri nextUri result count urls log =
    match nextUrls with
    | first :: rest =>
        lastfm_getPages fuel uri first (result ++ lines)%string 1 rest
          (log ++ [absoluteTo nextUri uri])
    | [] => Some (Resolved (result ++ lines)%string, log ++ [absoluteTo nextUri uri])
    end.
Proof.
  intros Hp Hd Hpage. simpl. rewrite Hp, Hd, Hpage.
  destruct nextUrls as [|first rest]; simpl.
  - now destruct (count =? 1).
  - now rewrite andb_false_r.
Qed.

(** The page budget plays no part. *)
Lemma lastfm_getPages_any_count (fuel : nat) (uri nextUri result : string)
  (count count' : Z) (urls log : list string) :
  lastfm_getPages fuel uri nextUri result count urls log
  = lastfm_getPages fuel uri nextUri result count' urls log.
Proof.
  destruct fuel as [|fuel]; [reflexivity|].
  destruct (searchParams (absoluteTo nextUri uri)) as [urlParams|] eqn:Hp;
    [|simpl; now rewrite Hp].
  destruct (http log (absoluteTo nextUri uri)) as [data|e] eqn:Hd;
    [|simpl; now rewrite Hp, Hd].
  destruct (lastfm_page (absoluteTo nextUri uri) urlParams (parseHTML data) urls)
    as [[lines nextUrls]|] eqn:Hpage; [|simpl; now rewrite Hp, Hd, Hpage].
  now rewrite !(lastfm_getPages_step _ _ _ _ _ _ _ _ _ _ _ Hp Hd Hpage).
Qed.

(** What a resolved turn went through. *)
Lemma lastfm_getPages_resolved (fuel : nat) (uri nextUri result : string)
  (count : Z) (urls log : list string) (buf : string) (log' : list string) :
  lastfm_getPages (S fuel) uri nextUri result count urls log
    = Some (Resolved buf, log') ->
  exists urlParams data lines nextUrls,
    searchParams (absoluteTo nextUri uri) = Some urlParams
    /\ http log (absoluteTo nextUri uri) = Resolved data
    /\ lastfm_page (absoluteTo nextUri uri) urlParams (parseHTML data) urls
       = Some (lines, nextUrls).
Proof.
  intros Hrun. cbn [lastfm_getPages] in Hrun.
  destruct (searchParams (absoluteTo nextUri uri)) as [urlParams|] eqn:Hp;
    [|discriminate].
  destruct (http log (absoluteTo nextUri uri)) as [data|e] eqn:Hd; [|discriminate].
  destruct (lastfm_page (absoluteTo nextUri uri) urlParams (parseHTML data) urls)
    as [[lines nextUrls]|] eqn:Hpage; [|discriminate].
  now exists urlParams, data, lines, nextUrls.
Qed.

Lemma lastfm_getPages_drains (fuel : nat) (uri : string) :
  forall (nextUri result : string) (count : Z) (urls log : list string)
         (buf : string) (log' : list string),
    lastfm_getPages fuel uri nextUri result count urls log
      = Some (Resolved buf, log') ->
    drain uri (nextUri :: urls) result log buf log'.
Proof.
  induction fuel as [|fuel IH]; intros nextUri result count urls log buf log' Hrun;
    [discriminate|].
  destruct (lastfm_getPages_resolved _ _ _ _ _ _ _ _ _ Hrun)
    as (urlParams & data & lines & nextUrls & Hp & Hd & Hpage).
  rewrite (lastfm_getPages_step _ _ _ _ _ _ _ _ _ _ _ Hp Hd Hpage) in Hrun.
  apply (drain_step uri _ _ _ _ _ _ _ _ _ _ Hp Hd Hpage).
  destruct nextUrls as [|first rest].
  - inversion Hrun; subst. apply drain_done.
  - exact (IH _ _ _ _ _ _ _ Hrun).
Qed.

Lemma drain_lastfm_getPages (uri : string) (queue : list string)
  (result : string) (log : list string) (buf : string) (log' : list string) :
  drain uri queue result log buf log' ->
  forall nextUri urls, queue = nextUri :: urls ->
  exists fuel, forall count,
    lastfm_getPages fuel uri nextUri result count urls log
      = Some (Resolved buf, log').
Proof.
  induction 1 as [|u rest result log urlParams data lines nextUrls buf log'
                    Hp Hd Hpage Hrest IH];
    intros nextUri urls Hq; [discriminate|].
  inversion Hq; subst u rest.
  destruct nextUrls as [|first more].
  - inversion Hrest; subst. exists 1%nat. intros count.
    now rewrite (lastfm_getPages_step _ _ _ _ _ _ _ _ _ _ _ Hp Hd Hpage).
  - destruct (IH first more eq_refl) as [fuel Hfuel]. exists (S fuel).
    intros count.
    rewrite (lastfm_getPages_step _ _ _ _ _ _ _ _ _ _ _ Hp Hd Hpage).
    apply Hfuel.
Qed.

(** The work queue only grows at its end. *)
Lemma each_track_appends (artist : string) (nbTracks nbSimilarTracks : option Z)
  (rows : list (string * string)) :
  forall i lines nextUrls,
  exists new,
    snd (each_track artist nbTracks nbSimilarTracks rows i lines nextUrls)
    = nextUrls ++ new.
Proof.
  induction rows as [|[text href] rows IH]; intros i lines nextUrls;
    cbn [each_track].
  - exists []. now rewrite app_nil_r.
  - destruct (reached nbTracks i); [exists []; now rewrite app_nil_r|].
    match goal with
    | |- context [each_track _ _ _ _ ?j ?l ?q] =>
        destruct (IH j l q) as [new Hnew]
    end.
    rewrite Hnew. rewrite <- app_assoc. eauto.
Qed.

Lemma each_similar_appends (urlParams : list (string * string))
  (nbSimilarArtists nbSimilarArtistsTracks : option Z)
  (rows : list (string * string)) :
  forall i nextUrls nextUrls',
    each_similar urlParams nbSimilarArtists nbSimilarArtistsTracks rows i nextUrls
      = Some nextUrls' ->
    exists new, nextUrls' = nextUrls ++ new.
Proof.
  induction rows as [|[text href] rows IH]; intros i nextUrls nextUrls';
    cbn [each_similar].
  - intros Hs. inversion Hs. exists []. now rewrite app_nil_r.
  - destruct (reached nbSimilarArtists i).
    + intros Hs. inversion Hs. exists []. now rewrite app_nil_r.
    + destruct (withSearch _ _) as [nextUrl|]; [|discriminate].
      intros Hs. destruct (IH _ _ _ Hs) as [new Hnew].
      rewrite Hnew. rewrite <- app_assoc. eauto.
Qed.

Lemma lastfm_page_appends (nextUri : string) (urlParams : list (string * string))
  (html : document) (urls : list string) (lines : string) (nextUrls : list string) :
  lastfm_page nextUri urlParams html urls = Some (lines, nextUrls) ->
  exists new, nextUrls = urls ++ new.
Proof.
  unfold lastfm_page.
  destruct (Regex.contains_ci "/+tracks" nextUri).
  - pose proof (each_track_appends (normalize (header_new_title html))
                  (int_param "nb_tracks" urlParams)
                  (int_param "nb_similar_tracks" urlParams)
                  (chartlist_name html) 0 "" urls) as [new Hnew].
    destruct (each_track _ _ _ _ _ _ _) as [lines0 nextUrls0]. simpl in Hnew.
    destruct (int_param "nb_similar_artists" urlParams); intros Hs;
      inversion Hs; subst.
    + rewrite <- app_assoc. eauto.
    + eauto.
  - destruct (Regex.contains_ci "/+similar" nextUri).
    + destruct (each_similar _ _ _ _ _ _) as [nextUrls0|] eqn:Hsim; [|discriminate].
      intros Hs. inversion Hs; subst. exact (each_similar_appends _ _ _ _ _ _ _ Hsim).
    + intros Hs. exists []. rewrite app_nil_r.
      destruct (Regex.contains_ci "/artists" nextUri); [now inversion Hs|].
      destruct (Regex.contains_ci "/albums" nextUri); now inversion Hs.
Qed.

(** The pages are visited first in, first out: the page asked for, then
    the queue it came with, then what was found on the way. *)
Lemma lastfm_getPages_fifo (fuel : nat) (uri : string) :
  forall (nextUri result : string) (count : Z) (urls log : list string)
         (buf : string) (log' : list string),
    lastfm_getPages fuel uri nextUri result count urls log
      = Some (Resolved buf, log') ->
    exists more,
      log' = log ++ [absoluteTo nextUri uri]
                 ++ map (fun u => absoluteTo u uri) urls ++ more.
Proof.
  induction fuel as [|fuel IH]; intros nextUri result count urls log buf log' Hrun;
    [discriminate|].
  destruct (lastfm_getPages_resolved _ _ _ _ _ _ _ _ _ Hrun)
    as (urlParams & data & lines & nextUrls & Hp & Hd & Hpage).
  rewrite (lastfm_getPages_step _ _ _ _ _ _ _ _ _ _ _ Hp Hd Hpage) in Hrun.
  destruct (lastfm_page_appends _ _ _ _ _ _ Hpage) as [new Hnew].
  destruct nextUrls as [|first rest].
  - inversion Hrun; subst. symmetry in Hnew.
    apply app_eq_nil in Hnew as [-> _]. exists []. reflexivity.
  - destruct (IH _ _ _ _ _ _ _ Hrun) as [more Hmore].
    exists (map (fun u => absoluteTo u uri) new ++ more).
    rewrite Hmore. rewrite <- !app_assoc. simpl. f_equal. f_equal.
    change (absoluteTo first uri :: map (fun u => absoluteTo u uri) rest ++ more)
      with (map (fun u => absoluteTo u uri) (first :: rest) ++ more).
    rewrite Hnew, map_app, <- app_assoc. reflexivity.
Qed.

(** The buffer only grows at its end. *)
Lemma lastfm_getPages_extends (fuel : nat) (uri : string) :
  forall (nextUri result : string) (count : Z) (urls log : list string)
         (buf : string) (log' : list string),
    lastfm_getPages fuel uri nextUri result count urls log
      = Some (Resolved buf, log') ->
    exists rest, buf = (result ++ rest)%string.
Proof.
  induction fuel as [|fuel IH]; intros nextUri result count urls log buf log' Hrun;
    [discriminate|].
  destruct (lastfm_getPages_resolved _ _ _ _ _ _ _ _ _ Hrun)
    as (urlParams & data & lines & nextUrls & Hp & Hd & Hpage).
  rewrite (lastfm_getPages_step _ _ _ _ _ _ _ _ _ _ _ Hp Hd Hpage) in Hrun.
  destruct nextUrls as [|first rest].
  - inversion Hrun; subst. now exists lines.
  - destruct (IH _ _ _ _ _ _ _ Hrun) as [more Hmore].
    exists (lines ++ more)%string. now rewrite <- append_assoc.
Qed.

(** C6: the Last.fm crawl resolves exactly when its work queue of
    follow-up URIs, served first in first out from the start page, runs
    empty, whatever the page budget; the pages found on the start page
    are visited next, in their order; and with a budget of one page, a
    track list of two rows is followed by the two pages its rows lead
    to before the buffer is returned. *)
Theorem C6_lastfm_drains_work_queue
  (uri : string) (count : option Z) (log : list string) (buf : string)
  (log' : list string) :
  ((exists fuel, lastfm fuel uri count log = Some (Resolved buf, log'))
   <-> drain uri [uri] ("#shuffle" ++ nl) log buf log')
  /\ (forall fuel count', lastfm fuel uri count' log = lastfm fuel uri count log)
  /\ (forall fuel urlParams data lines followUps,
        lastfm fuel uri count log = Some (Resolved buf, log') ->
        searchParams (absoluteTo uri uri) = Some urlParams ->
        http log (absoluteTo uri uri) = Resolved data ->
        lastfm_page (absoluteTo uri uri) urlParams (parseHTML data) []
          = Some (lines, followUps) ->
        exists more,
          log' = log ++ [absoluteTo uri uri]
                     ++ map (fun u => absoluteTo u uri) followUps ++ more)
  /\ lastfm (H := Demo.web Demo.pages) 3
       "https://www.last.fm/music/Low/+tracks" (Some 1) []
     = Some (Resolved ("#shuffle" ++ nl ++ dash "Low" "Words" ++ nl
                       ++ dash "Low" "Lullaby" ++ nl
                       ++ dash "Codeine" "Loss Leader" ++ nl
                       ++ dash "Bedhead" "Bedside Table" ++ nl)%string,
             ["https://www.last.fm/music/Low/+tracks";
              "https://www.last.fm/music/Low/_/Words";
              "https://www.last.fm/music/Low/_/Lullaby"]).
Proof.
  split; [split|split; [|split]].
  - intros [fuel Hrun]. exact (lastfm_getPages_drains _ _ _ _ _ _ _ _ _ Hrun).
  - intros Hdrain.
    destruct (drain_lastfm_getPages _ _ _ _ _ _ Hdrain uri [] eq_refl)
      as [fuel Hfuel].
    exists fuel. apply Hfuel.
  - intros fuel count'. apply lastfm_getPages_any_count.
  - intros fuel urlParams data lines followUps Hrun Hp Hd Hpage.
    destruct fuel as [|fuel]; [discriminate|]. unfold lastfm in Hrun.
    rewrite (lastfm_getPages_step _ _ _ _ _ _ _ _ _ _ _ Hp Hd Hpage) in Hrun.
    destruct followUps as [|first rest].
    + inversion Hrun; subst. exists []. reflexivity.
    + destruct (lastfm_getPages_fifo _ _ _ _ _ _ _ _ _ Hrun) as [more Hmore].
      exists more. rewrite Hmore. rewrite <- !app_assoc. reflexivity.
  - vm_compute. reflexivity.
Qed.

(** C10: the buffer of a Last.fm crawl that resolves begins with the
    line [#shuffle], whatever the URI, the page budget and the pages. *)
Theorem C10_lastfm_buffer_begins_with_shuffle
  (fuel : nat) (uri : string) (count : option Z) (log : list string)
  (buf : string) (log' : list string) :
  lastfm fuel uri count log = Some (Resolved buf, log') ->
  String.prefix ("#shuffle" ++ nl) buf = true
  /\ exists rest, buf = ("#shuffle" ++ nl ++ rest)%string.
Proof.
  intros Hrun. destruct (lastfm_getPages_extends _ _ _ _ _ _ _ _ _ Hrun)
    as [rest Hrest].
  subst buf. split; [apply prefix_append|].
  exists rest. now rewrite append_assoc.
Qed.

End Crawls.

Lemma C6_lastfm_drains_work_queue_witness :
  WebScraper.lastfm (H := Demo.web Demo.pages) 3
    "https://www.last.fm/music/Low/+tracks" (Some 7) []
  = WebScraper.lastfm (H := Demo.web Demo.pages) 3
      "https://www.last.fm/music/Low/+tracks" (Some 1) [].
Proof.
  exact (proj1 (proj2 (C6_lastfm_drains_work_queue (H := Demo.web Demo.pages)
                         "https://www.last.fm/music/Low/+tracks" (Some 1) [] "" []))
           3%nat (Some 7)).
Defined.

Lemma C10_lastfm_buffer_begins_with_shuffle_witness :
  exists buf log',
    WebScraper.lastfm (H := Demo.web Demo.pages) 3
      "https://www.last.fm/music/Low/+tracks" (Some 1) [] = Some (Resolved buf, log')
    /\ String.prefix ("#shuffle" ++ WebScraper.nl) buf = true.
Proof.
  eexists. eexists. split; [vm_compute; reflexivity|].
  exact (proj1 (C10_lastfm_buffer_begins_with_shuffle (H := Demo.web Demo.pages)
                  3 "https://www.last.fm/music/Low/+tracks" (Some 1) [] _ _
                  eq_refl)).
Defined.

(** *** Linear pagination *)

Section Linear.
Context `{WebScraper.Platform}.
Import WebScraper.

Lemma pitchfork_linear (fuel : nat) (uri : string) :
  forall nextUri result count log,
    pitchfork_getPages fuel uri nextUri result count log
    = linear_getPages (lines_of Pitchfork uri) (next_of Pitchfork)
        fuel uri nextUri result count log.
Proof.
  induction fuel as [|fuel IH]; intros nextUri result count log; [reflexivity|].
  cbn [pitchfork_getPages linear_getPages lines_of next_of].
  destruct (http log _) as [data|e]; [|reflexivity].
  destruct (count =? 1); [reflexivity|].
  destruct (pagination_next _); [apply IH | reflexivity].
Qed.

Lemma rateyourmusic_linear (fuel : nat) (uri : string) :
  forall nextUri result count log,
    rateyourmusic_getPages fuel uri nextUri result count log
    = linear_getPages (lines_of Rateyourmusic uri) (next_of Rateyourmusic)
        fuel uri nextUri result count log.
Proof.
  induction fuel as [|fuel IH]; intros nextUri result count log; [reflexivity|].
  cbn [rateyourmusic_getPages linear_getPages lines_of next_of].
  destruct (http log _) as [data|e]; [|reflexivity].
  destruct (count =? 1); [reflexivity|].
  destruct (navlinknext _); [apply IH | reflexivity].
Qed.

Lemma reddit_linear (fuel : nat) (uri : string) :
  forall nextUri result count log,
    reddit_getPages fuel uri nextUri result count log
    = linear_getPages (lines_of Reddit uri) (next_of Reddit)
        fuel uri nextUri result count log.
Proof.
  induction fuel as [|fuel IH]; intros nextUri result count log; [reflexivity|].
  cbn [reddit_getPages linear_getPages lines_of next_of].
  destruct (http log _) as [data|e]; [|reflexivity].
  destruct (count =? 1); [reflexivity|].
  destruct (next_button _); [apply IH | reflexivity].
Qed.

Lemma or_default_positive (b d : Z) : 1 <= b -> or_default (Some b) d = b.
Proof.
  intros Hb. unfold or_default.
  now replace (b =? 0) with false by (symmetry; apply Z.eqb_neq; lia).
Qed.

(** A linear strategy with a positive budget is the shared crawl. *)
Lemma crawl_linear (s : strategy) (fuel : nat) (uri : string) (b : Z)
  (log : list string) :
  linear s = true ->
  1 <= b ->
  crawl s fuel uri (Some b) log
  = linear_getPages (lines_of s uri) (next_of s) fuel uri uri "" b log.
Proof.
  intros Hs Hb. destruct s; try discriminate; unfold crawl.
  - unfold pitchfork. rewrite (or_default_positive _ _ Hb). apply pitchfork_linear.
  - unfold rateyourmusic. rewrite (or_default_positive _ _ Hb).
    apply rateyourmusic_linear.
  - unfold reddit. rewrite (or_default_positive _ _ Hb). apply reddit_linear.
Qed.

(** A linear strategy is the shared crawl, started from its budget. *)
Lemma crawl_linear_budget (s : strategy) (fuel : nat) (uri : string)
  (count : option Z) (log : list string) :
  linear s = true ->
  crawl s fuel uri count log
  = linear_getPages (lines_of s uri) (next_of s) fuel uri uri ""
      (budget_of s count) log.
Proof.
  intros Hs. destruct s; try discriminate; unfold crawl, budget_of.
  - apply pitchfork_linear.
  - apply rateyourmusic_linear.
  - apply reddit_linear.
Qed.

Variable lines : document -> string.
Variable next : document -> option string.

(** A budget of [b >= 1] pages is enough fuel, and bounds the pages
    that are fetched. *)
Lemma linear_getPages_bounded (uri : string) (fuel : nat) :
  forall (b : Z) (nextUri result : string) (log : list string),
    1 <= b ->
    (Z.to_nat b <= fuel)%nat ->
    exists r visited,
      linear_getPages lines next fuel uri nextUri result b log
        = Some (r, log ++ visited)
      /\ (1 <= List.length visited <= Z.to_nat b)%nat
      /\ hd_error visited = Some (absoluteTo nextUri uri).
Proof.
  induction fuel as [|fuel IH]; intros b nextUri result log Hb Hfuel; [lia|].
  cbn [linear_getPages].
  destruct (http log (absoluteTo nextUri uri)) as [data|e].
  - destruct (Z.eqb_spec b 1) as [Hone|Hmore].
    + eexists. exists [absoluteTo nextUri uri]. simpl. repeat split; lia.
    + destruct (next (parseHTML data)) as [href|].
      * destruct (IH (b - 1) href (result ++ lines (parseHTML data))%string
                    (log ++ [absoluteTo nextUri uri]))
          as (r & visited & Hrun & Hlen & _); [lia | lia |].
        exists r, (absoluteTo nextUri uri :: visited).
        rewrite Hrun, <- app_assoc. simpl. repeat split; lia.
      * eexists. exists [absoluteTo nextUri uri]. simpl. repeat split; lia.
  - eexists. exists [absoluteTo nextUri uri]. simpl. repeat split; lia.
Qed.

(** Without a link to a next page the crawl ends. *)
Lemma linear_getPages_last (uri : string) (fuel : nat) (b : Z)
  (nextUri result : string) (log : list string) (data : string) :
  http log (absoluteTo nextUri uri) = Resolved data ->
  next (parseHTML data) = None ->
  linear_getPages lines next (S fuel) uri nextUri result b log
  = Some (Resolved (result ++ lines (parseHTML data))%string,
          log ++ [absoluteTo nextUri uri]).
Proof.
  intros Hd Hn. cbn [linear_getPages]. rewrite Hd, Hn. now destruct (b =? 1).
Qed.

(** With a budget of two pages, two pages are fetched when the first
    links to a next one, whatever the second links to. *)
Lemma linear_getPages_two (uri : string) (fuel : nat)
  (nextUri result : string) (log : list string) (data href data' : string) :
  http log (absoluteTo nextUri uri) = Resolved data ->
  next (parseHTML data) = Some href ->
  http (log ++ [absoluteTo nextUri uri]) (absoluteTo href uri) = Resolved data' ->
  linear_getPages lines next (S (S fuel)) uri nextUri result 2 log
  = Some (Resolved ((result ++ lines (parseHTML data))
                    ++ lines (parseHTML data'))%string,
          log ++ [absoluteTo nextUri uri; absoluteTo href uri]).
Proof.
  intros Hd Hn Hd'. cbn [linear_getPages]. rewrite Hd, Hn.
  change (2 =? 1) with false. change (2 - 1 =? 1) with true.
  cbv iota. rewrite Hd'. now rewrite <- app_assoc.
Qed.

(** With a budget of [b >= 1] the crawl of the source is the pagination
    of the specification, and [b] pages are enough fuel. *)
Lemma linear_getPages_paginate (uri : string) (fuel : nat) :
  forall (b : Z) (nextUri result : string) (log : list string),
    1 <= b ->
    (Z.to_nat b <= fuel)%nat ->
    linear_getPages lines next fuel uri nextUri result b log
    = Some (paginate lines next (Z.to_nat b) uri nextUri result log).
Proof.
  induction fuel as [|fuel IH]; intros b nextUri result log Hb Hfuel; [lia|].
  cbn [linear_getPages].
  destruct (Z.eqb_spec b 1) as [Hone|Hmore].
  - subst b. change (Z.to_nat 1) with 1%nat. cbn [paginate].
    now destruct (http log (absoluteTo nextUri uri)).
  - replace (Z.to_nat b) with (S (Z.to_nat (b - 1))) by lia.
    specialize (IH (b - 1)).
    destruct (Z.to_nat (b - 1)) as [|n] eqn:Hn; [lia|].
    cbn [paginate].
    destruct (http log (absoluteTo nextUri uri)) as [data|e]; [|reflexivity].
    destruct (next (parseHTML data)) as [href|]; [|reflexivity].
    apply IH; lia.
Qed.

(** The pages of a chain are fetched in the order of the chain, and
    there is at least one. *)
Lemma follows_length (uri : string) (log : list string) (nextUri : string)
  (visited : list string) (last : option string) :
  follows next uri log nextUri visited last ->
  (1 <= List.length visited)%nat
  /\ hd_error visited = Some (absoluteTo nextUri uri).
Proof. destruct 1; simpl; split; (lia || reflexivity). Qed.

(** The crawl goes along a chain of linked pages up to the page that
    exhausts the budget or the first page without a link, whichever
    comes first. *)
Lemma linear_getPages_follows (uri : string) (log : list string)
  (nextUri : string) (visited : list string) (last : option string) :
  follows next uri log nextUri visited last ->
  forall (fuel : nat) (b : Z) (result : string),
    (List.length visited <= fuel)%nat ->
    Z.of_nat (List.length visited) = b
    \/ (Z.of_nat (List.length visited) < b /\ last = None) ->
    exists buf,
      linear_getPages lines next fuel uri nextUri result b log
      = Some (Resolved buf, log ++ visited).
Proof.
  induction 1 as [log nextUri data Hd
                 | log nextUri data href visited last Hd Hn Hchain IH];
    intros fuel b result Hfuel Hb; cbn [List.length] in Hfuel, Hb;
    (destruct fuel as [|fuel]; [lia|]); cbn [linear_getPages]; rewrite Hd.
  - destruct (Z.eqb_spec b 1) as [Hone|Hmore]; [eauto|].
    destruct Hb as [Hb | [_ Hb]]; [lia|].
    rewrite Hb. eauto.
  - assert (1 <= List.length visited)%nat as Hlen
      by exact (proj1 (follows_length _ _ _ _ _ Hchain)).
    replace (b =? 1) with false by (symmetry; apply Z.eqb_neq; lia).
    rewrite Hn.
    destruct (IH fuel (b - 1) (result ++ lines (parseHTML data))%string)
      as [buf Hbuf];
      [lia | destruct Hb as [Hb | [Hb Hl]]; [left; lia | right; split; [lia | exact Hl]] |].
    exists buf. rewrite Hbuf, <- app_assoc. reflexivity.
Qed.

(** With a budget that is not positive the crawl goes along a chain of
    linked pages to its end, however long the chain. *)
Lemma linear_getPages_follows_all (uri : string) (log : list string)
  (nextUri : string) (visited : list string) (last : option string) :
  follows next uri log nextUri visited last ->
  last = None ->
  forall (fuel : nat) (b : Z) (result : string),
    (List.length visited <= fuel)%nat ->
    b <= 0 ->
    exists buf,
      linear_getPages lines next fuel uri nextUri result b log
      = Some (Resolved buf, log ++ visited).
Proof.
  induction 1 as [log nextUri data Hd
                 | log nextUri data href visited last Hd Hn Hchain IH];
    intros Hlast fuel b result Hfuel Hb; cbn [List.length] in Hfuel;
    (destruct fuel as [|fuel]; [lia|]); cbn [linear_getPages]; rewrite Hd;
    (replace (b =? 1) with false by (symmetry; apply Z.eqb_neq; lia)).
  - rewrite Hlast. eauto.
  - rewrite Hn.
    destruct (IH Hlast fuel (b - 1) (result ++ lines (parseHTML data))%string)
      as [buf Hbuf]; [lia | lia |].
    exists buf. rewrite Hbuf, <- app_assoc. reflexivity.
Qed.

End Linear.

Section Pagination.
Context `{WebScraper.Platform}.
Import WebScraper.

(** A fetch that fails fails the crawl: no buffer is returned, and the
    crawl is rejected with what the fetcher was rejected with. *)
Lemma linear_getPages_fetch_fails (lines : document -> string)
  (next : document -> option string) (fuel : nat) (uri nextUri result : string)
  (b : Z) (log : list string) (e : reason) :
  http log (absoluteTo nextUri uri) = Rejected e ->
  linear_getPages lines next (S fuel) uri nextUri result b log
  = Some (Rejected e, log ++ [absoluteTo nextUri uri]).
Proof. intros He. cbn [linear_getPages]. now rewrite He. Qed.

Lemma lastfm_getPages_fetch_fails (fuel : nat) (uri nextUri result : string)
  (count : Z) (urls log : list string) (urlParams : list (string * string))
  (e : reason) :
  searchParams (absoluteTo nextUri uri) = Some urlParams ->
  http log (absoluteTo nextUri uri) = Rejected e ->
  lastfm_getPages (S fuel) uri nextUri result count urls log
  = Some (Rejected e, log ++ [absoluteTo nextUri uri]).
Proof. intros Hp He. cbn [lastfm_getPages]. now rewrite Hp, He. Qed.

(** C7, as amended: a linear strategy (pitchfork, rateyourmusic,
    reddit) with a page budget of [b >= 1] fetches a page, then
    continues to the next page only while the budget is above 1 and a
    next-page link exists, decrementing the budget each hop: the crawl
    of the source is the pagination of the specification, and [b] pages
    are enough fuel.  So it fetches the start page and at most [b] pages
    in all; along a chain of linked pages it fetches exactly the pages
    up to the [b]-th page or the first page without a link to a next
    one, whichever comes first; it stops after a start page without a
    link; and with a budget of two pages and a first page that links to
    a next one, exactly these two pages are fetched, whether or not the
    second links further.  A budget that is not positive when the crawl
    starts ([b <= 0] for pitchfork and rateyourmusic, [b < 0] for
    reddit) is no bound: the crawl goes along a chain of linked pages to
    its last page, however long the chain; reddit reads the budget 0 as
    1. *)
Theorem C7_linear_pagination_is_bounded
  (s : strategy) (uri : string) (b : Z) (fuel : nat) (log : list string) :
  linear s = true ->
  (1 <= b ->
   (Z.to_nat b <= fuel)%nat ->
   crawl s fuel uri (Some b) log
   = Some (paginate (lines_of s uri) (next_of s) (Z.to_nat b) uri uri "" log)
   /\ (exists r visited,
         crawl s fuel uri (Some b) log = Some (r, log ++ visited)
         /\ (1 <= List.length visited <= Z.to_nat b)%nat
         /\ hd_error visited = Some (absoluteTo uri uri))
   /\ (forall visited last,
         follows (next_of s) uri log uri visited last ->
         Z.of_nat (List.length visited) = b
         \/ (Z.of_nat (List.length visited) < b /\ last = None) ->
         exists buf,
           crawl s fuel uri (Some b) log = Some (Resolved buf, log ++ visited))
   /\ (forall data,
         http log (absoluteTo uri uri) = Resolved data ->
         next_of s (parseHTML data) = None ->
         crawl s fuel uri (Some b) log
         = Some (Resolved (lines_of s uri (parseHTML data)),
                 log ++ [absoluteTo uri uri]))
   /\ (forall data href data',
         b = 2 ->
         http log (absoluteTo uri uri) = Resolved data ->
         next_of s (parseHTML data) = Some href ->
         http (log ++ [absoluteTo uri uri]) (absoluteTo href uri) = Resolved data' ->
         crawl s fuel uri (Some b) log
         = Some (Resolved (lines_of s uri (parseHTML data)
                           ++ lines_of s uri (parseHTML data'))%string,
                 log ++ [absoluteTo uri uri; absoluteTo href uri])))
  /\ (budget_of s (Some b) <= 0 ->
      forall visited,
        follows (next_of s) uri log uri visited None ->
        (List.length visited <= fuel)%nat ->
        exists buf,
          crawl s fuel uri (Some b) log = Some (Resolved buf, log ++ visited))
  /\ (budget_of s (Some b) <= 0 <-> b <= 0 /\ (s = Reddit -> b < 0))
  /\ crawl Reddit fuel uri (Some 0) log = crawl Reddit fuel uri (Some 1) log.
Proof.
  intros Hs. split; [|split; [|split]].
  - intros Hb Hfuel. rewrite (crawl_linear _ _ _ _ _ Hs Hb).
    split; [|split; [|split; [|split]]].
    + apply linear_getPages_paginate; assumption.
    + apply linear_getPages_bounded; assumption.
    + intros visited last Hchain Hlen.
      apply (linear_getPages_follows _ _ _ _ _ _ _ Hchain); [lia | exact Hlen].
    + intros data Hd Hn. destruct fuel as [|fuel]; [lia|].
      exact (linear_getPages_last _ _ _ _ _ _ _ _ _ Hd Hn).
    + intros data href data' H2 Hd Hn Hd'. subst b.
      destruct fuel as [|[|fuel]]; [simpl in Hfuel; lia | simpl in Hfuel; lia |].
      exact (linear_getPages_two _ _ _ _ _ _ _ _ _ _ Hd Hn Hd').
  - intros Hb visited Hchain Hfuel. rewrite (crawl_linear_budget _ _ _ _ _ Hs).
    exact (linear_getPages_follows_all _ _ _ _ _ _ _ Hchain eq_refl _ _ _ Hfuel Hb).
  - destruct s; try discriminate; unfold budget_of, or_default;
      destruct (Z.eqb_spec b 0); split;
      try (intros [? Hr]; try specialize (Hr eq_refl); lia);
      intros ?; (split; [lia | intros ?; try discriminate; lia]).
  - reflexivity.
Qed.

(** ** Strategy selection *)

(** The case of a domain that the table knows. *)
Ltac known_host s :=
  split; [reflexivity|];
  split;
  [ let s' := fresh "s" in
    let Hin := fresh "Hin" in
    intros s' Hin; simpl in Hin;
    repeat (destruct Hin as [Hin|Hin];
            [inversion Hin; subst; try reflexivity; discriminate|]);
    contradiction
  | let Hno := fresh "Hno" in
    intros Hno; elim (Hno s); simpl; tauto ].

(** C9: for every URI, [scrape] runs the strategy that the table of
    known hosts gives for the domain of the URI, and the generic web
    page strategy when the domain is not in the table. *)
Theorem C9_strategy_selection_is_total
  (fuel : nat) (uri : string) (count : option Z) (log : list string) :
  scrape fuel uri count log = crawl (selectStrategy uri) fuel uri count log
  /\ (forall s, In (domain uri, s) known_hosts -> selectStrategy uri = s)
  /\ ((forall s, ~ In (domain uri, s) known_hosts) ->
      selectStrategy uri = Webpage
      /\ scrape fuel uri count log = Some (webpage uri log)).
Proof.
  unfold scrape, selectStrategy, known_hosts. cbn [find fst].
  destruct (String.eqb_spec (domain uri) "last.fm") as [E|N1];
    [rewrite E; known_host Lastfm|].
  destruct (String.eqb_spec (domain uri) "pitchfork.com") as [E|N2];
    [rewrite E; known_host Pitchfork|].
  destruct (String.eqb_spec (domain uri) "rateyourmusic.com") as [E|N3];
    [rewrite E; known_host Rateyourmusic|].
  destruct (String.eqb_spec (domain uri) "reddit.com") as [E|N4];
    [rewrite E; known_host Reddit|].
  destruct (String.eqb_spec (domain uri) "youtube.com") as [E|N5];
    [rewrite E; known_host Youtube|].
  split; [reflexivity|]. split; [|intros _; split; reflexivity].
  intros s Hin. simpl in Hin.
  repeat (destruct Hin as [Hin|Hin]; [inversion Hin; congruence|]).
  contradiction.
Qed.

End Pagination.

Lemma C7_linear_pagination_is_bounded_witness :
  WebScraper.crawl (H := Demo.web Demo.pages) WebScraper.Pitchfork 5
    "https://pitchfork.com/best/?page=1" (Some 2) []
  = Some (Resolved
            ("#album " ++ WebScraper.dash "Low" "Things We Lost in the Fire"
             ++ WebScraper.nl
             ++ "#album " ++ WebScraper.dash "Low" "Secret Name"
             ++ WebScraper.nl)%string,
          ["https://pitchfork.com/best/?page=1";
           "https://pitchfork.com/best/?page=2"])
  /\ (exists buf,
        WebScraper.crawl (H := Demo.web Demo.pages) WebScraper.Pitchfork 5
          "https://pitchfork.com/best/?page=1" (Some 3) []
        = Some (Resolved buf,
                [] ++ ["https://pitchfork.com/best/?page=1";
                       "https://pitchfork.com/best/?page=2";
                       "https://pitchfork.com/best/?page=3"]))
  /\ (exists buf,
        WebScraper.crawl (H := Demo.web Demo.pages) WebScraper.Pitchfork 7
          "https://pitchfork.com/best/?page=1" (Some 7) []
        = Some (Resolved buf,
                [] ++ ["https://pitchfork.com/best/?page=1";
                       "https://pitchfork.com/best/?page=2";
                       "https://pitchfork.com/best/?page=3";
                       "https://pitchfork.com/best/?page=4"]))
  /\ (exists buf,
        WebScraper.crawl (H := Demo.web Demo.pages) WebScraper.Pitchfork 4
          "https://pitchfork.com/best/?page=1" (Some 0) []
        = Some (Resolved buf,
                [] ++ ["https://pitchfork.com/best/?page=1";
                       "https://pitchfork.com/best/?page=2";
                       "https://pitchfork.com/best/?page=3";
                       "https://pitchfork.com/best/?page=4"])).
Proof.
  assert (Hchain3 :
    WebScraper.follows (H := Demo.web Demo.pages)
      (WebScraper.next_of WebScraper.Pitchfork)
      "https://pitchfork.com/best/?page=1" []
      "https://pitchfork.com/best/?page=1"
      ["https://pitchfork.com/best/?page=1";
       "https://pitchfork.com/best/?page=2";
       "https://pitchfork.com/best/?page=3"]
      (Some "https://pitchfork.com/best/?page=4")).
  { eapply (WebScraper.follows_next (H := Demo.web Demo.pages));
      [reflexivity | reflexivity |].
    eapply (WebScraper.follows_next (H := Demo.web Demo.pages));
      [reflexivity | reflexivity |].
    exact (WebScraper.follows_last (H := Demo.web Demo.pages) _ _ _
             "https://pitchfork.com/best/?page=3" _ eq_refl). }
  assert (Hchain4 :
    WebScraper.follows (H := Demo.web Demo.pages)
      (WebScraper.next_of WebScraper.Pitchfork)
      "https://pitchfork.com/best/?page=1" []
      "https://pitchfork.com/best/?page=1"
      ["https://pitchfork.com/best/?page=1";
       "https://pitchfork.com/best/?page=2";
       "https://pitchfork.com/best/?page=3";
       "https://pitchfork.com/best/?page=4"]
      None).
  { eapply (WebScraper.follows_next (H := Demo.web Demo.pages));
      [reflexivity | reflexivity |].
    eapply (WebScraper.follows_next (H := Demo.web Demo.pages));
      [reflexivity | reflexivity |].
    eapply (WebScraper.follows_next (H := Demo.web Demo.pages));
      [reflexivity | reflexivity |].
    exact (WebScraper.follows_last (H := Demo.web Demo.pages) _ _ _
             "https://pitchfork.com/best/?page=4" _ eq_refl). }
  split; [|split; [|split]].
  - exact (proj2 (proj2 (proj2 (proj2
             (proj1 (C7_linear_pagination_is_bounded (H := Demo.web Demo.pages)
                       WebScraper.Pitchfork "https://pitchfork.com/best/?page=1"
                       2 5 [] eq_refl)
                ltac:(lia) ltac:(simpl; lia)))))
             _ _ _ eq_refl eq_refl eq_refl eq_refl).
  - exact (proj1 (proj2 (proj2
             (proj1 (C7_linear_pagination_is_bounded (H := Demo.web Demo.pages)
                       WebScraper.Pitchfork "https://pitchfork.com/best/?page=1"
                       3 5 [] eq_refl)
                ltac:(lia) ltac:(simpl; lia))))
             _ _ Hchain3 (or_introl eq_refl)).
  - exact (proj1 (proj2 (proj2
             (proj1 (C7_linear_pagination_is_bounded (H := Demo.web Demo.pages)
                       WebScraper.Pitchfork "https://pitchfork.com/best/?page=1"
                       7 7 [] eq_refl)
                ltac:(lia) ltac:(simpl; lia))))
             _ _ Hchain4 (or_intror (conj eq_refl eq_refl))).
  - exact (proj1 (proj2
             (C7_linear_pagination_is_bounded (H := Demo.web Demo.pages)
                WebScraper.Pitchfork "https://pitchfork.com/best/?page=1"
                0 4 [] eq_refl))
             ltac:(simpl; lia) _ Hchain4 ltac:(simpl; lia)).
Defined.

(** The claim as it stands fails: with a budget of 0 pages, which is
    not above 1, pitchfork follows every link to a next page. *)
Lemma C7_counterexample :
  exists buf,
    WebScraper.pitchfork (H := Demo.web Demo.pages) 5
      "https://pitchfork.com/best/?page=1" (Some 0) []
    = Some (Resolved buf,
            ["https://pitchfork.com/best/?page=1";
             "https://pitchfork.com/best/?page=2";
             "https://pitchfork.com/best/?page=3";
             "https://pitchfork.com/best/?page=4"])
    /\ ~ (0 > 1).
Proof.
  eexists. split; [vm_compute; reflexivity | lia].
Qed.

Lemma C9_strategy_selection_is_total_witness :
  WebScraper.scrape (H := Demo.web Demo.pages) 5
    "https://pitchfork.com/best/?page=1" (Some 2) []
  = WebScraper.pitchfork (H := Demo.web Demo.pages) 5
      "https://pitchfork.com/best/?page=1" (Some 2) []
  /\ WebScraper.selectStrategy (H := Demo.web Demo.pages)
       "https://example.org/playlist" = WebScraper.Webpage.
Proof.
  split.
  - exact (proj1 (C9_strategy_selection_is_total (H := Demo.web Demo.pages) 5
                    "https://pitchfork.com/best/?page=1" (Some 2) [])).
  - refine (proj1 (proj2 (proj2 (C9_strategy_selection_is_total
                                   (H := Demo.web Demo.pages) 0
                                   "https://example.org/playlist" None [])) _)).
    intros s Hin. vm_compute in Hin.
    repeat (destruct Hin as [Hin|Hin]; [discriminate Hin|]). exact Hin.
Defined.

(* ================================================================== *)
(** * Further properties of the entries *)

(** ** Member expressions and tests *)

Lemma access_of_truthy (v : value) (s : step) :
  truthy v = true -> exists x, access v s = Some x.
Proof.
  destruct v as [| |b|n|t|items|fields]; try discriminate; intros _;
    destruct s as [name|]; simpl; eauto.
  destruct t; eauto.
Qed.

Lemma path_app (v : value) (p q : list step) :
  path v (p ++ q) = match path v p with
                    | Some x => path x q
                    | None => None
                    end.
Proof.
  revert v. induction p as [|s p IH]; intros v; simpl; [reflexivity|].
  destruct (access v s); [apply IH | reflexivity].
Qed.

(** A falsy value leads nowhere: its members are [undefined] at best. *)
Lemma path_from_falsy (v : value) (p : list step) (i : value) :
  path v p = Some i -> truthy i = true -> truthy v = true.
Proof.
  destruct p as [|s p]; simpl.
  - intros E. now inversion E.
  - destruct (truthy v) eqn:Hv; [reflexivity|]. intros Hp Hi.
    assert (Hs : access v s = None \/ access v s = Some VUndefined).
    { destruct v as [| |b|n|t|items|fields]; simpl in Hv; try discriminate;
        destruct s; simpl; auto.
      destruct t; [auto | discriminate]. }
    destruct Hs as [Hs | Hs]; rewrite Hs in Hp; [discriminate|].
    destruct p as [|s' p]; simpl in Hp.
    + inversion Hp; subst. discriminate.
    + destruct s'; discriminate.
Qed.

(** A test whose operands grow by one step never raises: it is true
    exactly when the whole member expression is truthy. *)
Lemma all_truthy_prefixes (root : value) (steps : list step) :
  forall acc x,
    path root acc = Some x ->
    all_truthy root (prefixes acc steps)
    = Some match path root (acc ++ steps) with
           | Some i => truthy i
           | None => false
           end.
Proof.
  induction steps as [|s steps IH]; intros acc x Hacc; cbn [prefixes all_truthy].
  - rewrite app_nil_r, Hacc. now destruct (truthy x).
  - rewrite Hacc. destruct (truthy x) eqn:Hx.
    + destruct (access_of_truthy x s Hx) as [x' Hx'].
      assert (Hnext : path root (acc ++ [s]) = Some x').
      { rewrite path_app, Hacc. simpl. now rewrite Hx'. }
      rewrite (IH _ _ Hnext). now rewrite <- app_assoc.
    + f_equal. rewrite path_app, Hacc.
      destruct (path x (s :: steps)) as [i|] eqn:Hi; [|reflexivity].
      destruct (truthy i) eqn:Hti; [|reflexivity].
      now rewrite (path_from_falsy _ _ _ Hi Hti) in Hx.
Qed.

(** Every operand of a test is truthy when what it leads to is. *)
Lemma all_truthy_towards (root : value) (p : list step) (i : value) :
  path root p = Some i ->
  truthy i = true ->
  forall ps,
    Forall (fun q => exists r, p = q ++ r) ps ->
    all_truthy root ps = Some true.
Proof.
  intros Hp Hi ps Hps. induction Hps as [|q ps [r Hq] _ IH]; [reflexivity|].
  cbn [all_truthy]. subst p. rewrite path_app in Hp.
  destruct (path root q) as [x|]; [|discriminate].
  now rewrite (path_from_falsy _ _ _ Hp Hi).
Qed.

(** A test that reads [r.a.b[0]] without a test of [r.a.b] raises
    exactly when [r] and [r.a] are truthy and [r.a.b] is [undefined] or
    [null]. *)
Lemma all_truthy_skipping (root : value) (a b c : string) :
  all_truthy root [[]; [P a]; [P a; P b; Idx0]; [P a; P b; Idx0; P c]] = None
  <-> truthy root = true
      /\ exists x y, get root a = Some x /\ truthy x = true
                     /\ get x b = Some y /\ (y = VUndefined \/ y = VNull).
Proof.
  cbn [all_truthy path access]. split.
  - destruct (truthy root) eqn:Hroot; [|discriminate].
    destruct (access_of_truthy root (P a) Hroot) as [x Hx]. simpl in Hx.
    rewrite Hx. destruct (truthy x) eqn:Htx; [|discriminate].
    destruct (access_of_truthy x (P b) Htx) as [y Hy]. simpl in Hy.
    rewrite Hy. intros Hraise. split; [reflexivity|].
    exists x, y. repeat split; try assumption.
    destruct y as [| |bo|n|t|items|fields]; auto; exfalso; simpl in Hraise.
    + destruct (truthy _); discriminate.
    + destruct (truthy _); discriminate.
    + destruct t as [|ch t]; simpl in Hraise; discriminate.
    + destruct (truthy (nth 0 items VUndefined)) eqn:Hz; [|discriminate].
      destruct (access_of_truthy _ (P c) Hz) as [z Hz']. simpl in Hz'.
      rewrite Hz' in Hraise. destruct (truthy z); discriminate.
    + destruct (truthy (lookup "0" fields)) eqn:Hz; [|discriminate].
      destruct (access_of_truthy _ (P c) Hz) as [z Hz']. simpl in Hz'.
      rewrite Hz' in Hraise. destruct (truthy z); discriminate.
  - intros (Hroot & x & y & Hx & Htx & Hy & Hnull).
    rewrite Hroot, Hx, Htx, Hy. now destruct Hnull as [-> | ->].
Qed.

(** ** Answered searches *)

Section Answers.
Context `{SpotifyRequestHandler}.

Lemma album_search_answered_total (result : value) (a : Album.t) :
  Album.search_answered result a
  = Some match path result [P "albums"; P "items"; Idx0; P "id"] with
         | Some i =>
             if truthy i
             then Album.set_id i (Album.set_searchResponse result a)
             else Album.set_searchResponse result a
         | None => Album.set_searchResponse result a
         end.
Proof.
  unfold Album.search_answered.
  cbn [Album.searchResponse Album.set_searchResponse].
  change [[]; [P "albums"]; [P "albums"; P "items"];
          [P "albums"; P "items"; Idx0]; [P "albums"; P "items"; Idx0; P "id"]]
    with (prefixes [] [P "albums"; P "items"; Idx0; P "id"]).
  rewrite (all_truthy_prefixes result _ [] result eq_refl).
  cbn [app]. destruct (path result _) as [i|]; [|reflexivity].
  now destruct (truthy i).
Qed.

(** X2: An album search that the catalog answers always resolves: the entry
    stores the answer, and adopts the id of the first hit exactly when
    there is a first hit with a truthy id. *)
Theorem album_answered_search_resolves (a : Album.t) (w : world) (result : value) :
  Album.cached a = false ->
  respond w (SearchForAlbum (Album.entry a)) = Resolved result ->
  Album.searchForAlbum a w
  = (Resolved Self,
     match path result [P "albums"; P "items"; Idx0; P "id"] with
     | Some i =>
         if truthy i
         then Album.set_id i (Album.set_searchResponse result a)
         else Album.set_searchResponse result a
     | None => Album.set_searchResponse result a
     end,
     w ++ [SearchForAlbum (Album.entry a)]).
Proof.
  intros Hc Hr. rewrite (album_unresolved_searches _ _ Hc), Hr.
  now rewrite album_search_answered_total.
Qed.

(** X4: An artist search whose answer has a truthy [artists] without
    [items] raises in its handler and is handled as a failed search:
    the answer stays stored, and the reference becomes the id when it
    matches the identifier pattern, else the call is rejected with
    [null]. *)
Theorem artist_answer_without_items_fails
  (a : Artist.t) (w : world) (result artists items : value) :
  Artist.cached a = false ->
  respond w (SearchForArtist (Artist.entry a)) = Resolved result ->
  truthy result = true ->
  get result "artists" = Some artists ->
  truthy artists = true ->
  get artists "items" = Some items ->
  items = VUndefined \/ items = VNull ->
  Artist.searchForArtist a w
  = ((if Regex.matches_id (Artist.entry a)
      then (Resolved (Cached (VStr (Artist.entry a))),
            Artist.set_id (VStr (Artist.entry a))
              (Artist.set_searchResponse result a))
      else (Rejected (Reason VNull), Artist.set_searchResponse result a)),
     w ++ [SearchForArtist (Artist.entry a)]).
Proof.
  intros Hc Hr Ht Ha Hta Hi Hnull.
  rewrite (artist_unresolved_searches _ _ Hc), Hr.
  assert (Hraise : Artist.search_answered result a = None).
  { unfold Artist.search_answered.
    cbn [Artist.searchResponse Artist.set_searchResponse].
    replace (all_truthy result _) with (@None bool); [reflexivity|].
    symmetry. apply all_truthy_skipping. split; [exact Ht|].
    now exists artists, items. }
  rewrite Hraise. unfold Artist.search_failed.
  cbn [Artist.entry Artist.set_searchResponse].
  now destruct (Regex.matches_id (Artist.entry a)).
Qed.

(** X3: An artist search answered with a first hit of truthy id resolves:
    the entry stores the answer and adopts that id. *)
Theorem artist_adopts_first_hit (a : Artist.t) (w : world) (result i : value) :
  Artist.cached a = false ->
  respond w (SearchForArtist (Artist.entry a)) = Resolved result ->
  path result [P "artists"; P "items"; Idx0; P "id"] = Some i ->
  truthy i = true ->
  Artist.searchForArtist a w
  = (Resolved Self, Artist.set_id i (Artist.set_searchResponse result a),
     w ++ [SearchForArtist (Artist.entry a)]).
Proof.
  intros Hc Hr Hp Hi. rewrite (artist_unresolved_searches _ _ Hc), Hr.
  unfold Artist.search_answered.
  cbn [Artist.searchResponse Artist.set_searchResponse].
  rewrite (all_truthy_towards result _ i Hp Hi), Hp; [reflexivity|].
  repeat constructor.
  - now exists [P "artists"; P "items"; Idx0; P "id"].
  - now exists [P "items"; Idx0; P "id"].
  - now exists [P "id"].
  - now exists [].
Qed.

End Answers.

Lemma album_answered_search_resolves_witness :
  Album.searchForAlbum (H := Demo.catalog_sparse) Demo.album_rem []
  = (Resolved Self,
     Album.set_id (VStr "album1")
       (Album.set_searchResponse Demo.album_hits Demo.album_rem),
     [SearchForAlbum "R.E.M."]).
Proof.
  exact (album_answered_search_resolves (H := Demo.catalog_sparse)
           Demo.album_rem [] Demo.album_hits eq_refl eq_refl).
Defined.

Lemma artist_answer_without_items_fails_witness :
  Artist.searchForArtist (H := Demo.catalog_sparse) Demo.artist_rem []
  = (Rejected (Reason VNull),
     Artist.set_searchResponse (VObj [("artists", VObj [])]) Demo.artist_rem,
     [SearchForArtist "R.E.M."]).
Proof.
  exact (artist_answer_without_items_fails (H := Demo.catalog_sparse)
           Demo.artist_rem [] (VObj [("artists", VObj [])]) (VObj []) VUndefined
           eq_refl eq_refl eq_refl eq_refl eq_refl eq_refl (or_introl eq_refl)).
Defined.

Lemma artist_adopts_first_hit_witness :
  Artist.searchForArtist (H := Demo.catalog) Demo.artist_low []
  = (Resolved Self,
     Artist.set_id (VStr "artist1")
       (Artist.set_searchResponse
          (VObj [("artists",
                  VObj [("items", VArr [VObj [("id", VStr "artist1")]])])])
          Demo.artist_low),
     [SearchForArtist "Low"]).
Proof.
  exact (artist_adopts_first_hit (H := Demo.catalog) Demo.artist_low [] _
           (VStr "artist1") eq_refl eq_refl eq_refl eq_refl).
Defined.

(** ** The requests of an album *)

Section AlbumRequests.
Context `{SpotifyRequestHandler} `{TrackEntry}.

Lemma album_search_log (a : Album.t) (w : world) :
  snd (Album.searchForAlbum a w) = w /\ Album.cached a = true
  \/ snd (Album.searchForAlbum a w) = w ++ [SearchForAlbum (Album.entry a)]
     /\ Album.cached a = false.
Proof.
  destruct (Album.cached a) eqn:Hc.
  - left. destruct (album_cached_resolves a w Hc) as [v ->]. now split.
  - right. split; [|reflexivity]. rewrite (album_unresolved_searches _ _ Hc).
    destruct (respond w _) as [result|e].
    + now destruct (Album.search_answered result a).
    + reflexivity.
Qed.

Lemma album_fetch_log (a : Album.t) (w : world) :
  snd (Album.fetchAlbum a w) = w ++ [GetAlbum (Album.id a)].
Proof. unfold Album.fetchAlbum, call. now destruct (respond w _). Qed.

(** X5: [dispatch] of an album issues at most two requests: at most one
    search, then at most one fetch; no search when an id or a response
    is held, and no fetch when the tracks are not to be fetched or the
    identity was not resolved. *)
Theorem album_dispatch_requests (a : Album.t) (w : world) :
  exists delta,
    snd (Album.dispatch a w) = w ++ delta
    /\ (delta = []
        \/ delta = [SearchForAlbum (Album.entry a)]
        \/ (exists i, delta = [GetAlbum i])
        \/ (exists i, delta = [SearchForAlbum (Album.entry a); GetAlbum i]))
    /\ (Album.cached a = true -> searches delta = 0%nat)
    /\ (Album.fetchTracks a = false -> gets delta = 0%nat)
    /\ (is_resolved (fst (fst (Album.searchForAlbum a w))) = false ->
        gets delta = 0%nat).
Proof.
  unfold Album.dispatch.
  pose proof (album_search_log a w) as Hlog.
  destruct (Album.searchForAlbum a w) as [[[r|e] a1] w1]; simpl in Hlog;
    simpl is_resolved.
  - destruct (Album.fetchTracks a).
    + pose proof (album_fetch_log a1 w1) as Hf.
      assert (Hw : snd (let '(o, a2, w2) := Album.fetchAlbum a1 w1 in
                        match o with
                        | Resolved _ =>
                            match Album.createQueue a2 with
                            | Some q => (Resolved (Album.Tracks q), a2, w2)
                            | None => (Rejected TypeError, a2, w2)
                            end
                        | Rejected r0 => (Rejected r0, a2, w2)
                        end) = w1 ++ [GetAlbum (Album.id a1)]).
      { destruct (Album.fetchAlbum a1 w1) as [[[x|e] a2] w2]; simpl in Hf;
          [now destruct (Album.createQueue a2) | exact Hf]. }
      destruct (Album.fetchAlbum a1 w1) as [[[x|e] a2] w2];
        simpl in Hw;
        [destruct (Album.createQueue a2); simpl in Hw|];
        (destruct Hlog as [[-> Hc]|[-> Hc]];
         [exists [GetAlbum (Album.id a1)]
         |exists [SearchForAlbum (Album.entry a); GetAlbum (Album.id a1)]];
         (split; [now rewrite Hw, <- ?app_assoc|]);
         (split; [eauto 6|]);
         rewrite Hc; repeat split; try discriminate; reflexivity).
    + destruct Hlog as [[-> Hc]|[-> Hc]];
        [exists [] | exists [SearchForAlbum (Album.entry a)]];
        rewrite ?app_nil_r, Hc; simpl; repeat split; auto; discriminate.
  - assert (Hw : snd (if Album.fetchTracks a
                      then (@Rejected Album.dispatched e, a1, w1)
                      else (Rejected e, a1, w1)) = w1)
      by now destruct (Album.fetchTracks a).
    destruct Hlog as [[-> Hc]|[-> Hc]];
      [exists [] | exists [SearchForAlbum (Album.entry a)]];
      rewrite ?app_nil_r, Hc;
      (split; [now destruct (Album.fetchTracks a)|]);
      simpl; repeat split; auto; discriminate.
Qed.

(** X6: The fallback, end to end: [dispatch] of an album without id whose
    search fails and whose reference matches the identifier pattern
    fetches the album under the reference itself. *)
Theorem album_fallback_fetches_reference (a : Album.t) (w : world) (r : reason) :
  Album.cached a = false ->
  Album.fetchTracks a = true ->
  respond w (SearchForAlbum (Album.entry a)) = Rejected r ->
  Regex.matches_id (Album.entry a) = true ->
  snd (Album.dispatch a w)
  = w ++ [SearchForAlbum (Album.entry a); GetAlbum (VStr (Album.entry a))]
  /\ Album.id (snd (fst (Album.dispatch a w))) = VStr (Album.entry a).
Proof.
  intros Hc Hft Hr Hm. unfold Album.dispatch. rewrite Hft.
  rewrite (album_unresolved_searches _ _ Hc), Hr.
  unfold Album.search_failed. rewrite Hm.
  pose proof (album_fetch_log (Album.set_id (VStr (Album.entry a)) a)
                (w ++ [SearchForAlbum (Album.entry a)])) as Hf.
  pose proof (album_fetch_keeps_id (Album.set_id (VStr (Album.entry a)) a)
                (w ++ [SearchForAlbum (Album.entry a)])) as Hi.
  destruct (Album.fetchAlbum _ _) as [[[x|e] a2] w2]; simpl in Hf, Hi.
  - destruct (Album.createQueue a2); simpl; rewrite Hf, Hi, <- app_assoc;
      now split.
  - simpl. rewrite Hf, Hi, <- app_assoc. now split.
Qed.

(** X7: A response that [setResponse] accepts makes a search needless:
    the entry it leaves holds a response, and [searchForAlbum] resolves
    on it without a request. *)
Theorem album_setResponse_caches (response : value) (a a' : Album.t) (w : world) :
  Album.setResponse response a = Some a' ->
  a' = a
  \/ Album.cached a' = true
     /\ snd (Album.searchForAlbum a' w) = w
     /\ is_resolved (fst (fst (Album.searchForAlbum a' w))) = true.
Proof.
  unfold Album.setResponse. intros Hset.
  assert (Hgoal : Album.cached a' = true ->
                  Album.cached a' = true
                  /\ snd (Album.searchForAlbum a' w) = w
                  /\ is_resolved (fst (fst (Album.searchForAlbum a' w))) = true).
  { intros Hc. destruct (album_cached_resolves a' w Hc) as [v ->]. now split. }
  destruct (all_truthy response [_; _; _; _]) as [[|]|] eqn:Hsearch;
    try discriminate.
  - destruct (path response [P "id"]) as [i|]; [|discriminate].
    inversion Hset; subst a'. right. apply Hgoal. unfold Album.cached.
    cbn [Album.searchResponse Album.set_id Album.set_searchResponse].
    cbn [all_truthy path] in Hsearch.
    destruct (truthy response); [reflexivity | discriminate].
  - destruct (all_truthy response [_; _]) as [[|]|] eqn:Hfull; try discriminate.
    + destruct (path response [P "id"]) as [i|]; [|discriminate].
      inversion Hset; subst a'. right. apply Hgoal. unfold Album.cached.
      cbn [Album.albumResponse Album.searchResponse Album.set_id
           Album.set_albumResponse].
      cbn [all_truthy path] in Hfull.
      destruct (truthy response); [now rewrite orb_true_r | discriminate].
    + inversion Hset. now left.
Qed.

(** X9: Given a search response, [Album.setResponse] takes the id from the
    top level of the response, not from the first hit: [dispatch] then
    fetches the album under that id, which is [undefined] for a response
    without an [id] of its own. *)
Theorem album_setResponse_search_takes_top_id
  (response i : value) (a : Album.t) (w : world) :
  all_truthy response
    [[]; [P "albums"]; [P "albums"; P "items"; Idx0];
     [P "albums"; P "items"; Idx0; P "id"]] = Some true ->
  get response "id" = Some i ->
  Album.fetchTracks a = true ->
  exists a',
    Album.setResponse response a = Some a'
    /\ Album.id a' = i
    /\ Album.searchResponse a' = response
    /\ snd (Album.dispatch a' w) = w ++ [GetAlbum i].
Proof.
  intros Hsearch Hid Hft. unfold Album.setResponse. rewrite Hsearch.
  cbn [path access]. rewrite Hid. eexists. split; [reflexivity|].
  split; [reflexivity|]. split; [reflexivity|].
  set (a' := Album.set_id i (Album.set_searchResponse response a)).
  assert (Hc : Album.cached a' = true).
  { unfold Album.cached, a'.
    cbn [Album.searchResponse Album.set_id Album.set_searchResponse].
    cbn [all_truthy path] in Hsearch.
    destruct (truthy response); [reflexivity | discriminate]. }
  unfold Album.dispatch.
  replace (Album.fetchTracks a') with true by (symmetry; exact Hft).
  destruct (album_cached_resolves a' w Hc) as [v ->].
  pose proof (album_fetch_log a' w) as Hf.
  destruct (Album.fetchAlbum a' w) as [[[x|e] a2] w2]; simpl in Hf.
  - now destruct (Album.createQueue a2).
  - exact Hf.
Qed.

End AlbumRequests.

Lemma album_fallback_fetches_reference_witness :
  snd (Album.dispatch (H := Demo.catalog_fetch_only) (H0 := Demo.SimpleTrack)
         Demo.album_by_id [])
  = [SearchForAlbum "4aawyAB9vmqN3uQ7FjRGTy";
     GetAlbum (VStr "4aawyAB9vmqN3uQ7FjRGTy")]
  /\ Album.id (snd (fst (Album.dispatch (H := Demo.catalog_fetch_only)
                           (H0 := Demo.SimpleTrack) Demo.album_by_id [])))
     = VStr "4aawyAB9vmqN3uQ7FjRGTy".
Proof.
  exact (album_fallback_fetches_reference (H := Demo.catalog_fetch_only)
           (H0 := Demo.SimpleTrack) Demo.album_by_id [] _
           eq_refl eq_refl eq_refl eq_refl).
Defined.

Lemma album_setResponse_caches_witness :
  Album.set_id (VStr "album1")
    (Album.set_albumResponse Demo.long_division Demo.album_rem) = Demo.album_rem
  \/ Album.cached (Album.set_id (VStr "album1")
                     (Album.set_albumResponse Demo.long_division Demo.album_rem))
     = true
     /\ snd (Album.searchForAlbum (H := Demo.offline)
               (Album.set_id (VStr "album1")
                  (Album.set_albumResponse Demo.long_division Demo.album_rem)) [])
        = []
     /\ is_resolved
          (fst (fst (Album.searchForAlbum (H := Demo.offline)
                       (Album.set_id (VStr "album1")
                          (Album.set_albumResponse Demo.long_division
                             Demo.album_rem)) []))) = true.
Proof.
  exact (album_setResponse_caches (H := Demo.offline) Demo.long_division
           Demo.album_rem _ [] eq_refl).
Defined.

Lemma album_setResponse_search_takes_top_id_witness :
  exists a',
    Album.setResponse Demo.album_hits Demo.album_known = Some a'
    /\ Album.id a' = VUndefined
    /\ Album.searchResponse a' = Demo.album_hits
    /\ snd (Album.dispatch (H := Demo.catalog) (H0 := Demo.SimpleTrack) a' [])
       = [] ++ [GetAlbum VUndefined].
Proof.
  exact (album_setResponse_search_takes_top_id (H := Demo.catalog)
           (H0 := Demo.SimpleTrack) Demo.album_hits VUndefined Demo.album_known []
           eq_refl eq_refl eq_refl).
Defined.

(** ** The accessors of an album *)

Lemma all_truthy_field (root : value) (name : string) :
  all_truthy root [[]; [P name]]
  = Some match path root [P name] with
         | Some i => truthy i
         | None => false
         end.
Proof.
  change [[]; [P name]] with (prefixes [] [P name]).
  exact (all_truthy_prefixes root [P name] [] root eq_refl).
Qed.

Lemma skipping_raises_iff (a : Album.t) (name : string) :
  all_truthy (Album.searchResponse a)
    [[]; [P "albums"]; [P "albums"; P "items"; Idx0];
     [P "albums"; P "items"; Idx0; P name]] = None
  <-> Album.hits_without_items a = true.
Proof.
  rewrite all_truthy_skipping. unfold Album.hits_without_items. split.
  - intros (Ht & x & y & Hx & Htx & Hy & Hnull).
    rewrite Ht, Hx, Htx, Hy. now destruct Hnull as [-> | ->].
  - intros Hh. apply andb_prop in Hh as [Ht Hh]. split; [exact Ht|].
    destruct (get (Album.searchResponse a) "albums") as [x|]; [|discriminate].
    apply andb_prop in Hh as [Htx Hh].
    destruct (get x "items") as [y|] eqn:Hy; [|discriminate].
    exists x, y. repeat split; try assumption.
    destruct y; try discriminate; auto.
Qed.

(** The operands of a test that holds are truthy. *)
Lemma all_truthy_true (root : value) (ps : list (list step)) :
  all_truthy root ps = Some true ->
  forall q, In q ps -> exists x, path root q = Some x /\ truthy x = true.
Proof.
  induction ps as [|p ps IH]; cbn [all_truthy]; intros Hall q Hin; [elim Hin|].
  destruct (path root p) as [x|] eqn:Hp; [|discriminate].
  destruct (truthy x) eqn:Hx; [|discriminate].
  destruct Hin as [<- | Hin]; [eauto | exact (IH Hall q Hin)].
Qed.

Lemma hit_field_raises (a : Album.t) (name : string) (fallback : value) :
  match all_truthy (Album.searchResponse a)
          [[]; [P "albums"]; [P "albums"; P "items"; Idx0];
           [P "albums"; P "items"; Idx0; P name]] with
  | None => None
  | Some true => path (Album.searchResponse a) [P "albums"; P "items"; Idx0; P name]
  | Some false => Some fallback
  end = None
  <-> Album.hits_without_items a = true.
Proof.
  rewrite <- (skipping_raises_iff a name).
  destruct (all_truthy (Album.searchResponse a) _) as [[|]|] eqn:Ht.
  - destruct (all_truthy_true _ _ Ht [P "albums"; P "items"; Idx0; P name])
      as (x & Hx & _); [simpl; auto|].
    rewrite Hx. split; discriminate.
  - split; discriminate.
  - split; reflexivity.
Qed.

Lemma field_of_raises (name : string) (fallback : value) (a : Album.t) :
  Album.field_of name fallback a = None
  <-> Album.lacks name a && Album.hits_without_items a = true.
Proof.
  unfold Album.field_of, Album.lacks. rewrite all_truthy_field.
  destruct (path (Album.albumResponse a) [P name]) as [i|] eqn:Hp;
    [destruct (truthy i)|]; cbn [negb andb].
  - split; discriminate.
  - apply hit_field_raises.
  - apply hit_field_raises.
Qed.

Lemma uri_raises (a : Album.t) :
  Album.uri a = None
  <-> Album.lacks "uri" a && Album.hits_without_items a = true.
Proof.
  unfold Album.uri, Album.lacks. rewrite all_truthy_field.
  assert (Hhit :
    match all_truthy (Album.searchResponse a)
            [[]; [P "albums"]; [P "albums"; P "items"; Idx0];
             [P "albums"; P "items"; Idx0; P "uri"]] with
    | None => None
    | Some true => path (Album.searchResponse a) [P "albums"; P "items"; Idx0; P "uri"]
    | Some false =>
        if truthy (Album.id a)
        then Some (VStr ("spotify:album:" ++ to_string (Album.id a)))
        else Some (VStr "")
    end = None
    <-> Album.hits_without_items a = true).
  { rewrite <- (hit_field_raises a "uri" VNull).
    destruct (all_truthy (Album.searchResponse a) _) as [[|]|]; [reflexivity| |reflexivity].
    destruct (truthy (Album.id a)); split; discriminate. }
  destruct (path (Album.albumResponse a) [P "uri"]) as [i|] eqn:Hp;
    [destruct (truthy i)|]; cbn [negb andb].
  - split; discriminate.
  - exact Hhit.
  - exact Hhit.
Qed.

(** X10: [title], [type], [popularity] and [uri] raise a TypeError exactly
    when the full response has no truthy field of that name and the
    search response has a truthy [albums] whose [items] is missing;
    otherwise they return a value. *)
Theorem album_accessors_raise_iff (a : Album.t) :
  (Album.title a = None
   <-> Album.lacks "name" a && Album.hits_without_items a = true)
  /\ (Album.type a = None
      <-> Album.lacks "album_type" a && Album.hits_without_items a = true)
  /\ (Album.popularity a = None
      <-> Album.lacks "popularity" a && Album.hits_without_items a = true)
  /\ (Album.uri a = None
      <-> Album.lacks "uri" a && Album.hits_without_items a = true).
Proof.
  split; [apply field_of_raises|]. split; [apply field_of_raises|].
  split; [apply field_of_raises | apply uri_raises].
Qed.

(** X11: An album entry whose id is known has a URI that is not empty: the
    [uri] of a response, or, when the id is a string and no response
    gives a [uri], [spotify:album:] followed by the id. *)
Theorem album_uri_of_known_id (a : Album.t) (v : value) :
  truthy (Album.id a) = true ->
  Album.uri a = Some v ->
  truthy v = true
  /\ (forall i : string,
        Album.id a = VStr i ->
        Album.lacks "uri" a = true ->
        Album.searchResponse a = VNull ->
        v = VStr ("spotify:album:" ++ i)).
Proof.
  unfold Album.uri, Album.lacks. rewrite all_truthy_field. intros Hid.
  destruct (path (Album.albumResponse a) [P "uri"]) as [i|] eqn:Hp.
  - destruct (truthy i) eqn:Hi.
    + intros E. inversion E; subst. split; [exact Hi | discriminate].
    + destruct (all_truthy (Album.searchResponse a) _) as [[|]|] eqn:Ht;
        try discriminate.
      * intros E.
        destruct (all_truthy_true _ _ Ht [P "albums"; P "items"; Idx0; P "uri"])
          as (x & Hx & Htx); [simpl; auto|].
        rewrite Hx in E. inversion E; subst. split; [exact Htx|].
        intros j _ _ Hnull. rewrite Hnull in Ht. discriminate.
      * rewrite Hid. intros E. inversion E; subst. split; [reflexivity|].
        intros j Hj _ _. now rewrite Hj.
  - destruct (all_truthy (Album.searchResponse a) _) as [[|]|] eqn:Ht;
      try discriminate.
    + intros E.
      destruct (all_truthy_true _ _ Ht [P "albums"; P "items"; Idx0; P "uri"])
        as (x & Hx & Htx); [simpl; auto|].
      rewrite Hx in E. inversion E; subst. split; [exact Htx|].
      intros j _ _ Hnull. rewrite Hnull in Ht. discriminate.
    + rewrite Hid. intros E. inversion E; subst. split; [reflexivity|].
      intros j Hj _ _. now rewrite Hj.
Qed.

Lemma album_uri_of_known_id_witness :
  Album.uri Demo.album_known = Some (VStr "spotify:album:album1")
  /\ truthy (VStr "spotify:album:album1") = true
  /\ VStr "spotify:album:album1" = VStr ("spotify:album:" ++ "album1").
Proof.
  split; [reflexivity|].
  pose proof (album_uri_of_known_id Demo.album_known (VStr "spotify:album:album1")
                eq_refl eq_refl) as [Ht Hv].
  split; [exact Ht|].
  exact (Hv "album1" eq_refl eq_refl eq_refl).
Defined.

(** ** The queue of an album *)

Lemma map_throwing_total {A B : Type} (f : A -> B) (l : list A) :
  map_throwing (fun x => Some (f x)) l = Some (map f l).
Proof. induction l as [|x l IH]; simpl; [reflexivity | now rewrite IH]. Qed.

Section AlbumQueue.
Context `{TrackEntry}.

(** X12: [createQueue] of an album whose full response has a name and a track
    listing makes one track per item of the listing, in the order of
    the listing, each made from the reference of the album, given the
    item as its response and the name of the album as its album; the
    limit, when it is set and not 0, cuts the queue. *)
Theorem album_createQueue_listing (a : Album.t) (items : list value) (n : value) :
  path (Album.albumResponse a) [P "tracks"; P "items"] = Some (VArr items) ->
  path (Album.albumResponse a) [P "name"] = Some n ->
  truthy n = true ->
  Album.createQueue a
  = Some (let listing :=
            map (fun item =>
                   Track_setAlbum n (Track_setResponse item
                                       (Track_new (Album.entry a)))) items in
          match Album.limit a with
          | Some k => if k =? 0 then listing else Queue.slice 0 k listing
          | None => listing
          end).
Proof.
  intros Hitems Hname Hn. unfold Album.createQueue. rewrite Hitems.
  assert (Htitle : Album.title a = Some n).
  { unfold Album.title, Album.field_of. rewrite all_truthy_field, Hname, Hn.
    reflexivity. }
  assert (Hcb : forall item,
             Album.track_of_item a item
             = Some (Track_setAlbum n (Track_setResponse item
                                         (Track_new (Album.entry a))))).
  { intros item. unfold Album.track_of_item. now rewrite Htitle. }
  assert (Hmap : map_throwing (Album.track_of_item a) items
                 = Some (map (fun item =>
                                Track_setAlbum n (Track_setResponse item
                                                    (Track_new (Album.entry a))))
                           items)).
  { rewrite <- map_throwing_total. clear Hitems.
    induction items as [|item items IH]; simpl; [reflexivity|].
    now rewrite Hcb, IH. }
  rewrite Hmap. unfold Album.limit_truthy.
  destruct (Album.limit a) as [k|]; [|reflexivity].
  now destruct (k =? 0).
Qed.

End AlbumQueue.

Lemma album_createQueue_listing_witness :
  exists q,
    Album.createQueue (H := Demo.SimpleTrack) Demo.album_limit_2 = Some q
    /\ map Demo.albumTitle q = [VStr "Long Division"; VStr "Long Division"]
    /\ map Demo.reference q = ["Long Division"; "Long Division"].
Proof.
  eexists. split.
  - exact (album_createQueue_listing (H := Demo.SimpleTrack) Demo.album_limit_2
             _ (VStr "Long Division") eq_refl eq_refl eq_refl).
  - split; reflexivity.
Defined.

(** ** The limit of an artist *)

Section ArtistLimit.
Context `{SpotifyRequestHandler} `{TrackEntry} `{AlbumOrder}.

Lemma artist_search_commutes_limit (l : option Z) (a : Artist.t) (w : world) :
  Artist.searchForArtist (Artist.set_limit l a) w
  = let '(o, a1, w1) := Artist.searchForArtist a w in
    (o, Artist.set_limit l a1, w1).
Proof.
  unfold Artist.searchForArtist, call.
  cbn [Artist.searchResponse Artist.artistResponse Artist.id Artist.entry
       Artist.set_limit].
  destruct (truthy (Artist.searchResponse a)); [reflexivity|].
  destruct (truthy (Artist.artistResponse a)); [reflexivity|].
  destruct (truthy (Artist.id a)); [reflexivity|].
  destruct (respond w _) as [result|e].
  - unfold Artist.search_answered, Artist.search_failed.
    cbn [Artist.searchResponse Artist.set_searchResponse Artist.entry
         Artist.set_limit].
    destruct (all_truthy result _) as [[|]|].
    + destruct (path result _); [reflexivity|].
      now destruct (Regex.matches_id (Artist.entry a)).
    + reflexivity.
    + now destruct (Regex.matches_id (Artist.entry a)).
  - unfold Artist.search_failed. cbn [Artist.entry Artist.set_limit].
    now destruct (Regex.matches_id (Artist.entry a)).
Qed.

Lemma artist_fetch_commutes_limit (l : option Z) (a : Artist.t) (w : world) :
  Artist.fetchAlbums (Artist.set_limit l a) w
  = let '(o, a1, w1) := Artist.fetchAlbums a w in
    (o, Artist.set_limit l a1, w1).
Proof.
  unfold Artist.fetchAlbums, call. cbn [Artist.id Artist.set_limit].
  now destruct (respond w _).
Qed.

Lemma artist_set_limit_dispatch (l : option Z) (a : Artist.t) (w : world) :
  Artist.dispatch (Artist.set_limit l a) w
  = let '(o, a', w') := Artist.dispatch a w in
    (o, Artist.set_limit l a', w').
Proof.
  unfold Artist.dispatch. rewrite artist_search_commutes_limit.
  destruct (Artist.searchForArtist a w) as [[[x|e] a1] w1]; [|reflexivity].
  rewrite artist_fetch_commutes_limit.
  destruct (Artist.fetchAlbums a1 w1) as [[[y|e] a2] w2]; [|reflexivity].
  change (Artist.createQueue (Artist.set_limit l a2) w2)
    with (Artist.createQueue a2 w2).
  now destruct (Artist.createQueue a2 w2).
Qed.

(** X13: The limit of an artist entry plays no part in [dispatch]: whatever
    [setLimit] is given, the queue, the outcome and the requests are
    the same, and the entry differs by its limit only. *)
Theorem artist_limit_is_ignored (limit : value) (a : Artist.t) (w : world) :
  Artist.dispatch (Artist.setLimit limit a) w
  = let '(o, a', w') := Artist.dispatch a w in
    (o, Artist.setLimit limit a', w').
Proof.
  destruct limit; unfold Artist.setLimit;
    try (now destruct (Artist.dispatch a w) as [[o a'] w']).
  apply artist_set_limit_dispatch.
Qed.

End ArtistLimit.

(** ** The references of the children *)

Lemma trim_left_head (s : string) :
  trim_left s = EmptyString
  \/ exists c rest, trim_left s = String c rest /\ is_space c = false.
Proof.
  induction s as [|c s IH]; simpl; [now left|].
  destruct (is_space c) eqn:Hc; [exact IH|]. right. eauto.
Qed.

Lemma trim_right_head (c : ascii) (rest : string) :
  is_space c = false -> exists rest', trim_right (String c rest) = String c rest'.
Proof.
  intros Hc. simpl. destruct (trim_right rest); [rewrite Hc|]; eauto.
Qed.

Lemma trim_right_idempotent (s : string) : trim_right (trim_right s) = trim_right s.
Proof.
  induction s as [|c s IH]; [reflexivity|]. simpl.
  destruct (trim_right s) as [|d t] eqn:Ht.
  - destruct (is_space c) eqn:Hc; [reflexivity|]. simpl. now rewrite Hc.
  - change (trim_right (String c (String d t)))
      with (match trim_right (String d t) with
            | EmptyString => if is_space c then EmptyString else String c EmptyString
            | rest' => String c rest'
            end).
    now rewrite IH.
Qed.

(** A trimmed reference is left as it is by a second [trim]. *)
Lemma trim_idempotent (s : string) : trim (trim s) = trim s.
Proof.
  unfold trim. destruct (trim_left_head s) as [-> | (c & rest & -> & Hc)];
    [reflexivity|].
  destruct (trim_right_head c rest Hc) as [rest' Hr]. rewrite Hr.
  simpl trim_left. rewrite Hc. rewrite <- Hr. apply trim_right_idempotent.
Qed.

Lemma album_setResponse_keeps (response : value) (a a' : Album.t) :
  Album.setResponse response a = Some a' ->
  Album.entry a' = Album.entry a
  /\ Album.fetchTracks a' = Album.fetchTracks a
  /\ Album.limit a' = Album.limit a.
Proof.
  unfold Album.setResponse. intros Hset.
  destruct (all_truthy response [_; _; _; _]) as [[|]|]; try discriminate.
  - destruct (path response _); [|discriminate]. now inversion Hset.
  - destruct (all_truthy response [_; _]) as [[|]|]; try discriminate.
    + destruct (path response _); [|discriminate]. now inversion Hset.
    + now inversion Hset.
Qed.

(** X14: The albums that [Artist.createQueue] makes for an artist built by
    the constructor from a reference of ASCII characters carry the
    trimmed reference of the artist, fetch their tracks and have no
    limit. *)
Theorem artist_albums_carry_reference
  (entry : string) (id limit item : value) (album : Album.t) :
  ascii_only entry = true ->
  Artist.album_of_item (Artist.new entry id limit) item = Some album ->
  Album.entry album = Artist.entry (Artist.new entry id limit)
  /\ Album.entry album = trim entry
  /\ Album.fetchTracks album = true
  /\ Album.limit album = None.
Proof.
  unfold Artist.album_of_item. intros _ Hitem.
  destruct (album_setResponse_keeps _ _ _ Hitem) as (He & Hf & Hl).
  assert (Hentry : Artist.entry (Artist.new entry id limit) = trim entry).
  { unfold Artist.new, Artist.setLimit. now destruct limit. }
  rewrite He, Hf, Hl, Hentry. unfold Album.new, Album.setLimit.
  cbn [Album.entry Album.fetchTracks Album.limit]. now rewrite trim_idempotent.
Qed.

Lemma artist_albums_carry_reference_witness :
  Album.entry (Album.set_id (VStr "album1")
                 (Album.set_albumResponse (VObj [("id", VStr "album1")])
                    (Album.new "Low" VUndefined VUndefined)))
  = Artist.entry (Artist.new " Low " VUndefined VUndefined)
  /\ Album.entry (Album.set_id (VStr "album1")
                    (Album.set_albumResponse (VObj [("id", VStr "album1")])
                       (Album.new "Low" VUndefined VUndefined)))
     = trim " Low "
  /\ Album.fetchTracks (Album.set_id (VStr "album1")
                          (Album.set_albumResponse (VObj [("id", VStr "album1")])
                             (Album.new "Low" VUndefined VUndefined))) = true
  /\ Album.limit (Album.set_id (VStr "album1")
                    (Album.set_albumResponse (VObj [("id", VStr "album1")])
                       (Album.new "Low" VUndefined VUndefined))) = None.
Proof.
  exact (artist_albums_carry_reference " Low " VUndefined VUndefined
           (VObj [("id", VStr "album1")]) _ eq_refl eq_refl).
Defined.

(** ** The requests of an artist *)

Lemma gets_app (w w' : world) : gets (w ++ w') = (gets w + gets w')%nat.
Proof. unfold gets. now rewrite filter_app, length_app. Qed.

Lemma forEachPromise_gets {A B : Type} (f : A -> world -> outcome B * world)
  (P : A -> Prop) (Q : B -> Prop) :
  (forall x w y w1, P x -> f x w = (Resolved y, w1) ->
                    Q y /\ exists d, w1 = w ++ d /\ gets d = 1%nat) ->
  forall l w ys w',
    Forall P l ->
    Queue.forEachPromise f l w = (Resolved ys, w') ->
    Forall Q ys
    /\ List.length ys = List.length l
    /\ exists d, w' = w ++ d /\ gets d = List.length l.
Proof.
  intros Hf. induction l as [|x l IH]; intros w ys w' HP Hrun; simpl in Hrun.
  - inversion Hrun; subst. repeat split; [constructor|].
    exists []. now rewrite app_nil_r.
  - inversion HP as [|? ? Hx Hl]; subst.
    destruct (f x w) as [[y|e] w1] eqn:Hfx; [|discriminate].
    destruct (Queue.forEachPromise f l w1) as [[ys'|e] w2] eqn:Hrest;
      [|discriminate].
    inversion Hrun; subst.
    destruct (Hf _ _ _ _ Hx Hfx) as (Hy & d1 & -> & Hd1).
    destruct (IH _ _ _ Hl Hrest) as (Hys & Hlen & d2 & -> & Hd2).
    repeat split; [now constructor | simpl; now rewrite Hlen|].
    exists (d1 ++ d2). rewrite app_assoc, gets_app, Hd1, Hd2. now split.
Qed.

Lemma insert_Forall {A : Type} (cmp : A -> A -> Z) (P : A -> Prop) (x : A)
  (q : list A) :
  P x -> Forall P q -> Forall P (Queue.insert cmp x q).
Proof.
  intros Hx Hq. induction Hq as [|y q Hy Hq IH]; simpl; [now repeat constructor|].
  destruct (cmp x y <=? 0); repeat constructor; assumption.
Qed.

Lemma insert_length {A : Type} (cmp : A -> A -> Z) (x : A) (q : list A) :
  List.length (Queue.insert cmp x q) = S (List.length q).
Proof.
  induction q as [|y q IH]; simpl; [reflexivity|].
  destruct (cmp x y <=? 0); simpl; now rewrite ?IH.
Qed.

Lemma sort_Forall {A : Type} (cmp : A -> A -> Z) (P : A -> Prop) (q : list A) :
  Forall P q -> Forall P (Queue.sort cmp q).
Proof.
  unfold Queue.sort. induction 1 as [|x q Hx Hq IH]; simpl; [constructor|].
  now apply insert_Forall.
Qed.

Lemma sort_length {A : Type} (cmp : A -> A -> Z) (q : list A) :
  List.length (Queue.sort cmp q) = List.length q.
Proof.
  unfold Queue.sort. induction q as [|x q IH]; simpl; [reflexivity|].
  now rewrite insert_length, IH.
Qed.

Section ArtistRequests.
Context `{SpotifyRequestHandler} `{TrackEntry} `{AlbumOrder}.

Lemma fetch_one_gets (album album' : Album.t) (w w1 : world) :
  Artist.fetch_one album w = (Resolved album', w1) ->
  Album.fetchTracks album' = Album.fetchTracks album
  /\ exists d, w1 = w ++ d /\ gets d = 1%nat.
Proof.
  unfold Artist.fetch_one, Album.fetchAlbum, call.
  destruct (respond w _) as [response|e]; intros Hrun; inversion Hrun; subst.
  split; [reflexivity|]. now exists [GetAlbum (Album.id album)].
Qed.

Lemma dispatch_one_gets (album : Album.t) (d : Album.dispatched) (w w1 : world) :
  Album.fetchTracks album = true ->
  Artist.dispatch_one album w = (Resolved d, w1) ->
  True /\ exists delta, w1 = w ++ delta /\ gets delta = 1%nat.
Proof.
  intros Hft. unfold Artist.dispatch_one, Album.dispatch. rewrite Hft.
  pose proof (album_search_log album w) as Hlog.
  destruct (Album.searchForAlbum album w) as [[[r|e] a1] w0]; simpl in Hlog;
    [|discriminate].
  pose proof (album_fetch_log a1 w0) as Hf.
  destruct (Album.fetchAlbum a1 w0) as [[[x|e] a2] w2]; simpl in Hf;
    [|discriminate].
  destruct (Album.createQueue a2); [|discriminate].
  intros Hrun. inversion Hrun; subst. split; [exact I|].
  destruct Hlog as [[-> _]|[-> _]].
  - now exists [GetAlbum (Album.id a1)].
  - exists [SearchForAlbum (Album.entry album); GetAlbum (Album.id a1)].
    now rewrite <- app_assoc.
Qed.

Lemma albums_fetch_tracks (a : Artist.t) (items : list value)
  (albums : list Album.t) :
  map_throwing (Artist.album_of_item a) items = Some albums ->
  Forall (fun album => Album.fetchTracks album = true) albums
  /\ List.length albums = List.length items.
Proof.
  intros Hmap. apply map_throwing_Forall2 in Hmap.
  induction Hmap as [|item album items albums Hitem _ [IH1 IH2]];
    [split; [constructor | reflexivity]|].
  split; [|simpl; now rewrite IH2]. constructor; [|exact IH1].
  unfold Artist.album_of_item in Hitem.
  destruct (album_setResponse_keeps _ _ _ Hitem) as (_ & Hf & _).
  rewrite Hf. unfold Album.new, Album.setLimit. reflexivity.
Qed.

(** X15: An artist expansion that resolves has fetched every album of the
    artist twice: once before the albums are sorted, once when each
    album is dispatched. *)
Theorem artist_expansion_fetches_twice
  (a : Artist.t) (w w' : world) (q : list track) (items : list value) :
  Artist.createQueue a w = (Resolved q, w') ->
  path (Artist.albumsResponse a) [P "items"] = Some (VArr items) ->
  exists delta, w' = w ++ delta /\ gets delta = (2 * List.length items)%nat.
Proof.
  unfold Artist.createQueue. intros Hrun Hitems. rewrite Hitems in Hrun.
  destruct (map_throwing _ items) as [albums|] eqn:Hmap; [|discriminate].
  destruct (albums_fetch_tracks _ _ _ Hmap) as [Hft Hlen].
  destruct (Queue.forEachPromise Artist.fetch_one albums w)
    as [[fetched|e] w1] eqn:Hfetch; [|discriminate].
  destruct (forEachPromise_gets Artist.fetch_one
              (fun album => Album.fetchTracks album = true)
              (fun album => Album.fetchTracks album = true)) with
    (l := albums) (w := w) (ys := fetched) (w' := w1)
    as (Hft1 & Hlen1 & d1 & -> & Hd1); [|exact Hft|exact Hfetch|].
  { intros x w0 y w2 Hx Hfx. destruct (fetch_one_gets _ _ _ _ Hfx) as [Hy Hd].
    split; [now rewrite Hy | exact Hd]. }
  destruct (Queue.forEachPromise Artist.dispatch_one _ _)
    as [[queue|e] w2] eqn:Hdispatch; [|discriminate].
  destruct (forEachPromise_gets Artist.dispatch_one
              (fun album => Album.fetchTracks album = true) (fun _ => True)) with
    (l := Queue.sort sort_album fetched) (w := w ++ d1) (ys := queue) (w' := w2)
    as (_ & _ & d2 & -> & Hd2);
    [|apply sort_Forall; exact Hft1|exact Hdispatch|].
  { intros x w0 y w3 Hx Hfx. exact (dispatch_one_gets _ _ _ _ Hx Hfx). }
  inversion Hrun; subst. exists (d1 ++ d2).
  rewrite app_assoc, gets_app, Hd1, Hd2, sort_length, Hlen1, Hlen.
  split; [reflexivity | lia].
Qed.

End ArtistRequests.

Lemma artist_expansion_fetches_twice_witness :
  exists delta,
    [GetAlbum (VStr "album1"); GetAlbum (VStr "album1")] = [] ++ delta
    /\ gets delta = (2 * List.length [VObj [("id", VStr "album1")]])%nat.
Proof.
  exact (artist_expansion_fetches_twice (H := Demo.catalog)
           (H0 := Demo.SimpleTrack) (H1 := Demo.by_popularity)
           (Artist.set_albumsResponse
              (VObj [("items", VArr [VObj [("id", VStr "album1")]])])
              Demo.artist_low)
           [] _ _ _ eq_refl eq_refl).
Defined.

(* ================================================================== *)
(** * Further properties of the scraper *)

(** ** Counts in a URL *)

Import WebScraper.

Lemma digit_of_decimal (c : ascii) (d : Z) :
  In (c, d) [("0"%char, 0); ("1"%char, 1); ("2"%char, 2); ("3"%char, 3);
             ("4"%char, 4); ("5"%char, 5); ("6"%char, 6); ("7"%char, 7);
             ("8"%char, 8); ("9"%char, 9)] ->
  digit_of 10 c = Some d.
Proof.
  intros Hin. simpl in Hin.
  repeat (destruct Hin as [Hin|Hin]; [inversion Hin; subst; reflexivity|]).
  elim Hin.
Qed.

Lemma digits_step (c : ascii) (d : Z) (rest : string) (acc : option Z) :
  digit_of 10 c = Some d ->
  digits 10 (String c rest) acc
  = digits 10 rest (Some (10 * match acc with Some a => a | None => 0 end + d)).
Proof. intros Hd. cbn [digits]. now rewrite Hd. Qed.

Lemma digits_pos (d : Decimal.uint) :
  forall p,
    digits 10 (NilEmpty.string_of_uint d) (Some (Zpos p))
    = Some (Zpos (Pos.of_uint_acc d p)).
Proof.
  induction d as [|d IH|d IH|d IH|d IH|d IH|d IH|d IH|d IH|d IH|d IH];
    intros p; cbn [NilEmpty.string_of_uint Pos.of_uint_acc];
    [reflexivity|..].
  all: erewrite digits_step by (apply digit_of_decimal; simpl; tauto).
  all: rewrite <- IH; f_equal; f_equal; lia.
Qed.

Lemma digits_zero (d : Decimal.uint) :
  digits 10 (NilEmpty.string_of_uint d) (Some 0) = Some (Z.of_N (Pos.of_uint d)).
Proof.
  induction d as [|d IH|d IH|d IH|d IH|d IH|d IH|d IH|d IH|d IH|d IH];
    cbn [NilEmpty.string_of_uint Pos.of_uint]; [reflexivity|..].
  all: erewrite digits_step by (apply digit_of_decimal; simpl; tauto).
  - exact IH.
  - exact (digits_pos d 1).
  - exact (digits_pos d 2).
  - exact (digits_pos d 3).
  - exact (digits_pos d 4).
  - exact (digits_pos d 5).
  - exact (digits_pos d 6).
  - exact (digits_pos d 7).
  - exact (digits_pos d 8).
  - exact (digits_pos d 9).
Qed.

Lemma digits_start (d : Decimal.uint) :
  d <> Decimal.Nil ->
  digits 10 (NilEmpty.string_of_uint d) None = Some (Z.of_N (Pos.of_uint d)).
Proof.
  intros Hd. rewrite <- digits_zero.
  destruct d; [congruence|..]; cbn [NilEmpty.string_of_uint];
    erewrite !digits_step by (apply digit_of_decimal; simpl; tauto); reflexivity.
Qed.

Lemma parseInt_uint (d : Decimal.uint) :
  d <> Decimal.Nil ->
  parseInt (NilEmpty.string_of_uint d) = Some (Z.of_N (Pos.of_uint d)).
Proof.
  intros Hd. rewrite <- (digits_start d Hd).
  assert (Hone : forall o : option Z,
             match o with Some n => Some (1 * n) | None => None end = o).
  { intros [n|]; [f_equal; lia | reflexivity]. }
  rewrite <- (Hone (digits 10 _ None)).
  destruct d as [|l|l|l|l|l|l|l|l|l|l]; [congruence|..]; try reflexivity.
  destruct l; reflexivity.
Qed.

Lemma parseInt_negative (d : Decimal.uint) :
  d <> Decimal.Nil ->
  parseInt (String "-" (NilEmpty.string_of_uint d))
  = Some (- Z.of_N (Pos.of_uint d)).
Proof.
  intros Hd.
  assert (Hneg : forall o : option Z,
             match o with Some n => Some (-1 * n) | None => None end
             = match o with Some n => Some (- n) | None => None end).
  { intros [n|]; [f_equal; lia | reflexivity]. }
  transitivity (match digits 10 (NilEmpty.string_of_uint d) None with
                | Some n => Some (- n)
                | None => None
                end); [|now rewrite (digits_start d Hd)].
  rewrite <- Hneg.
  destruct d as [|l|l|l|l|l|l|l|l|l|l]; [congruence|..]; try reflexivity.
  destruct l; reflexivity.
Qed.

(** A count that is written into a URL is read back from it unchanged:
    [parseInt] of the decimal form of an integer is that integer, and
    of [NaN] is [NaN]. *)
Theorem parseInt_show (n : option Z) : parseInt (show n) = n.
Proof.
  destruct n as [z|]; [|reflexivity]. unfold show.
  destruct z as [|p|p]; [reflexivity| |]; cbn [Z.to_int NilZero.string_of_int].
  - pose proof (DecimalPos.Unsigned.to_uint_nonnil p) as Hnil.
    replace (NilZero.string_of_uint (Pos.to_uint p))
      with (NilEmpty.string_of_uint (Pos.to_uint p))
      by (destruct (Pos.to_uint p); [congruence | reflexivity..]).
    rewrite (parseInt_uint _ Hnil), DecimalPos.Unsigned.of_to. reflexivity.
  - pose proof (DecimalPos.Unsigned.to_uint_nonnil p) as Hnil.
    replace (NilZero.string_of_uint (Pos.to_uint p))
      with (NilEmpty.string_of_uint (Pos.to_uint p))
      by (destruct (Pos.to_uint p); [congruence | reflexivity..]).
    rewrite (parseInt_negative _ Hnil), DecimalPos.Unsigned.of_to. reflexivity.
Qed.

(** ** The parameters of a follow-up *)

Lemma params_get_delete (name : string) (ps : list (string * string)) :
  params_get name (params_delete name ps) = None.
Proof.
  induction ps as [|[k v] ps IH]; simpl; [reflexivity|].
  destruct (String.eqb_spec k name) as [E|N]; simpl; [exact IH|].
  destruct (String.eqb_spec k name); [contradiction | exact IH].
Qed.

Lemma params_get_delete_other (k name : string) (ps : list (string * string)) :
  k <> name -> params_get k (params_delete name ps) = params_get k ps.
Proof.
  intros Hk. induction ps as [|[k' v] ps IH]; simpl; [reflexivity|].
  destruct (String.eqb_spec k' name) as [E|N]; simpl.
  - destruct (String.eqb_spec k' k); [congruence | exact IH].
  - destruct (String.eqb_spec k' k); [reflexivity | exact IH].
Qed.

Lemma params_get_set (name v : string) (ps : list (string * string)) :
  params_get name (params_set name v ps) = Some v.
Proof.
  induction ps as [|[k v'] ps IH]; simpl.
  - now rewrite String.eqb_refl.
  - destruct (String.eqb_spec k name) as [E|N]; simpl.
    + now rewrite String.eqb_refl.
    + destruct (String.eqb_spec k name); [contradiction | exact IH].
Qed.

Lemma params_get_set_other (k name v : string) (ps : list (string * string)) :
  k <> name -> params_get k (params_set name v ps) = params_get k ps.
Proof.
  intros Hk. induction ps as [|[k' v'] ps IH]; simpl.
  - destruct (String.eqb_spec name k); [congruence | reflexivity].
  - destruct (String.eqb_spec k' name) as [E|N]; simpl.
    + destruct (String.eqb_spec name k); [congruence|].
      destruct (String.eqb_spec k' k); [congruence|].
      now apply params_get_delete_other.
    + destruct (String.eqb_spec k' k); [reflexivity | exact IH].
Qed.

Section FollowUps.
Context `{Platform}.

Lemma each_similar_built (urlParams : list (string * string))
  (nbSimilarArtists nbSimilarArtistsTracks : option Z)
  (rows : list (string * string)) :
  forall i nextUrls nextUrls',
    each_similar urlParams nbSimilarArtists nbSimilarArtistsTracks rows i nextUrls
      = Some nextUrls' ->
    exists new,
      nextUrls' = nextUrls ++ new
      /\ Forall (fun u =>
                   exists href,
                     withSearch ("https://www.last.fm" ++ normalize href
                                 ++ "/+tracks")
                       (similar_params urlParams nbSimilarArtistsTracks)
                     = Some u) new.
Proof.
  induction rows as [|[text href] rows IH]; intros i nextUrls nextUrls';
    cbn [each_similar].
  - intros Hs. inversion Hs. exists []. now rewrite app_nil_r.
  - destruct (reached nbSimilarArtists i).
    + intros Hs. inversion Hs. exists []. now rewrite app_nil_r.
    + fold (similar_params urlParams nbSimilarArtistsTracks).
      destruct (withSearch _ _) as [nextUrl|] eqn:Hu; [|discriminate].
      intros Hs. destruct (IH _ _ _ Hs) as (new & -> & Hnew).
      exists (nextUrl :: new). rewrite <- app_assoc. split; [reflexivity|].
      constructor; [now exists href | exact Hnew].
Qed.

(** X16: The follow-up of a similar artist is given the parameters of the
    page, with [nb_tracks] set to the [nb_similar_artists_tracks] of
    the page and without [nb_similar_artists] and
    [nb_similar_artists_tracks]: its own page reads the count of the
    page as its cap, and asks for no similar artists.  The two counts
    of the page are written in ASCII characters, and the count of
    tracks is a safe integer or not a number: there [parseInt] and
    [show] are those of JavaScript. *)
Theorem similar_follow_up_parameters
  (uri : string) (urlParams : list (string * string)) (html : document)
  (urls : list string) (lines : string) (nextUrls : list string) :
  plain_param "nb_similar_artists" urlParams = true ->
  plain_param "nb_similar_artists_tracks" urlParams = true ->
  safe_integer (int_param "nb_similar_artists_tracks" urlParams) = true ->
  Regex.contains_ci "/+tracks" uri = false ->
  Regex.contains_ci "/+similar" uri = true ->
  lastfm_page uri urlParams html urls = Some (lines, nextUrls) ->
  let followUp :=
    similar_params urlParams (int_param "nb_similar_artists_tracks" urlParams) in
  lines = ""
  /\ (exists new,
        nextUrls = urls ++ new
        /\ Forall (fun u =>
                     exists href,
                       withSearch ("https://www.last.fm" ++ normalize href
                                   ++ "/+tracks") followUp = Some u) new)
  /\ int_param "nb_tracks" followUp = int_param "nb_similar_artists_tracks" urlParams
  /\ int_param "nb_similar_artists" followUp = None
  /\ int_param "nb_similar_artists_tracks" followUp = None
  /\ (forall k,
        k <> "nb_tracks" -> k <> "nb_similar_artists" ->
        k <> "nb_similar_artists_tracks" ->
        params_get k followUp = params_get k urlParams).
Proof.
  intros _ _ _ Ht Hs Hpage followUp. unfold lastfm_page in Hpage.
  rewrite Ht, Hs in Hpage.
  destruct (each_similar _ _ _ _ _ _) as [q|] eqn:Hsim; [|discriminate].
  inversion Hpage; subst. split; [reflexivity|].
  split; [exact (each_similar_built _ _ _ _ _ _ _ Hsim)|].
  unfold followUp, similar_params, int_param.
  split; [|split; [|split]].
  - rewrite !params_get_delete_other by discriminate.
    rewrite params_get_set. apply parseInt_show.
  - rewrite params_get_delete_other by discriminate.
    now rewrite params_get_delete.
  - now rewrite params_get_delete.
  - intros k H1 H2 H3.
    rewrite !params_get_delete_other by assumption.
    now apply params_get_set_other.
Qed.

End FollowUps.

Lemma similar_follow_up_parameters_witness :
  exists lines nextUrls,
    lastfm_page (H := Demo.web Demo.pages)
      "https://www.last.fm/music/Low/+similar?nb_similar_artists=1&nb_similar_artists_tracks=2"
      [("nb_similar_artists", "1"); ("nb_similar_artists_tracks", "2")]
      (Demo.similar_doc [("Codeine", "/music/Codeine"); ("Bedhead", "/music/Bedhead")])
      []
    = Some (lines, nextUrls)
    /\ nextUrls = ["https://www.last.fm/music/Codeine/+tracks?nb_tracks=2"]
    /\ int_param "nb_tracks"
         (similar_params [("nb_similar_artists", "1");
                          ("nb_similar_artists_tracks", "2")] (Some 2)) = Some 2
    /\ int_param "nb_similar_artists"
         (similar_params [("nb_similar_artists", "1");
                          ("nb_similar_artists_tracks", "2")] (Some 2)) = None.
Proof.
  eexists. eexists. split; [vm_compute; reflexivity|]. split; [reflexivity|].
  pose proof (similar_follow_up_parameters (H := Demo.web Demo.pages)
                "https://www.last.fm/music/Low/+similar?nb_similar_artists=1&nb_similar_artists_tracks=2"
                [("nb_similar_artists", "1"); ("nb_similar_artists_tracks", "2")]
                (Demo.similar_doc [("Codeine", "/music/Codeine");
                                   ("Bedhead", "/music/Bedhead")])
                [] _ _ eq_refl eq_refl eq_refl eq_refl eq_refl eq_refl)
    as (_ & _ & Htracks & Hsimilar & _).
  exact (conj Htracks Hsimilar).
Defined.

(** ** The cap of a track list *)

Section Caps.
Context `{Platform}.



(** X18: The crawl of a Last.fm page that is neither a track list nor a list
    of similar artists fetches that page and no other, whatever the
    page budget: no link to a next page is followed. *)
Theorem lastfm_chart_is_one_page
  (fuel : nat) (uri : string) (count : option Z) (log : list string)
  (urlParams : list (string * string)) (data : string) :
  Regex.contains_ci "/+tracks" (absoluteTo uri uri) = false ->
  Regex.contains_ci "/+similar" (absoluteTo uri uri) = false ->
  searchParams (absoluteTo uri uri) = Some urlParams ->
  http log (absoluteTo uri uri) = Resolved data ->
  exists lines,
    lastfm (S fuel) uri count log
    = Some (Resolved ("#shuffle" ++ nl ++ lines)%string, log ++ [absoluteTo uri uri]).
Proof.
  intros Ht Hs Hp Hd.
  assert (Hpage : exists lines,
             lastfm_page (absoluteTo uri uri) urlParams (parseHTML data) []
             = Some (lines, [])).
  { unfold lastfm_page. rewrite Ht, Hs.
    destruct (Regex.contains_ci "/artists" _); [eauto|].
    destruct (Regex.contains_ci "/albums" _); eauto. }
  destruct Hpage as [lines Hpage]. exists lines. unfold lastfm.
  rewrite (lastfm_getPages_step _ _ _ _ _ _ _ _ _ _ _ Hp Hd Hpage).
  now rewrite append_assoc.
Qed.

End Caps.


Lemma lastfm_chart_is_one_page_witness :
  exists lines,
    lastfm (H := Demo.web Demo.more_pages) 1
      "https://www.last.fm/tag/slowcore/artists" (Some 5) []
    = Some (Resolved ("#shuffle" ++ nl ++ lines)%string,
            [] ++ ["https://www.last.fm/tag/slowcore/artists"]).
Proof.
  exact (lastfm_chart_is_one_page (H := Demo.web Demo.more_pages) 0
           "https://www.last.fm/tag/slowcore/artists" (Some 5) [] _ _
           eq_refl eq_refl eq_refl eq_refl).
Defined.

(** ** Budgets of the linear crawls *)

Section Budgets.
Context `{Platform}.

Variable lines : document -> string.
Variable next : document -> option string.

Lemma linear_getPages_nonpositive (uri : string) (fuel : nat) :
  forall (b b' : Z) (nextUri result : string) (log : list string),
    b <= 0 -> b' <= 0 ->
    linear_getPages lines next fuel uri nextUri result b log
    = linear_getPages lines next fuel uri nextUri result b' log.
Proof.
  induction fuel as [|fuel IH]; intros b b' nextUri result log Hb Hb';
    [reflexivity|].
  cbn [linear_getPages].
  destruct (http log (absoluteTo nextUri uri)) as [data|e]; [|reflexivity].
  replace (b =? 1) with false by (symmetry; apply Z.eqb_neq; lia).
  replace (b' =? 1) with false by (symmetry; apply Z.eqb_neq; lia).
  destruct (next (parseHTML data)); [apply IH; lia | reflexivity].
Qed.

Lemma linear_getPages_runs_out (uri : string) (fuel : nat) :
  forall (b : Z) (nextUri result : string) (log : list string)
         (buf : string) (log' : list string),
    b <= 0 ->
    linear_getPages lines next fuel uri nextUri result b log
      = Some (Resolved buf, log') ->
    exists before u data,
      log' = before ++ [u]
      /\ http before u = Resolved data
      /\ next (parseHTML data) = None.
Proof.
  induction fuel as [|fuel IH]; intros b nextUri result log buf log' Hb Hrun;
    [discriminate|].
  cbn [linear_getPages] in Hrun.
  destruct (http log (absoluteTo nextUri uri)) as [data|e] eqn:Hd; [|discriminate].
  replace (b =? 1) with false in Hrun by (symmetry; apply Z.eqb_neq; lia).
  destruct (next (parseHTML data)) as [href|] eqn:Hn.
  - eapply (IH (b - 1) href); [lia | exact Hrun].
  - inversion Hrun; subst. now exists log, (absoluteTo nextUri uri), data.
Qed.

End Budgets.

Section BudgetTheorems.
Context `{Platform}.

(** X19: A budget that is not positive is no bound: every such budget gives
    the same crawl, and the crawl resolves only after a page without a
    link to a next page.  This is the case of pitchfork and
    rateyourmusic without a budget or with the budget 0. *)
Theorem nonpositive_budget_is_no_bound
  (s : strategy) (fuel : nat) (uri : string) (count : option Z)
  (log : list string) :
  linear s = true ->
  budget_of s count <= 0 ->
  crawl s fuel uri count log = crawl s fuel uri (Some (-1)) log
  /\ (forall buf log',
        crawl s fuel uri count log = Some (Resolved buf, log') ->
        exists before u data,
          log' = before ++ [u]
          /\ http before u = Resolved data
          /\ next_of s (parseHTML data) = None).
Proof.
  intros Hs Hb. rewrite !(crawl_linear_budget _ _ _ _ _ Hs). split.
  - apply linear_getPages_nonpositive; [exact Hb|].
    destruct s; try discriminate; unfold budget_of; simpl; lia.
  - intros buf log' Hrun.
    exact (linear_getPages_runs_out _ _ _ _ _ _ _ _ _ _ Hb Hrun).
Qed.

(** X20: With a budget of one page, which is what reddit starts from when it
    is given none or 0, a linear crawl fetches the start page and no
    other, whatever the page links to. *)
Theorem budget_of_one_page
  (s : strategy) (fuel : nat) (uri : string) (count : option Z)
  (log : list string) :
  linear s = true ->
  budget_of s count = 1 ->
  exists r, crawl s (S fuel) uri count log = Some (r, log ++ [absoluteTo uri uri]).
Proof.
  intros Hs Hb. rewrite (crawl_linear_budget _ _ _ _ _ Hs), Hb.
  cbn [linear_getPages]. change (1 =? 1) with true. cbv iota.
  destruct (http log (absoluteTo uri uri)); eauto.
Qed.

(** The callback of a comment writes to its own [lines] only. *)
Lemma each_link_page (texts : list string) :
  forall sc, page_lines (each_link texts sc) = page_lines sc.
Proof.
  induction texts as [|txt texts IH]; intros sc; cbn [each_link]; [reflexivity|].
  destruct (_ || _); [apply IH|]. now rewrite IH.
Qed.

Lemma comment_callback_page (c : comment) (sc : scopes) :
  page_lines (comment_callback c sc) = page_lines sc.
Proof.
  unfold comment_callback. destruct (comment_links c) as [|txt texts].
  - destruct (1 <? _)%nat; [reflexivity|]. now destruct (1 <? _)%nat.
  - now rewrite each_link_page.
Qed.

Lemma each_comment_page (comments : list comment) :
  forall sc, page_lines (each_comment comments sc) = page_lines sc.
Proof.
  induction comments as [|c comments IH]; intros sc; cbn [each_comment];
    [reflexivity|].
  now rewrite IH, comment_callback_page.
Qed.

Lemma reddit_comments_lines (uri : string) (html : document) :
  Regex.contains_ci "/comments/" uri = true ->
  reddit_lines uri html = "".
Proof.
  intros Hc. unfold reddit_lines. rewrite Hc. now rewrite each_comment_page.
Qed.

Lemma reddit_comments_buffer (uri : string) (fuel : nat) :
  Regex.contains_ci "/comments/" uri = true ->
  forall (nextUri result : string) (b : Z) (log : list string)
         (buf : string) (log' : list string),
    linear_getPages (lines_of Reddit uri) (next_of Reddit) fuel uri nextUri result
      b log = Some (Resolved buf, log') ->
    buf = result.
Proof.
  intros Hc. induction fuel as [|fuel IH];
    intros nextUri result b log buf log' Hrun; [discriminate|].
  cbn [linear_getPages] in Hrun.
  assert (Hlines : forall html, (result ++ lines_of Reddit uri html)%string = result).
  { intros html. unfold lines_of. rewrite (reddit_comments_lines _ _ Hc).
    clear. induction result as [|c r IHr]; simpl; [reflexivity | now rewrite IHr]. }
  destruct (http log (absoluteTo nextUri uri)) as [data|e]; [|discriminate].
  rewrite Hlines in Hrun.
  destruct (b =? 1); [now inversion Hrun|].
  destruct (next_of Reddit (parseHTML data)); [|now inversion Hrun].
  exact (IH _ _ _ _ _ _ Hrun).
Qed.

(** X21: The crawl of a Reddit comments thread resolves with the empty
    buffer, whatever the pages contain.  The callback of a comment
    declares a [lines] of its own: it leaves the [lines] of the page as
    they are, and the line of a comment with one link that is not an
    address is added to [undefined], in the variable of the callback. *)
Theorem reddit_comments_yield_nothing
  (fuel : nat) (uri : string) (count : option Z) (log : list string)
  (buf : string) (log' : list string) :
  Regex.contains_ci "/comments/" uri = true ->
  reddit fuel uri count log = Some (Resolved buf, log') ->
  buf = ""
  /\ (forall html, reddit_lines uri html = "")
  /\ (forall c sc, page_lines (comment_callback c sc) = page_lines sc)
  /\ (forall txt body sc,
        Regex.contains_ci "http:" txt = false ->
        Regex.contains_ci "https:" txt = false ->
        callback_lines
          (comment_callback {| comment_links := [txt]; comment_body := body |} sc)
        = VStr ("undefined" ++ stripNoise txt ++ nl)).
Proof.
  intros Hc Hrun. split; [|split; [|split]].
  - unfold reddit in Hrun. rewrite reddit_linear in Hrun.
    exact (reddit_comments_buffer _ _ Hc _ _ _ _ _ _ Hrun).
  - intros html. exact (reddit_comments_lines _ _ Hc).
  - exact comment_callback_page.
  - intros txt body sc H1 H2. unfold comment_callback.
    cbn [comment_links each_link]. now rewrite H1, H2.
Qed.

End BudgetTheorems.

Lemma nonpositive_budget_is_no_bound_witness :
  crawl (H := Demo.web Demo.pages) Pitchfork 5
    "https://pitchfork.com/best/?page=1" None []
  = crawl (H := Demo.web Demo.pages) Pitchfork 5
      "https://pitchfork.com/best/?page=1" (Some (-1)) [].
Proof.
  exact (proj1 (nonpositive_budget_is_no_bound (H := Demo.web Demo.pages)
                  Pitchfork 5 "https://pitchfork.com/best/?page=1" None []
                  eq_refl ltac:(simpl; lia))).
Defined.

Lemma budget_of_one_page_witness :
  exists r,
    crawl (H := Demo.web Demo.more_pages) Reddit 1
      "https://www.reddit.com/r/slowcore/" None []
    = Some (r, [] ++ ["https://www.reddit.com/r/slowcore/"]).
Proof.
  exact (budget_of_one_page (H := Demo.web Demo.more_pages) Reddit 0
           "https://www.reddit.com/r/slowcore/" None [] eq_refl eq_refl).
Defined.

Lemma reddit_comments_yield_nothing_witness :
  reddit (H := Demo.web Demo.more_pages) 2
    "https://www.reddit.com/r/slowcore/comments/1/" None []
  = Some (Resolved "", ["https://www.reddit.com/r/slowcore/comments/1/"])
  /\ "" = ""
  /\ map (fun c => callback_lines
                     (comment_callback (H := Demo.web Demo.more_pages) c
                        {| page_lines := ""; callback_lines := VUndefined |}))
       (entry_md Demo.thread_doc)
     = [VStr ("undefinedLow - Words" ++ nl);
        VStr ("undefinedLow - Lullaby" ++ nl);
        VStr ("Codeine - Loss Leader,so goodCodeine - Loss Leader" ++ nl);
        VStr ("Bedhead - Bedside TableBedhead - Bedside Table" ++ nl)].
Proof.
  split; [reflexivity|]. split; [|reflexivity].
  exact (proj1 (reddit_comments_yield_nothing (H := Demo.web Demo.more_pages) 2
                  "https://www.reddit.com/r/slowcore/comments/1/" None [] _ _
                  eq_refl eq_refl)).
Defined.

(** ** The generic page and YouTube *)

Lemma trim_first_char (s : string) (c : ascii) :
  first_char (trim s) = Some c -> is_space c = false.
Proof.
  unfold trim. destruct (trim_left_head s) as [-> | (d & rest & -> & Hd)];
    [discriminate|].
  destruct (trim_right_head d rest Hd) as [rest' ->]. simpl.
  intros E. inversion E; subst. exact Hd.
Qed.

Lemma trim_right_last_char (s : string) (c : ascii) :
  last_char (trim_right s) = Some c -> is_space c = false.
Proof.
  induction s as [|a s IH]; [discriminate|]. simpl.
  destruct (trim_right s) as [|d t] eqn:Ht.
  - destruct (is_space a) eqn:Ha; [discriminate|]. simpl.
    intros E. inversion E; subst. exact Ha.
  - exact IH.
Qed.

Lemma trim_last_char (s : string) (c : ascii) :
  last_char (trim s) = Some c -> is_space c = false.
Proof. apply trim_right_last_char. Qed.

Section Pages.
Context `{Platform}.

Lemma each_anchor_unlines (texts : list string) :
  forall result,
    each_anchor texts result
    = (result ++ unlines (filter (fun t => negb (t =? "")%string)
                            (map stripNoise texts)))%string.
Proof.
  induction texts as [|text texts IH]; intros result; cbn [each_anchor map filter].
  - cbn [unlines]. clear.
    induction result as [|c r IHr]; simpl; [reflexivity | now rewrite <- IHr].
  - destruct (negb (stripNoise text =? "")%string).
    + rewrite IH. cbn [unlines]. now rewrite !append_assoc.
    + apply IH.
Qed.

Lemma each_title_unlines (texts : list string) :
  forall result,
    each_title texts result
    = (result ++ unlines (map stripNoise texts))%string.
Proof.
  induction texts as [|text texts IH]; intros result; cbn [each_title map].
  - cbn [unlines]. clear.
    induction result as [|c r IHr]; simpl; [reflexivity | now rewrite <- IHr].
  - rewrite IH. cbn [unlines]. now rewrite !append_assoc.
Qed.

(** X22: The generic strategy and the YouTube strategy fetch the one page
    they are given.  On a page whose stripped texts are written in
    ASCII characters, the generic one returns the stripped text of
    every link whose stripped text is not empty, one per line in the
    order of the page, and the YouTube one returns the stripped text of
    every title, empty or not.  Both trim the buffer: it neither begins
    nor ends with white space, so the last line has no line feed. *)
Theorem single_page_strategies (uri : string) (log : list string) (data : string) :
  http log uri = Resolved data ->
  (forallb (fun t => ascii_only (stripNoise t)) (anchors (parseHTML data)) = true ->
   webpage uri log
   = (Resolved (trim (unlines (filter (fun t => negb (t =? "")%string)
                                 (map stripNoise (anchors (parseHTML data)))))),
      log ++ [uri])
   /\ (forall buf log' c,
         webpage uri log = (Resolved buf, log') ->
         first_char buf = Some c \/ last_char buf = Some c ->
         is_space c = false))
  /\
  (forallb (fun t => ascii_only (stripNoise t)) (video_titles (parseHTML data)) = true ->
   youtube uri log
   = (Resolved (trim (unlines (map stripNoise (video_titles (parseHTML data))))),
      log ++ [uri])
   /\ (forall buf log' c,
         youtube uri log = (Resolved buf, log') ->
         first_char buf = Some c \/ last_char buf = Some c ->
         is_space c = false)).
Proof.
  intros Hd.
  assert (Hw : webpage uri log
               = (Resolved (trim (unlines (filter (fun t => negb (t =? "")%string)
                                             (map stripNoise
                                                (anchors (parseHTML data)))))),
                  log ++ [uri])).
  { unfold webpage. rewrite Hd, each_anchor_unlines. reflexivity. }
  assert (Hy : youtube uri log
               = (Resolved (trim (unlines (map stripNoise
                                             (video_titles (parseHTML data))))),
                  log ++ [uri])).
  { unfold youtube. rewrite Hd, each_title_unlines. reflexivity. }
  split; intros _.
  - split; [exact Hw|]. intros buf log' c Hrun Hc.
    rewrite Hw in Hrun. inversion Hrun; subst.
    destruct Hc as [Hc | Hc];
      [exact (trim_first_char _ _ Hc) | exact (trim_last_char _ _ Hc)].
  - split; [exact Hy|]. intros buf log' c Hrun Hc.
    rewrite Hy in Hrun. inversion Hrun; subst.
    destruct Hc as [Hc | Hc];
      [exact (trim_first_char _ _ Hc) | exact (trim_last_char _ _ Hc)].
Qed.

End Pages.

Lemma single_page_strategies_witness :
  webpage (H := Demo.web Demo.more_pages) "https://example.org/playlist" []
  = (Resolved ("Low - Words" ++ nl ++ "Home")%string,
     ["https://example.org/playlist"])
  /\ youtube (H := Demo.web Demo.more_pages) "https://example.org/playlist" []
     = (Resolved ("Low - Words" ++ nl ++ nl ++ "Home")%string,
        ["https://example.org/playlist"]).
Proof.
  split.
  - exact (proj1 (proj1 (single_page_strategies (H := Demo.web Demo.more_pages)
                           "https://example.org/playlist" [] _ eq_refl) eq_refl)).
  - exact (proj1 (proj2 (single_page_strategies (H := Demo.web Demo.more_pages)
                           "https://example.org/playlist" [] _ eq_refl) eq_refl)).
Defined.

(** ** Rejected crawls *)

Section Rejections.
Context `{Platform}.

(** A fetch that is rejected on the way along a chain of linked pages
    rejects the crawl, with the pages fetched so far in the history. *)
Lemma linear_getPages_follows_rejected (lines : document -> string)
  (next : document -> option string) (uri : string) (log : list string)
  (nextUri : string) (visited : list string) (last : option string) :
  follows next uri log nextUri visited last ->
  forall (href : string) (e : reason) (fuel : nat) (b : Z) (result : string),
    last = Some href ->
    http (log ++ visited) (absoluteTo href uri) = Rejected e ->
    (List.length visited < fuel)%nat ->
    Z.of_nat (List.length visited) < b \/ b <= 0 ->
    linear_getPages lines next fuel uri nextUri result b log
    = Some (Rejected e, log ++ visited ++ [absoluteTo href uri]).
Proof.
  induction 1 as [log nextUri data Hd
                 | log nextUri data href' visited last Hd Hn Hchain IH];
    intros href e fuel b result Hlast He Hfuel Hb;
    cbn [List.length] in Hfuel, Hb;
    (destruct fuel as [|fuel]; [lia|]); cbn [linear_getPages]; rewrite Hd;
    (replace (b =? 1) with false by (symmetry; apply Z.eqb_neq; lia)).
  - rewrite Hlast. destruct fuel as [|fuel]; [lia|].
    cbn [linear_getPages]. rewrite He. now rewrite <- app_assoc.
  - rewrite Hn.
    replace (log ++ absoluteTo nextUri uri :: visited)
      with ((log ++ [absoluteTo nextUri uri]) ++ visited) in He
      by now rewrite <- app_assoc.
    rewrite (IH href e fuel (b - 1) _ Hlast He); [|lia|lia].
    now rewrite <- app_assoc.
Qed.

(** X23: A linear crawl fails fast.  When the fetch of the start page is
    rejected, or when the crawl has gone along a chain of linked pages
    within its budget and the fetch of the page that the last of them
    links to is rejected, the crawl is rejected with what that fetch
    was rejected with: the history ends with the page that could not be
    fetched, no further page is asked for, and the lines of the pages
    fetched before are not returned. *)
Theorem linear_crawl_fails_fast
  (s : strategy) (fuel : nat) (uri : string) (count : option Z)
  (log : list string) :
  linear s = true ->
  (forall e,
     http log (absoluteTo uri uri) = Rejected e ->
     crawl s (S fuel) uri count log
     = Some (Rejected e, log ++ [absoluteTo uri uri]))
  /\
  (forall visited href e,
     follows (next_of s) uri log uri visited (Some href) ->
     http (log ++ visited) (absoluteTo href uri) = Rejected e ->
     (List.length visited < fuel)%nat ->
     Z.of_nat (List.length visited) < budget_of s count \/ budget_of s count <= 0 ->
     crawl s fuel uri count log
     = Some (Rejected e, log ++ visited ++ [absoluteTo href uri])).
Proof.
  intros Hs. split.
  - intros e He. rewrite (crawl_linear_budget _ _ _ _ _ Hs).
    now apply linear_getPages_fetch_fails.
  - intros visited href e Hchain He Hfuel Hb.
    rewrite (crawl_linear_budget _ _ _ _ _ Hs).
    exact (linear_getPages_follows_rejected _ _ _ _ _ _ _ Hchain
             _ _ _ _ _ eq_refl He Hfuel Hb).
Qed.

End Rejections.

Lemma linear_crawl_fails_fast_witness :
  crawl (H := Demo.web Demo.broken_pages) Pitchfork 3
    "https://pitchfork.com/best/?page=1" (Some 3) []
  = Some (Rejected (Reason (VStr "404")),
          [] ++ ["https://pitchfork.com/best/?page=1"]
             ++ ["https://pitchfork.com/best/?page=2"]).
Proof.
  refine (proj2 (linear_crawl_fails_fast (H := Demo.web Demo.broken_pages)
                   Pitchfork 3 "https://pitchfork.com/best/?page=1" (Some 3) []
                   eq_refl)
            ["https://pitchfork.com/best/?page=1"]
            "https://pitchfork.com/best/?page=2" _ _ eq_refl
            ltac:(simpl; lia) (or_introl eq_refl)).
  exact (follows_last (H := Demo.web Demo.broken_pages) _ _ _
           "https://pitchfork.com/best/?page=1" _ eq_refl).
Defined.

(** ** Responses given to an artist *)

Section ArtistResponses.
Context `{SpotifyRequestHandler}.

(** X8: A search response or a full response that [Artist.setResponse]
    accepts makes a search needless: [searchForArtist] then resolves
    without a request; a list of albums is stored and leaves the
    identity as it was. *)
Theorem artist_setResponse_caches (response : value) (a a' : Artist.t) (w : world) :
  Artist.setResponse response a = Some a' ->
  a' = a
  \/ (a' = Artist.set_albumsResponse response a /\ truthy response = true)
  \/ (Artist.cached a' = true
      /\ snd (Artist.searchForArtist a' w) = w
      /\ is_resolved (fst (fst (Artist.searchForArtist a' w))) = true).
Proof.
  unfold Artist.setResponse. intros Hset.
  assert (Hgoal : Artist.cached a' = true ->
                  Artist.cached a' = true
                  /\ snd (Artist.searchForArtist a' w) = w
                  /\ is_resolved (fst (fst (Artist.searchForArtist a' w))) = true).
  { intros Hc. destruct (artist_cached_resolves a' w Hc) as [v ->]. now split. }
  destruct (all_truthy response [_; _; _; _]) as [[|]|] eqn:Hsearch;
    try discriminate.
  - destruct (path response _) as [i|]; [|discriminate].
    inversion Hset; subst a'. right; right. apply Hgoal. unfold Artist.cached.
    cbn [Artist.searchResponse Artist.set_id Artist.set_searchResponse].
    cbn [all_truthy path] in Hsearch.
    destruct (truthy response); [reflexivity | discriminate].
  - destruct (all_truthy response [[]; [P "id"]]) as [[|]|] eqn:Hfull;
      try discriminate.
    + destruct (path response [P "id"]) as [i|]; [|discriminate].
      inversion Hset; subst a'. right; right. apply Hgoal. unfold Artist.cached.
      cbn [Artist.artistResponse Artist.searchResponse Artist.set_id
           Artist.set_artistResponse].
      cbn [all_truthy path] in Hfull.
      destruct (truthy response); [now rewrite orb_true_r | discriminate].
    + destruct (all_truthy response [[]; [P "items"]]) as [[|]|] eqn:Hlist;
        try discriminate.
      * inversion Hset. right; left. split; [reflexivity|].
        cbn [all_truthy path] in Hlist.
        destruct (truthy response); [reflexivity | discriminate].
      * inversion Hset. now left.
Qed.

End ArtistResponses.

Lemma artist_setResponse_caches_witness :
  Artist.set_albumsResponse (VObj [("items", VArr [])]) Demo.artist_rem
  = Demo.artist_rem
  \/ (Artist.set_albumsResponse (VObj [("items", VArr [])]) Demo.artist_rem
      = Artist.set_albumsResponse (VObj [("items", VArr [])]) Demo.artist_rem
      /\ truthy (VObj [("items", VArr [])]) = true)
  \/ (Artist.cached
        (Artist.set_albumsResponse (VObj [("items", VArr [])]) Demo.artist_rem)
      = true
      /\ snd (Artist.searchForArtist (H := Demo.offline)
                (Artist.set_albumsResponse (VObj [("items", VArr [])])
                   Demo.artist_rem) []) = []
      /\ is_resolved
           (fst (fst (Artist.searchForArtist (H := Demo.offline)
                        (Artist.set_albumsResponse (VObj [("items", VArr [])])
                           Demo.artist_rem) []))) = true).
Proof.
  exact (artist_setResponse_caches (H := Demo.offline) (VObj [("items", VArr [])])
           Demo.artist_rem _ [] eq_refl).
Defined.

(** ** The identifier pattern *)

(** X1: The pattern of the fallback is a test of the last character: it
    matches exactly the references that end with an ASCII letter or
    digit, whatever comes before, so that a name of several words
    matches as an identifier does. *)
Theorem identifier_pattern_tests_last_char (s : string) :
  (Regex.matches_id s = true
   <-> exists c, last_char s = Some c /\ Regex.is_alnum c = true)
  /\ (forall before, Regex.matches_id s = true ->
                     Regex.matches_id (before ++ s) = true)
  /\ Regex.matches_id "Beach House" = true.
Proof.
  assert (Hlast : forall p c, last_char (p ++ String c EmptyString) = Some c).
  { induction p as [|d p IH]; intros c; [reflexivity|]. simpl.
    specialize (IH c).
    destruct (p ++ String c EmptyString)%string eqn:E; [|exact IH].
    destruct p; discriminate. }
  assert (Hsplit : forall t c, last_char t = Some c ->
                               exists p, t = (p ++ String c EmptyString)%string).
  { induction t as [|d t IH]; intros c; [discriminate|]. simpl.
    destruct t as [|e t'].
    - intros E. inversion E. now exists EmptyString.
    - intros Hl. destruct (IH c Hl) as [p Hp]. exists (String d p).
      simpl. now rewrite <- Hp. }
  split; [|split; [|reflexivity]].
  - rewrite matches_id_iff. split.
    + intros (p & c & -> & Hc). exists c. now rewrite Hlast.
    + intros (c & Hl & Hc). destruct (Hsplit s c Hl) as [p ->]. now exists p, c.
  - intros before Hm. apply matches_id_iff in Hm as (p & c & -> & Hc).
    apply matches_id_iff. exists (before ++ p)%string, c.
    split; [now rewrite append_assoc | exact Hc].
Qed.
